(** * Moodle course scraper: the extraction core of [main.py]

    A shallow embedding of the pure extraction logic of the scraper
    (name sanitising, the folder-tree walk, the activity resolver, the
    assignment-page metadata extractor and the Content-Disposition
    parser) and of the code around it (unique paths, the downloads, the
    dashboard and the course page), followed by the properties
    established about it.

    Python [str] values are sequences of Unicode code points, so they are
    modelled as [list N]; the parsed page is a tree of tags and text
    nodes, as BeautifulSoup builds it; a metadata [dict] is a finite map
    from keys to Python values; a path is a root and its segments; the
    browser and the server are functions from URLs to answers, and the
    file system is a state of which the code sees which paths exist. *)

From Stdlib Require Import ZArith NArith Ascii String Lia DecimalN.
From stdpp Require Import gmap strings list.

Set Warnings "-register-all,-clear-no-such-hyp".
#[local] Open Scope N_scope.

(* ================================================================== *)
(** * Python strings                                                   *)
(* ================================================================== *)

Module Py.

(** A [str] is a sequence of code points. *)
Definition pystr := list N.

(** An ASCII literal, read as a [str]. *)
Definition str (s : string) : pystr := map N_of_ascii (list_ascii_of_string s).

Definition pystr_eqb (a b : pystr) : bool := bool_decide (a = b).

(** Truthiness of a [str]: [if not s] is [negb (truthy s)]. *)
Definition truthy (s : pystr) : bool :=
  match s with [] => false | _ :: _ => true end.

Definition NBSP : N := 0xA0.
Definition SPACE : N := 0x20.

(** [str.isspace] for one code point; the same set is what [str.strip()]
    removes and what [\s] matches in a [str] pattern. *)
Definition isspace (c : N) : bool :=
  ((0x09 <=? c) && (c <=? 0x0D))
  || ((0x1C <=? c) && (c <=? 0x20))
  || (c =? 0x85) || (c =? 0xA0) || (c =? 0x1680)
  || ((0x2000 <=? c) && (c <=? 0x200A))
  || (c =? 0x2028) || (c =? 0x2029) || (c =? 0x202F)
  || (c =? 0x205F) || (c =? 0x3000).

(** [s.lstrip(chars)], [s.rstrip(chars)] and [s.strip(chars)], with the set
    of characters to remove given as a predicate. *)
Fixpoint lstrip_by (p : N -> bool) (s : pystr) : pystr :=
  match s with
  | [] => []
  | c :: s' => if p c then lstrip_by p s' else s
  end.

Fixpoint rstrip_by (p : N -> bool) (s : pystr) : pystr :=
  match s with
  | [] => []
  | c :: s' =>
      match rstrip_by p s' with
      | [] => if p c then [] else [c]
      | r => c :: r
      end
  end.

Definition strip_by (p : N -> bool) (s : pystr) : pystr :=
  rstrip_by p (lstrip_by p s).

Definition lstrip : pystr -> pystr := lstrip_by isspace.
Definition rstrip : pystr -> pystr := rstrip_by isspace.
Definition strip : pystr -> pystr := strip_by isspace.

(** [s.strip(chars)] for a literal set of characters. *)
Definition strip_chars (chars : pystr) : pystr -> pystr :=
  strip_by (fun c => bool_decide (c ∈ chars)).

(** [s.startswith(p)]. *)
Fixpoint startswith (p s : pystr) : bool :=
  match p, s with
  | [], _ => true
  | _ :: _, [] => false
  | a :: p', b :: s' => (a =? b) && startswith p' s'
  end.

(** [sub in s]. *)
Fixpoint contains (sub s : pystr) : bool :=
  startswith sub s ||
  match s with
  | [] => false
  | _ :: s' => contains sub s'
  end.

(** [s.replace(old, new)] for a one-character [old]. *)
Definition replace_char (old : N) (new : pystr) (s : pystr) : pystr :=
  flat_map (fun c => if c =? old then new else [c]) s.

(** [s.replace(old, new, 1)]: the first occurrence only.  For an empty
    [old] Python inserts [new] in front. *)
Fixpoint replace_first (old new s : pystr) : pystr :=
  if startswith old s then new ++ drop (length old) s
  else match s with
       | [] => []
       | c :: s' => c :: replace_first old new s'
       end.

(** [s.split(sep)] for a one-character separator: never an empty list. *)
Fixpoint split (sep : N) (s : pystr) : list pystr :=
  match s with
  | [] => [[]]
  | c :: s' =>
      if c =? sep then [] :: split sep s'
      else match split sep s' with
           | [] => [[c]]
           | p :: ps => (c :: p) :: ps
           end
  end.

(** [parts[-1]]. *)
Definition last_part (parts : list pystr) : pystr := List.last parts [].

(** [sep.join(parts)]. *)
Fixpoint join (sep : pystr) (parts : list pystr) : pystr :=
  match parts with
  | [] => []
  | [p] => p
  | p :: ps => p ++ sep ++ join sep ps
  end.

(** [s[:n]] with Python's reading of a negative bound. *)
Definition slice_to (n : Z) (s : pystr) : pystr :=
  if (n <? 0)%Z then take (Z.to_nat (Z.of_nat (length s) + n)) s
  else take (Z.to_nat n) s.

(** [str.lower()] on one code point.  The table is that of Python for Basic
    Latin, Latin-1 and Cyrillic (U+0000 to U+00FF and U+0400 to U+052F), the
    alphabets of the labels and of the portal's pages; other code points
    are left as they are. *)
Definition lower_cp (c : N) : N :=
  if (0x41 <=? c) && (c <=? 0x5A) then c + 0x20
  else if (0xC0 <=? c) && (c <=? 0xDE) && negb (c =? 0xD7) then c + 0x20
  else if (0x400 <=? c) && (c <=? 0x40F) then c + 0x50
  else if (0x410 <=? c) && (c <=? 0x42F) then c + 0x20
  else if (0x460 <=? c) && (c <=? 0x481) && N.even c then c + 1
  else if (0x48A <=? c) && (c <=? 0x4BF) && N.even c then c + 1
  else if c =? 0x4C0 then 0x4CF
  else if (0x4C1 <=? c) && (c <=? 0x4CE) && N.odd c then c + 1
  else if (0x4D0 <=? c) && (c <=? 0x52F) && N.even c then c + 1
  else c.

Definition lower (s : pystr) : pystr := map lower_cp s.

(** [re.sub(cls, repl, s)] for a pattern that is a single character class:
    every matching character is replaced by [repl]. *)
Definition re_sub_class (cls : N -> bool) (repl : pystr) (s : pystr) : pystr :=
  flat_map (fun c => if cls c then repl else [c]) s.

(** [re.sub(r"\s+", " ", s)]: a scan that emits one space at the start of
    each maximal whitespace run.  [in_run] tells whether the previous
    character was whitespace. *)
Fixpoint re_sub_ws_runs (in_run : bool) (s : pystr) : pystr :=
  match s with
  | [] => []
  | c :: s' =>
      if isspace c
      then (if in_run then re_sub_ws_runs true s'
            else SPACE :: re_sub_ws_runs true s')
      else c :: re_sub_ws_runs false s'
  end.

End Py.

Import Py.

(* ================================================================== *)
(** * File and folder names                                            *)
(* ================================================================== *)

(** The class of the first substitution: backslash and slash. *)
Definition is_slash (c : N) : bool := (c =? 0x2F) || (c =? 0x5C).

(** The class of the second substitution: colon, star, question mark,
    double quote, angle brackets and the vertical bar. *)
Definition is_forbidden (c : N) : bool :=
  (c =? 0x3A) || (c =? 0x2A) || (c =? 0x3F) || (c =? 0x22)
  || (c =? 0x3C) || (c =? 0x3E) || (c =? 0x7C).

(** The name after the four rewriting steps, before the placeholder and
    the length cap. *)
Definition sanitize (name : pystr) : pystr :=
  let name := replace_char NBSP [SPACE] (strip name) in
  let name := re_sub_class is_slash (str "-") name in
  let name := re_sub_class is_forbidden [] name in
  re_sub_ws_runs false name.

Definition safe_name (name : pystr) (max_len : Z) : pystr :=
  let name := sanitize name in
  let name := if truthy name then name else str "untitled" in
  if (Z.of_nat (length name) >? max_len)%Z
  then rstrip (slice_to max_len name)
  else name.

(** The default of the [max_len] argument. *)
Definition default_max_len : Z := 80.

(** A character a sanitised name may hold: no separator, none of the
    removed characters, and no whitespace other than the plain space. *)
Definition clean_char (c : N) : Prop :=
  is_slash c = false /\ is_forbidden c = false /\ (isspace c = true -> c = SPACE).

(** Whitespace is collapsed: no two neighbours are both whitespace. *)
Fixpoint ws_collapsed (s : pystr) : bool :=
  match s with
  | c1 :: (c2 :: _) as s' => negb (isspace c1 && isspace c2) && ws_collapsed s'
  | _ => true
  end.

(* ================================================================== *)
(** * The parsed page                                                  *)
(* ================================================================== *)

Module Bs4.

(** A page as BeautifulSoup holds it: text nodes and tags.  The [class]
    attribute, which the parser splits into a list, is kept apart from the
    other attributes.  The soup object itself is the outermost tag. *)
Inductive node : Type :=
| Text (s : pystr)
| Tag (name : string) (classes : list string)
      (attrs : list (string * pystr)) (contents : list node).

Definition children (n : node) : list node :=
  match n with Text _ => [] | Tag _ _ _ kids => kids end.

Definition is_tag (names : list string) (n : node) : bool :=
  match n with
  | Text _ => false
  | Tag name _ _ _ => bool_decide (name ∈ names)
  end.

Definition has_class (cls : string) (n : node) : bool :=
  match n with
  | Text _ => false
  | Tag _ classes _ _ => bool_decide (cls ∈ classes)
  end.

(** [tag.get(key)]: the first attribute of that name, [None] when absent. *)
Definition get (key : string) (n : node) : option pystr :=
  match n with
  | Text _ => None
  | Tag _ _ attrs _ => snd <$> List.find (fun kv => bool_decide (fst kv = key)) attrs
  end.

(** Every node below [n], in document order. *)
Fixpoint descendants (n : node) : list node :=
  match n with
  | Text _ => []
  | Tag _ _ _ kids => flat_map (fun k => k :: descendants k) kids
  end.

(** The same walk, each node with its ancestors up to and including the
    node the walk started from, nearest first. *)
Fixpoint walk (anc : list node) (n : node) : list (list node * node) :=
  match n with
  | Text _ => []
  | Tag _ _ _ kids => flat_map (fun k => (n :: anc, k) :: walk (n :: anc) k) kids
  end.

Fixpoint height (n : node) : nat :=
  match n with
  | Text _ => 0%nat
  | Tag _ _ _ kids => S (foldr (fun k acc => Nat.max (height k) acc) 0%nat kids)
  end.

(** [n.find_all(names)]. *)
Definition find_all (names : list string) (n : node) : list node :=
  filter (fun d => is_tag names d = true) (descendants n).

(** [n.find(name)]. *)
Definition find (name : string) (n : node) : option node :=
  head (find_all [name] n).

(** [n.find_all(name, recursive=False)]. *)
Definition find_all_direct (name : string) (n : node) : list node :=
  filter (fun d => is_tag [name] d = true) (children n).

(** [n.find_all(name, class_=cls, recursive=False)]. *)
Definition find_all_direct_class (name cls : string) (n : node) : list node :=
  filter (fun d => is_tag [name] d && has_class cls d = true) (children n).

(** [n.select(".cls")] and [n.select_one(".cls")]. *)
Definition select_class (cls : string) (n : node) : list node :=
  filter (fun d => has_class cls d = true) (descendants n).

Definition select_one_class (cls : string) (n : node) : option node :=
  head (select_class cls n).

(** [n.select(".pcls > .cls")]: every node below [n] that carries [cls] and
    whose parent carries [pcls].  The match is on the node and its parent
    only, wherever below [n] the node lies. *)
Definition select_child_of (pcls cls : string) (n : node) : list node :=
  omap (fun '(anc, d) =>
          match anc with
          | parent :: _ => if has_class cls d && has_class pcls parent then Some d else None
          | [] => None
          end) (walk [] n).

(** [n.select(".c1 name, .c2 name, ...")]: every [name] tag below [n] that
    has an ancestor carrying one of the classes.  A selector list is one
    selector: the matches come in document order, each once. *)
Definition select_under (clss : list string) (name : string) (n : node) : list node :=
  omap (fun '(anc, d) =>
          if is_tag [name] d
             && existsb (fun a => existsb (fun c => has_class c a) clss) anc
          then Some d else None) (walk [] n).

(** [n.select("name[key*='sub']")]. *)
Definition select_attr_contains (name key : string) (sub : pystr) (n : node) : list node :=
  filter (fun d => is_tag [name] d
                   && match get key d with
                      | Some v => contains sub v
                      | None => false
                      end = true) (descendants n).

(** The text nodes below [n], in document order. *)
Definition strings (n : node) : list pystr :=
  omap (fun d => match d with Text s => Some s | Tag _ _ _ _ => None end) (descendants n).

(** [n.get_text(" ", strip=True)]: the stripped, non-empty text nodes joined
    by one space. *)
Definition get_text (n : node) : pystr :=
  join [SPACE] (filter (fun s => truthy s = true) (map strip (strings n))).

End Bs4.

Import Bs4.

Definition MOODLE_BASE : pystr := str "https://moodle.elct.lnu.edu.ua".

(** The marker of a file served by the portal. *)
Definition PLUGINFILE : pystr := str "pluginfile.php".

(** [if href.startswith("/"): href = MOODLE_BASE + href]. *)
Definition absolutize (href : pystr) : pystr :=
  if startswith (str "/") href then MOODLE_BASE ++ href else href.

(** [if href not in files: files.append(href)]. *)
Definition append_new (files : list pystr) (href : pystr) : list pystr :=
  if bool_decide (href ∈ files) then files else files ++ [href].

(** The body of the loop over anchors that [parse_folder_tree] and
    [parse_assign_page] share. *)
Definition add_anchor (files : list pystr) (a : node) : list pystr :=
  match get "href" a with
  | None => files
  | Some href => if truthy href then append_new files (absolutize href) else files
  end.

(** [node.select("a[href*='pluginfile.php']")]. *)
Definition pluginfile_anchors (n : node) : list node :=
  select_attr_contains "a" "href" PLUGINFILE n.

(* ================================================================== *)
(** * The folder tree                                                  *)
(* ================================================================== *)

(** [node.select(".ygtvchildren > .ygtvitem")]. *)
Definition child_items (n : node) : list node :=
  select_child_of "ygtvchildren" "ygtvitem" n.

(** The inner function [recurse] of [parse_folder_tree]; [files] is the list it
    appends to.  [fuel] bounds the depth of the recursion; [None] means it
    ran out. *)
Fixpoint recurse (fuel : nat) (n : node) (files : list pystr) : option (list pystr) :=
  match fuel with
  | O => None
  | S fuel' =>
      let files := fold_left add_anchor (pluginfile_anchors n) files in
      fold_left (fun acc child => files' ← acc; recurse fuel' child files')
                (child_items n) (Some files)
  end.

(** The nodes [recurse] is called on, in call order, when started on [n]. *)
Fixpoint visits (fuel : nat) (n : node) : option (list node) :=
  match fuel with
  | O => None
  | S fuel' =>
      fold_left (fun acc child => vs ← acc; vs' ← visits fuel' child; Some (vs ++ vs'))
                (child_items n) (Some [n])
  end.

(** The roots of one [.foldertree]: its direct [div.ygtvitem] children, or,
    when it has none, every [.ygtvitem] below it. *)
Definition tree_roots (tree : node) : list node :=
  let roots := find_all_direct_class "div" "ygtvitem" tree in
  match roots with
  | [] => select_class "ygtvitem" tree
  | _ :: _ => roots
  end.

(** The roots of every tree of the page, in the order the two nested loops
    reach them. *)
Definition all_roots (soup : node) : list node :=
  flat_map tree_roots (select_class "foldertree" soup).

Definition parse_folder_tree_fuel (fuel : nat) (soup : node) : option (list pystr) :=
  fold_left (fun acc r => files ← acc; recurse fuel r files) (all_roots soup) (Some []).

(** The depth of the recursion never exceeds the height of the page. *)
Definition parse_folder_tree (soup : node) : option (list pystr) :=
  parse_folder_tree_fuel (S (height soup)) soup.

(** The first occurrence of each element, in order. *)
Fixpoint dedup_first (l : list pystr) : list pystr :=
  match l with
  | [] => []
  | x :: l' => x :: filter (fun y => y <> x) (dedup_first l')
  end.

(** The targets an anchor loop meets: the non-empty [href] values, made
    absolute. *)
Definition anchor_targets (anchors : list node) : list pystr :=
  omap (fun a => match get "href" a with
                 | Some href => if truthy href then Some (absolutize href) else None
                 | None => None
                 end) anchors.

(** A [div] with an [id] and classes, and an anchor: shorthands to write
    pages down. *)
Definition div (id : string) (classes : list string) (kids : list node) : node :=
  Tag "div" classes [("id"%string, str id)] kids.

Definition anchor (href : string) (text : string) : node :=
  Tag "a" [] [("href"%string, str href)] [Text (str text)].

Definition soup_of (kids : list node) : node := Tag "[document]" [] [] kids.

(** A folder nested in a folder: item [ygtv0] holds a file and the group
    [ygtvc0]; the group holds item [ygtv1], which holds the group [ygtvc1]
    with item [ygtv2]. *)
Definition item2 : node :=
  div "ygtv2" ["ygtvitem"] [anchor "/pluginfile.php/7/mod_folder/content/0/sub/b.pdf" "b.pdf"].
Definition item1 : node :=
  div "ygtv1" ["ygtvitem"] [div "ygtvc1" ["ygtvchildren"] [item2]].
Definition item0 : node :=
  div "ygtv0" ["ygtvitem"]
      [anchor "/pluginfile.php/7/mod_folder/content/0/a.pdf" "a.pdf";
       div "ygtvc0" ["ygtvchildren"] [item1]].
Definition nested_folder_page : node :=
  soup_of [div "folder" ["foldertree"] [item0]].

(** The targets met at a node, and those the whole walk meets, root by
    root. *)
Definition targets_at (n : node) : list pystr := anchor_targets (pluginfile_anchors n).

Definition folder_candidates (soup : node) : list pystr :=
  flat_map targets_at (all_roots soup).

(** The [href] values of the resource-file anchors of a fragment, as
    written. *)
Definition raw_links (soup : node) : list pystr :=
  omap (get "href") (pluginfile_anchors soup).

(** The tree items one level down from [n]: the [.ygtvitem] children of the
    [.ygtvchildren] groups that are children of [n]. *)
Definition items_one_level_down (n : node) : list node :=
  flat_map (fun g => filter (fun k => has_class "ygtvitem" k = true) (children g))
           (filter (fun g => has_class "ygtvchildren" g = true) (children n)).

(* ================================================================== *)
(** * The activity resolver                                            *)
(* ================================================================== *)

(** What [page.goto(url)] followed by [page.content()] gives: the parsed
    page, or the exception the navigation raised.  [Raised] is an exception
    of [page.goto], which the callers catch; [page.content()] and the parser
    stand after the [try] of the callers and are taken to return, so the
    embedding covers the runs in which they do. *)
Inductive exn : Type := Exception (msg : pystr).

Inductive outcome (A : Type) : Type :=
| Ok (a : A)
| Raised (e : exn).
Arguments Ok {A} a.
Arguments Raised {A} e.

Definition browser : Type := pystr -> outcome node.

(** The first guard of [collect_activity_files]. *)
Definition unreachable (url : pystr) : bool :=
  negb (truthy url) || pystr_eqb url (str "#") || negb (startswith (str "http") url).

(** [not u or u.startswith("#") or u.lower().startswith("javascript:")]. *)
Definition is_placeholder (u : pystr) : bool :=
  negb (truthy u) || startswith (str "#") u || startswith (str "javascript:") (lower u).

(** What [add_if_pluginfile(raw)] would append, if anything, leaving aside
    whether the list has it already. *)
Definition pluginfile_target (raw : option pystr) : option pystr :=
  match raw with
  | None => None
  | Some raw =>
      if negb (truthy raw) then None
      else
        let u := strip raw in
        if is_placeholder u then None
        else
          let u := absolutize u in
          if contains PLUGINFILE u then Some u else None
  end.

(** The inner function [add_if_pluginfile]; [urls] is the list it appends
    to. *)
Definition add_if_pluginfile (urls : list pystr) (raw : option pystr) : list pystr :=
  match raw with
  | None => urls
  | Some raw' =>
      if negb (truthy raw') then urls
      else
        let u := strip raw' in
        if is_placeholder u then urls
        else
          let u := absolutize u in
          if contains PLUGINFILE u && negb (bool_decide (u ∈ urls)) then urls ++ [u] else urls
  end.

Definition MEDIA_TAGS : list string := ["iframe"; "img"; "source"; "video"; "audio"].

(** Step 2: every anchor's [href], then every media element's [src]. *)
Definition scan_pluginfile (soup : node) : list pystr :=
  let urls := fold_left (fun urls a => add_if_pluginfile urls (get "href" a))
                        (find_all ["a"] soup) [] in
  fold_left (fun urls t => add_if_pluginfile urls (get "src" t))
            (find_all MEDIA_TAGS soup) urls.

(** The values step 2 looks at, in the order it looks at them. *)
Definition scan_inputs (soup : node) : list (option pystr) :=
  map (get "href") (find_all ["a"] soup) ++ map (get "src") (find_all MEDIA_TAGS soup).

Definition scan_candidates (soup : node) : list pystr :=
  omap pluginfile_target (scan_inputs soup).

(** The same values in the order of the page: each anchor and media
    element where it stands. *)
Definition page_order_inputs (soup : node) : list (option pystr) :=
  omap (fun d => if is_tag ["a"] d then Some (get "href" d)
                 else if is_tag MEDIA_TAGS d then Some (get "src" d)
                 else None) (descendants soup).

Definition page_order_candidates (soup : node) : list pystr :=
  omap pluginfile_target (page_order_inputs soup).

Definition FALLBACK_REGIONS : list string :=
  ["resourceworkaround"; "activityinstance"; "region-main"].

(** [soup.select(".resourceworkaround a, .activityinstance a, .region-main a")]. *)
Definition fallback_anchors (soup : node) : list node :=
  select_under FALLBACK_REGIONS "a" soup.

(** The body of the fallback loop: the target it appends before [break], or
    [None] when it moves on to the next anchor. *)
Definition candidate_target (a : node) : option pystr :=
  match get "href" a with
  | None => None
  | Some href =>
      if negb (truthy href) then None
      else
        let href := strip href in
        if is_placeholder href then None else Some (absolutize href)
  end.

(** Step 3: the loop over the candidates stops at the first it appends. *)
Fixpoint first_candidate (candidates : list node) (urls : list pystr) : list pystr :=
  match candidates with
  | [] => urls
  | a :: rest =>
      match candidate_target a with
      | Some href => urls ++ [href]
      | None => first_candidate rest urls
      end
  end.

(** [collect_activity_files(page, activity_url)].  The second component
    lists the URLs handed to [page.goto], in order. *)
Definition collect_activity_files (page : browser) (activity_url : pystr)
  : list pystr * list pystr :=
  if unreachable activity_url then ([], [])
  else if contains PLUGINFILE activity_url then ([activity_url], [])
  else
    match page activity_url with
    | Raised _ => ([], [activity_url])
    | Ok soup =>
        let tree_urls :=
          match select_one_class "foldertree" soup with
          | Some _ => default [] (parse_folder_tree soup)
          | None => []
          end in
        match tree_urls with
        | _ :: _ => (tree_urls, [activity_url])
        | [] =>
            match scan_pluginfile soup with
            | (_ :: _) as urls => (urls, [activity_url])
            | [] =>
                match first_candidate (fallback_anchors soup) [] with
                | (_ :: _) as urls => (urls, [activity_url])
                | [] => ([activity_url], [activity_url])
                end
            end
        end
    end.

(** The reading of step 3 that takes the regions one after another: the
    first usable anchor of the first region that has one. *)
Definition first_by_region (soup : node) : option pystr :=
  head (flat_map (fun cls => omap candidate_target (select_under [cls] "a" soup))
                 FALLBACK_REGIONS).

(** A resource page: the main region opens with a link back to the course,
    and the file itself is linked inside the [resourceworkaround] block
    further down. *)
Definition resource_page : node :=
  soup_of
    [Tag "div" ["region-main"] []
       [anchor "/course/view.php?id=42" "Back to the course";
        Tag "div" ["resourceworkaround"] []
          [anchor "https://files.example.org/lecture1.pdf" "lecture1.pdf"]]].

Definition resource_url : pystr := str "https://moodle.elct.lnu.edu.ua/mod/resource/view.php?id=7".

Definition resource_browser : browser :=
  fun url => if pystr_eqb url resource_url then Ok resource_page
             else Raised (Exception (str "net::ERR_NAME_NOT_RESOLVED")).

(** A page that shows a picture before it links a document, both served by
    the portal. *)
Definition picture_then_link_page : node :=
  soup_of
    [Tag "img" [] [("src"%string, str "/pluginfile.php/9/mod_page/content/1/scheme.png")] [];
     anchor "/pluginfile.php/9/mod_page/content/1/notes.pdf" "notes.pdf"].

(* ================================================================== *)
(** * Bytes, UTF-8 and percent-escapes                                 *)
(* ================================================================== *)

Module Codec.

(** The replacement character U+FFFD. *)
Definition REPLACEMENT : N := 0xFFFD.

Definition is_cont (b : N) : bool := (0x80 <=? b) && (b <? 0xC0).

(** One step of the UTF-8 decoder on the bytes that remain. *)
Inductive utf8_step : Type :=
| Decoded (c : N) (used : nat)   (* a scalar value and the bytes it took *)
| Invalid (used : nat)           (* an invalid start or continuation byte *)
| Truncated.                     (* the data ends inside a sequence *)

Definition utf8_decode1 (s : list N) : utf8_step :=
  match s with
  | [] => Truncated
  | ch :: t =>
      if ch <? 0x80 then Decoded ch 1
      else if ch <? 0xE0 then
        if ch <? 0xC2 then Invalid 1
        else match t with
             | [] => Truncated
             | ch2 :: _ =>
                 if is_cont ch2 then Decoded ((ch - 0xC0) * 0x40 + (ch2 - 0x80)) 2
                 else Invalid 1
             end
      else if ch <? 0xF0 then
        match t with
        | [] => Truncated
        | ch2 :: t2 =>
            if negb (is_cont ch2) || (if ch2 <? 0xA0 then ch =? 0xE0 else ch =? 0xED)
            then Invalid 1
            else match t2 with
                 | [] => Truncated
                 | ch3 :: _ =>
                     if is_cont ch3
                     then Decoded ((ch - 0xE0) * 0x1000 + (ch2 - 0x80) * 0x40 + (ch3 - 0x80)) 3
                     else Invalid 2
                 end
        end
      else if ch <? 0xF5 then
        match t with
        | [] => Truncated
        | ch2 :: t2 =>
            if negb (is_cont ch2) || (if ch2 <? 0x90 then ch =? 0xF0 else ch =? 0xF4)
            then Invalid 1
            else match t2 with
                 | [] => Truncated
                 | ch3 :: t3 =>
                     if negb (is_cont ch3) then Invalid 2
                     else match t3 with
                          | [] => Truncated
                          | ch4 :: _ =>
                              if is_cont ch4
                              then Decoded ((ch - 0xF0) * 0x40000 + (ch2 - 0x80) * 0x1000
                                            + (ch3 - 0x80) * 0x40 + (ch4 - 0x80)) 4
                              else Invalid 3
                          end
                 end
        end
      else Invalid 1
  end.

(** [bytes.decode("utf-8", errors)]: with [replace = false] an error
    raises ([None]); with [replace = true] each error becomes one
    replacement character.  Every step uses at least one byte, so fuel
    equal to the length never runs out. *)
Fixpoint utf8_decode_loop (fuel : nat) (replace : bool) (s : list N) : option pystr :=
  match s with
  | [] => Some []
  | _ :: _ =>
      match fuel with
      | O => None
      | S fuel' =>
          match utf8_decode1 s with
          | Decoded c used => cons c <$> utf8_decode_loop fuel' replace (drop used s)
          | Invalid used =>
              if replace
              then cons REPLACEMENT <$> utf8_decode_loop fuel' replace (drop used s)
              else None
          | Truncated => if replace then Some [REPLACEMENT] else None
          end
      end
  end.

Definition utf8_decode_strict (s : list N) : option pystr :=
  utf8_decode_loop (length s) false s.

Definition utf8_decode_replace (s : list N) : pystr :=
  default [] (utf8_decode_loop (length s) true s).

(** A literal of the source text, which is UTF-8. *)
Definition utf8 (s : string) : pystr :=
  default [] (utf8_decode_strict (map N_of_ascii (list_ascii_of_string s))).

(** [s.encode("latin1")]: raises ([None]) on a code point above 255. *)
Definition latin1_encode (s : pystr) : option (list N) :=
  if forallb (fun c => c <? 0x100) s then Some s else None.

Definition hexval (c : N) : option N :=
  if (0x30 <=? c) && (c <=? 0x39) then Some (c - 0x30)
  else if (0x41 <=? c) && (c <=? 0x46) then Some (c - 0x41 + 10)
  else if (0x61 <=? c) && (c <=? 0x66) then Some (c - 0x61 + 10)
  else None.

(** [urllib.parse.unquote_to_bytes] on a run of ASCII characters: a percent
    sign followed by two hex digits is one byte, any other percent sign
    stays. *)
Fixpoint unquote_to_bytes (s : pystr) : list N :=
  match s with
  | [] => []
  | c :: t =>
      if c =? 0x25
      then match t with
           | h1 :: h2 :: t' =>
               match hexval h1, hexval h2 with
               | Some a, Some b => (16 * a + b) :: unquote_to_bytes t'
               | _, _ => c :: unquote_to_bytes t
               end
           | _ => c :: unquote_to_bytes t
           end
      else c :: unquote_to_bytes t
  end.

(** The longest prefix whose characters satisfy [p], and the rest. *)
Fixpoint span (p : N -> bool) (s : pystr) : pystr * pystr :=
  match s with
  | [] => ([], [])
  | c :: t => if p c then let '(a, b) := span p t in (c :: a, b) else ([], s)
  end.

Definition is_ascii (c : N) : bool := c <? 0x80.

(** The loop of [unquote]: maximal ASCII runs are unescaped and decoded as
    UTF-8 with replacement, the characters between them are kept. *)
Fixpoint unquote_loop (fuel : nat) (s : pystr) : pystr :=
  match fuel, s with
  | _, [] => []
  | O, _ => []
  | S fuel', c :: _ =>
      if is_ascii c
      then let '(run, rest) := span is_ascii s in
           utf8_decode_replace (unquote_to_bytes run) ++ unquote_loop fuel' rest
      else let '(run, rest) := span (fun c => negb (is_ascii c)) s in
           run ++ unquote_loop fuel' rest
  end.

(** [urllib.parse.unquote(s)]. *)
Definition unquote (s : pystr) : pystr :=
  if bool_decide (0x25 ∈ s) then unquote_loop (length s) s else s.

End Codec.

Import Codec.

(* ================================================================== *)
(** * The assignment page                                              *)
(* ================================================================== *)

(** The values a metadata [dict] holds.  [F] is the type of Python floats. *)
Inductive pyval (F : Type) : Type :=
| VNone
| VStr (s : pystr)
| VList (l : list pystr)
| VFloat (x : F).
Arguments VNone {F}.
Arguments VStr {F} s.
Arguments VList {F} l.
Arguments VFloat {F} x.

(** The labels the extractor looks for, as the source spells them. *)
Definition L_ACCEPT_FROM : pystr := Eval vm_compute in utf8 "початок приймання".
Definition L_EXPIRES : pystr := Eval vm_compute in utf8 "термін спливає".
Definition L_AVAILABLE_1 : pystr := Eval vm_compute in utf8 "доступно з".
Definition L_AVAILABLE_2 : pystr := Eval vm_compute in utf8 "доступне з".
Definition L_AVAILABLE_EN : pystr := str "available from".
Definition L_DUE : pystr := Eval vm_compute in utf8 "термін здачі".
Definition L_DUE_EN : pystr := str "due date".
Definition L_CUTOFF : pystr := Eval vm_compute in utf8 "остання можливість здачі".
Definition L_CUTOFF_EN : pystr := str "cut-off".
Definition L_ATTEMPT : pystr := Eval vm_compute in utf8 "спроба номер".
Definition L_SUBMISSION : pystr := Eval vm_compute in utf8 "статус роботи".
Definition L_GRADING : pystr := Eval vm_compute in utf8 "статус оцінення".
Definition L_REMAINING : pystr := Eval vm_compute in utf8 "залишилося часу".
Definition L_MODIFIED : pystr := Eval vm_compute in utf8 "востаннє змінено".
Definition L_GRADE : pystr := Eval vm_compute in utf8 "оцінка".

Definition DATE_FIELDS : list string := ["start_at"; "due_at"; "cutoff_at"].

Definition STATUS_FIELDS : list string :=
  ["attempt"; "submission_status"; "grading_status"; "time_remaining"; "last_modified"].

Definition META_FIELDS : list string :=
  DATE_FIELDS ++ STATUS_FIELDS ++ ["files"; "grade_text"; "grade_raw"; "grade_max"].

Section Assign.
Context {F : Type}.

(** [float(t)], with [None] for the [ValueError] of a text that is not a
    number. *)
Variable pyfloat : pystr -> option F.

Abbreviation dict := (gmap string (pyval F)).

(** [meta.get(key)]. *)
Definition dict_get (meta : dict) (key : string) : pyval F :=
  default VNone (meta !! key).

(** [meta[key] is None]. *)
Definition is_none (meta : dict) (key : string) : bool :=
  match meta !! key with
  | Some VNone => true
  | _ => false
  end.

Definition float_val (x : option F) : pyval F :=
  match x with Some f => VFloat f | None => VNone end.

Definition _normalize_number (text : pystr) : option F :=
  let t := replace_char NBSP [SPACE] (strip text) in
  let t := replace_char 0x2C (str ".") (replace_char SPACE [] t) in
  pyfloat t.

(** The record [parse_assign_page] starts from. *)
Definition META0 : dict :=
  <["start_at" := VNone]> (<["due_at" := VNone]> (<["cutoff_at" := VNone]> (
  <["attempt" := VNone]> (<["submission_status" := VNone]> (
  <["grading_status" := VNone]> (<["time_remaining" := VNone]> (
  <["last_modified" := VNone]> (<["files" := VList []]> (
  <["grade_text" := VNone]> (<["grade_raw" := VNone]> (
  <["grade_max" := VNone]> ∅))))))))))).

(** The body of the loop over the [div]s of [.activity-dates]. *)
Definition activity_date_step (meta : dict) (div : node) : dict :=
  match find "strong" div with
  | None => meta
  | Some strong_tag =>
      let label_raw := get_text strong_tag in
      let label := lower label_raw in
      let full_text := get_text div in
      let date_text := strip_chars (str " :") (replace_first label_raw [] full_text) in
      if negb (truthy date_text) then meta
      else if contains L_ACCEPT_FROM label && is_none meta "start_at"
      then <["start_at" := VStr date_text]> meta
      else if contains L_EXPIRES label && is_none meta "due_at"
      then <["due_at" := VStr date_text]> meta
      else meta
  end.

Definition activity_dates_divs (soup : node) : list node :=
  match select_one_class "activity-dates" soup with
  | Some block => find_all_direct "div" block
  | None => []
  end.

(** [soup.select(".submissionstatustable tr")]. *)
Definition status_table_rows (soup : node) : list node :=
  select_under ["submissionstatustable"] "tr" soup.

(** The list [date_rows]: the [div]s of [.dates], then the status rows. *)
Definition date_rows (soup : node) : list node :=
  match select_one_class "dates" soup with
  | Some block => find_all ["div"] block
  | None => []
  end ++ status_table_rows soup.

(** The body of the loop over [date_rows]: three independent tests. *)
Definition date_row_step (meta : dict) (row : node) : dict :=
  let text_raw := get_text row in
  let text := lower text_raw in
  let meta :=
    if (contains L_AVAILABLE_1 text || contains L_AVAILABLE_2 text
        || contains L_AVAILABLE_EN text) && is_none meta "start_at"
    then <["start_at" := VStr text_raw]> meta else meta in
  let meta :=
    if (contains L_DUE text || contains L_DUE_EN text) && is_none meta "due_at"
    then <["due_at" := VStr text_raw]> meta else meta in
  if (contains L_CUTOFF text || contains L_CUTOFF_EN text) && is_none meta "cutoff_at"
  then <["cutoff_at" := VStr text_raw]> meta else meta.

(** The body of the loop over the status rows. *)
Definition status_row_step (meta : dict) (row : node) : dict :=
  match find "th" row, find "td" row with
  | Some th, Some td =>
      let label := lower (get_text th) in
      let value := get_text td in
      if contains L_ATTEMPT label then <["attempt" := VStr value]> meta
      else if contains L_SUBMISSION label then <["submission_status" := VStr value]> meta
      else if contains L_GRADING label then <["grading_status" := VStr value]> meta
      else if contains L_REMAINING label then <["time_remaining" := VStr value]> meta
      else if contains L_MODIFIED label then <["last_modified" := VStr value]> meta
      else meta
  | _, _ => meta
  end.

(** The field a status row writes and the value it writes, if it writes. *)
Definition status_write (row : node) : option (string * pystr) :=
  match find "th" row, find "td" row with
  | Some th, Some td =>
      let label := lower (get_text th) in
      let value := get_text td in
      if contains L_ATTEMPT label then Some ("attempt"%string, value)
      else if contains L_SUBMISSION label then Some ("submission_status"%string, value)
      else if contains L_GRADING label then Some ("grading_status"%string, value)
      else if contains L_REMAINING label then Some ("time_remaining"%string, value)
      else if contains L_MODIFIED label then Some ("last_modified"%string, value)
      else None
  | _, _ => None
  end.

(** The attached files: every anchor whose [href] contains the marker. *)
Definition attached_files (soup : node) : list pystr :=
  fold_left add_anchor (pluginfile_anchors soup) [].

(** [soup.select(".feedbacktable tr")]. *)
Definition feedback_rows (soup : node) : list node :=
  select_under ["feedbacktable"] "tr" soup.

(** What the grade branch stores for the text of the grade cell. *)
Definition store_grade (meta : dict) (grade_text : pystr) : dict :=
  let meta := <["grade_text" := VStr grade_text]> meta in
  match split 0x2F grade_text with
  | [left_part; right_part] =>
      <["grade_max" := float_val (_normalize_number right_part)]>
        (<["grade_raw" := float_val (_normalize_number left_part)]> meta)
  | _ => meta
  end.

(** The loop over the feedback rows; it stops at the first grade row. *)
Fixpoint grade_loop (rows : list node) (meta : dict) : dict :=
  match rows with
  | [] => meta
  | row :: rest =>
      match find "th" row, find "td" row with
      | Some th, Some td =>
          if contains L_GRADE (lower (get_text th))
          then store_grade meta (get_text td)
          else grade_loop rest meta
      | _, _ => grade_loop rest meta
      end
  end.

(** [parse_assign_page] from the parsed page on. *)
Definition assign_meta (soup : node) : dict :=
  let meta := META0 in
  let meta := fold_left activity_date_step (activity_dates_divs soup) meta in
  let meta := fold_left date_row_step (date_rows soup) meta in
  let meta := fold_left status_row_step (status_table_rows soup) meta in
  let meta := <["files" := VList (attached_files soup)]> meta in
  grade_loop (feedback_rows soup) meta.

(** [parse_assign_page(page, url)]: a failed navigation is caught and
    answered with the empty [dict]. *)
Definition parse_assign_page (page : browser) (url : pystr) : outcome dict :=
  match page url with
  | Raised _ => Ok ∅
  | Ok soup => Ok (assign_meta soup)
  end.

(** [meta.get("files") or []], as [parse_course_page] reads the record. *)
Definition files_to_download (meta : dict) : list pystr :=
  match dict_get meta "files" with
  | VList l => l
  | _ => []
  end.

End Assign.

(** The text [_normalize_number] hands to [float], said in one pass: the
    stripped text without its spaces and no-break spaces, every comma turned
    into a dot. *)
Definition number_text (t : pystr) : pystr :=
  map (fun c => if c =? 0x2C then 0x2E else c)
      (filter (fun c => c <> SPACE /\ c <> NBSP) (strip t)).

(** How often a character occurs. *)
Definition count_char (c : N) (s : list N) : nat := length (filter (fun x => x = c) s).

(** ** A reading of [float] for worked examples

    The exact value of a plain decimal literal (an optional sign, digits, an
    optional point and digits), as mantissa and number of decimals with the
    trailing zeros removed: [7.00] and [7.0] both read [(7, 0)].  Python's
    [float] accepts more texts than these; the properties below hold for
    every reading of [float] and use this one only on examples. *)

Definition is_digit (c : N) : bool := (0x30 <=? c) && (c <=? 0x39).

Definition digits_value (s : pystr) : Z :=
  fold_left (fun acc c => (10 * acc + Z.of_N (c - 0x30))%Z) s 0%Z.

Fixpoint drop_zeros (m : Z) (e : nat) : Z * nat :=
  match e with
  | O => (m, O)
  | S e' => if (m mod 10 =? 0)%Z then drop_zeros (m / 10)%Z e' else (m, e)
  end.

Definition plain_float (t : pystr) : option (Z * nat) :=
  let '(negative, body) :=
    match t with
    | 0x2D :: r => (true, r)
    | 0x2B :: r => (false, r)
    | _ => (false, t)
    end in
  let '(int_part, rest) := span is_digit body in
  let frac :=
    match rest with
    | [] => Some []
    | 0x2E :: r => let '(frac_part, rest') := span is_digit r in
                   match rest' with [] => Some frac_part | _ :: _ => None end
    | _ :: _ => None
    end in
  match frac with
  | None => None
  | Some frac_part =>
      match int_part ++ frac_part with
      | [] => None
      | ds => let m := digits_value ds in
              Some (drop_zeros (if negative then (- m)%Z else m) (length frac_part))
      end
  end.

(** ** Assignment pages for worked examples *)

Definition th (label : string) : node := Tag "th" [] [] [Text (utf8 label)].
Definition td (value : string) : node := Tag "td" [] [] [Text (utf8 value)].
Definition tr (cells : list node) : node := Tag "tr" [] [] cells.

(** An assignment page: the activity header gives both dates, the status
    table repeats the due date and shows two attempts, the feedback table
    has the grade, and one file is attached twice. *)
Definition assign_page : node :=
  soup_of
    [Tag "div" ["activity-dates"] []
       [Tag "div" [] [] [Tag "strong" [] [] [Text (utf8 "Початок приймання:")];
                         Text (str " 1 March 2024, 00:00")];
        Tag "div" [] [] [Tag "strong" [] [] [Text (utf8 "Термін спливає:")];
                         Text (str " 15 March 2024, 23:59")]];
     Tag "table" ["submissionstatustable"] []
       [tr [th "Спроба номер"; td "This is attempt 1."];
        tr [th "Статус роботи"; td "Submitted for grading"];
        tr [th "Due date"; td "Friday, 15 March 2024, 11:59 PM"];
        tr [th "Спроба номер"; td "This is attempt 2."]];
     anchor "/pluginfile.php/11/assignsubmission_file/submission_files/3/report.pdf" "report.pdf";
     anchor "/pluginfile.php/11/assignsubmission_file/submission_files/3/report.pdf" "report.pdf";
     Tag "table" ["feedbacktable"] []
       [tr [th "Оцінка"; td "7,00 / 10,00"]]].

Definition assign_url : pystr := str "https://moodle.elct.lnu.edu.ua/mod/assign/view.php?id=11".

Definition assign_browser : browser :=
  fun url => if pystr_eqb url assign_url then Ok assign_page
             else Raised (Exception (str "Timeout 30000ms exceeded")).

(** The text of the grade cell of a feedback row, when the row is a grade
    row: it has a [th] and a [td] and the label contains the word for
    grade. *)
Definition grade_cell (row : node) : option pystr :=
  match find "th" row, find "td" row with
  | Some th, Some td =>
      if contains L_GRADE (lower (get_text th)) then Some (get_text td) else None
  | _, _ => None
  end.

(** An assignment graded on a scale without numbers. *)
Definition passed_page : node :=
  soup_of [Tag "table" ["feedbacktable"] [] [tr [th "Оцінка"; td "Passed"]]].

(* ================================================================== *)
(** * Regular expressions                                              *)
(* ================================================================== *)

Module Re.

(** The part of Python's pattern language the scraper uses. *)
Inductive regex : Type :=
| Eps
| Chr (p : N -> bool)      (* one character: a literal or a class *)
| Cat (r1 r2 : regex)
| Star (r : regex)         (* greedy repetition *)
| Group (r : regex).       (* the capturing group, number 1 *)

Definition Plus (r : regex) : regex := Cat r (Star r).

Definition seq (rs : list regex) : regex := foldr Cat Eps rs.

(** A way to match a prefix of the input: what group 1 captured, and the
    input left over. *)
Definition result : Type := option pystr * pystr.

Definition keep (older newer : option pystr) : option pystr :=
  match newer with Some _ => newer | None => older end.

(** The ways [r*] matches, in the order a backtracking matcher tries
    them: one more round first, stopping last.  A round that uses no
    input is not repeated. *)
Fixpoint star_matches (m : pystr -> list result) (fuel : nat) (s : pystr) : list result :=
  match fuel with
  | O => [(None, s)]
  | S fuel' =>
      flat_map (fun '(c, rest) =>
                  if (length rest <? length s)%nat
                  then map (fun '(c', rest') => (keep c c', rest')) (star_matches m fuel' rest)
                  else [])
               (m s)
      ++ [(None, s)]
  end.

(** All the ways [r] matches a prefix of [s], in the order tried. *)
Fixpoint matches (r : regex) (s : pystr) : list result :=
  match r with
  | Eps => [(None, s)]
  | Chr p =>
      match s with
      | c :: s' => if p c then [(None, s')] else []
      | [] => []
      end
  | Cat r1 r2 =>
      flat_map (fun '(c1, rest) =>
                  map (fun '(c2, rest') => (keep c1 c2, rest')) (matches r2 rest))
               (matches r1 s)
  | Star r' => star_matches (matches r') (length s) s
  | Group r' =>
      map (fun '(_, rest) => (Some (take (length s - length rest) s), rest)) (matches r' s)
  end.

(** [re.search(r, s)] followed by [.group(1)]: the first way to match at
    the leftmost position that has one.  [None] is no match. *)
Fixpoint search (r : regex) (s : pystr) : option pystr :=
  match matches r s with
  | (c, _) :: _ => Some (default [] c)
  | [] =>
      match s with
      | [] => None
      | _ :: s' => search r s'
      end
  end.

Definition ascii_lower (c : N) : N :=
  if (0x41 <=? c) && (c <=? 0x5A) then c + 0x20 else c.

(** A literal character [p] of an ASCII pattern under [re.IGNORECASE]:
    either letter case, and the four characters outside ASCII that fold
    to an ASCII letter. *)
Definition ci (p c : N) : bool :=
  (ascii_lower c =? ascii_lower p)
  || ((ascii_lower p =? 0x69) && ((c =? 0x130) || (c =? 0x131)))
  || ((ascii_lower p =? 0x6B) && (c =? 0x212A))
  || ((ascii_lower p =? 0x73) && (c =? 0x17F)).

Definition lit_ci (s : pystr) : regex := foldr (fun p r => Cat (Chr (ci p)) r) Eps s.

(** [s] starts with, or contains, the literal in any letter case. *)
Fixpoint starts_ci (kw s : pystr) : bool :=
  match kw, s with
  | [], _ => true
  | _ :: _, [] => false
  | p :: kw', c :: s' => ci p c && starts_ci kw' s'
  end.

Fixpoint contains_ci (kw s : pystr) : bool :=
  starts_ci kw s ||
  match s with
  | [] => false
  | _ :: s' => contains_ci kw s'
  end.

End Re.

Import Re.

(* ================================================================== *)
(** * Names from the response header                                   *)
(* ================================================================== *)

Definition QUOTE : N := 0x22.
Definition SEMICOLON : N := 0x3B.

(** The three patterns, all compiled with [re.IGNORECASE]:
    the extended form [filename\*\s*=\s*UTF-8''([^;]+)], the quoted form
    (the word, the equals sign between optional whitespace, and one or more
    characters other than a double quote between double quotes), and the
    plain form [filename\s*=\s*([^;]+)]. *)
Definition RE_EXTENDED : regex :=
  seq [lit_ci (str "filename*"); Star (Chr isspace); Chr (N.eqb 0x3D); Star (Chr isspace);
       lit_ci (str "UTF-8''"); Group (Plus (Chr (fun c => negb (c =? SEMICOLON))))].

Definition RE_QUOTED : regex :=
  seq [lit_ci (str "filename"); Star (Chr isspace); Chr (N.eqb 0x3D); Star (Chr isspace);
       Chr (N.eqb QUOTE); Group (Plus (Chr (fun c => negb (c =? QUOTE)))); Chr (N.eqb QUOTE)].

Definition RE_PLAIN : regex :=
  seq [lit_ci (str "filename"); Star (Chr isspace); Chr (N.eqb 0x3D); Star (Chr isspace);
       Group (Plus (Chr (fun c => negb (c =? SEMICOLON))))].

(** The four characters that betray UTF-8 read as Latin-1. *)
Definition ARTIFACTS : list N := [0xD0; 0xD1; 0xE2; 0x20AC].

Definition fix_encoding (filename : pystr) : pystr :=
  if negb (truthy filename) then filename
  else if existsb (fun ch => bool_decide (ch ∈ filename)) ARTIFACTS
  then match latin1_encode filename with
       | None => filename
       | Some raw =>
           match utf8_decode_strict raw with
           | Some fixed => fixed
           | None => filename
           end
       end
  else filename.

(** [fname.split("/")[-1].split("\\")[-1]]. *)
Definition strip_path (fname : pystr) : pystr :=
  last_part (split 0x5C (last_part (split 0x2F fname))).

(** The name as the header gives it, before the path is removed: the
    extended form first, then the quoted form, then the plain form. *)
Definition header_name (cd : pystr) : option pystr :=
  match search RE_EXTENDED cd with
  | Some g => Some (unquote g)
  | None =>
      match (match search RE_QUOTED cd with
             | Some g => Some g
             | None => search RE_PLAIN cd
             end) with
      | None => None
      | Some g => Some (strip_chars [QUOTE] (strip g))
      end
  end.

Definition filename_from_content_disposition (cd : option pystr) : option pystr :=
  match cd with
  | None => None
  | Some cd =>
      if negb (truthy cd) then None
      else
        match header_name (strip cd) with
        | None => None
        | Some fname =>
            let fname := fix_encoding (strip_path fname) in
            if truthy fname then Some fname else None
        end
  end.

(** The name [download_file] saves under, before it is made unique in the
    directory: [cd_name or default_name or "file"], repaired and
    sanitised. *)
Definition download_filename (cd : option pystr) (default_name : pystr) : pystr :=
  let fallback := if truthy default_name then default_name else str "file" in
  let filename :=
    match filename_from_content_disposition cd with
    | Some cd_name => if truthy cd_name then cd_name else fallback
    | None => fallback
    end in
  safe_name (fix_encoding filename) default_max_len.

(** Headers for worked examples. *)
Definition CD_EXTENDED : pystr := str "attachment; filename*=UTF-8''lecture%201.pdf".
Definition CD_QUOTED : pystr := str "attachment; filename=" ++ [QUOTE] ++ str "report.docx" ++ [QUOTE].
Definition CD_PLAIN_PATH : pystr := str "attachment; FileName = dir/sub\plain name.txt ; size=3".
Definition CD_QUOTED_THEN_EXTENDED : pystr :=
  str "attachment; filename=" ++ [QUOTE] ++ str "plain.pdf" ++ [QUOTE]
  ++ str "; filename*=utf-8''ext%20name.pdf".
Definition CD_PLAIN_THEN_QUOTED : pystr :=
  str "attachment; filename=a.txt; filename=" ++ [QUOTE] ++ str "b.txt" ++ [QUOTE].

Definition CD_OTHER_CHARSET : pystr := str "attachment; filename*=ISO-8859-1''report.pdf".

(* ================================================================== *)
(** * Further definitions                                              *)
(* ================================================================== *)

(** A URL that can be fetched as it stands: not empty and not
    host-relative. *)
Definition usable_url (u : pystr) : Prop := u <> [] /\ startswith (str "/") u = false.

(** ** UTF-8 bytes read as Latin-1 *)

(** A Unicode scalar value: a code point that is not a surrogate. *)
Definition is_scalar (c : N) : bool :=
  (c <? 0xD800) || ((0xE000 <=? c) && (c <? 0x110000)).

(** The UTF-8 bytes of one scalar value. *)
Definition utf8_encode1 (c : N) : list N :=
  if c <? 0x80 then [c]
  else if c <? 0x800 then [0xC0 + c / 0x40; 0x80 + c mod 0x40]
  else if c <? 0x10000
  then [0xE0 + c / 0x1000; 0x80 + (c / 0x40) mod 0x40; 0x80 + c mod 0x40]
  else [0xF0 + c / 0x40000; 0x80 + (c / 0x1000) mod 0x40;
        0x80 + (c / 0x40) mod 0x40; 0x80 + c mod 0x40].

(** [s.encode("utf-8").decode("latin1")]: the text a reader gets who takes
    the UTF-8 bytes of [s] for Latin-1, one character per byte. *)
Definition misread (s : pystr) : pystr := flat_map utf8_encode1 s.

(** The characters whose UTF-8 bytes hold one of the bytes that
    [fix_encoding] looks for: U+0400 to U+047F (lead byte D0 or D1) and
    U+2000 to U+2FFF (lead byte E2). *)
Definition betrays (c : N) : bool :=
  ((0x400 <=? c) && (c <? 0x480)) || ((0x2000 <=? c) && (c <? 0x3000)).

(** ** Paths

    [pathlib.Path] in its POSIX flavour: a root (empty, one slash or two)
    and the segments below it.  Empty segments and single dots are dropped
    when a string is parsed; a double dot is kept. *)

Module PathLib.

Record path : Type := Path { root : pystr; segments : list pystr }.

#[global] Instance path_eq_dec : EqDecision path.
Proof. solve_decision. Defined.

Definition SLASH : N := 0x2F.
Definition DOT : N := 0x2E.

(** Exactly two leading slashes are a root of their own. *)
Definition splitroot (s : pystr) : pystr :=
  if startswith (str "///") s then str "/"
  else if startswith (str "//") s then str "//"
  else if startswith (str "/") s then str "/"
  else [].

Definition is_segment (x : pystr) : bool := truthy x && negb (pystr_eqb x [DOT]).

(** [Path(s)]. *)
Definition parse (s : pystr) : path :=
  Path (splitroot s) (filter (fun x => is_segment x = true) (split SLASH s)).

(** [p / s]: a string with a root replaces the path. *)
Definition joinpath (p : path) (s : pystr) : path :=
  let q := parse s in
  if truthy (root q) then q else Path (root p) (segments p ++ segments q).

(** [p.name]: the last segment, empty for a path without segments. *)
Definition name (p : path) : pystr := last_part (segments p).

(** [s.rfind(c)]. *)
Fixpoint rfind (c : N) (s : pystr) : option nat :=
  match s with
  | [] => None
  | x :: t =>
      match rfind c t with
      | Some i => Some (S i)
      | None => if x =? c then Some 0%nat else None
      end
  end.

(** Where the suffix starts: the last dot, unless it opens or closes the
    name. *)
Definition suffix_index (n : pystr) : option nat :=
  match rfind DOT n with
  | Some i => if (0 <? i)%nat && (i <? length n - 1)%nat then Some i else None
  | None => None
  end.

(** [p.suffix] and [p.stem]. *)
Definition suffix (p : path) : pystr :=
  match suffix_index (name p) with
  | Some i => drop i (name p)
  | None => []
  end.

Definition stem (p : path) : pystr :=
  match suffix_index (name p) with
  | Some i => take i (name p)
  | None => name p
  end.

(** [p.parent]: a path without segments is its own parent. *)
Definition parent (p : path) : path :=
  match segments p with
  | [] => p
  | _ :: _ => Path (root p) (removelast (segments p))
  end.

(** [str(p)]. *)
Definition path_str (p : path) : pystr :=
  match root p, segments p with
  | [], [] => [DOT]
  | r, segs => r ++ join [SLASH] segs
  end.

(** What parsing and joining keep true: the root is one of the three, and
    no segment is empty, a single dot, or holds a slash. *)
Definition wf (p : path) : Prop :=
  root p ∈ [[]; str "/"; str "//"]
  /\ Forall (fun x => x <> [] /\ x <> [DOT] /\ SLASH ∉ x) (segments p).

End PathLib.

Import PathLib.

(** ** Numbers in names *)

Fixpoint uint_digits (u : Decimal.uint) : pystr :=
  match u with
  | Decimal.Nil => []
  | Decimal.D0 u => 0x30 :: uint_digits u
  | Decimal.D1 u => 0x31 :: uint_digits u
  | Decimal.D2 u => 0x32 :: uint_digits u
  | Decimal.D3 u => 0x33 :: uint_digits u
  | Decimal.D4 u => 0x34 :: uint_digits u
  | Decimal.D5 u => 0x35 :: uint_digits u
  | Decimal.D6 u => 0x36 :: uint_digits u
  | Decimal.D7 u => 0x37 :: uint_digits u
  | Decimal.D8 u => 0x38 :: uint_digits u
  | Decimal.D9 u => 0x39 :: uint_digits u
  end.

(** [str(i)] for an [int]. *)
Definition str_int (i : Z) : pystr :=
  if (i <? 0)%Z then 0x2D :: uint_digits (N.to_uint (Z.to_N (- i)))
  else uint_digits (N.to_uint (Z.to_N i)).

(** [f"{i:02d}"]: zero-padded to two characters, the sign counted. *)
Definition format_02d (i : Z) : pystr :=
  let s := str_int i in
  if (length s <? 2)%nat then 0x30 :: s else s.

(** ** Unique paths *)

Section MakeUniquePath.

(** [path.exists()] while the function runs. *)
Variable exists_ : path -> bool.

(** [parent / f"{stem}_{i}{suffix}"]. *)
Definition candidate_name (p : path) (i : Z) : pystr :=
  stem p ++ str "_" ++ str_int i ++ suffix p.

Definition candidate (p : path) (i : Z) : path :=
  joinpath (parent p) (candidate_name p i).

(** The [while True] loop from [i] on; [None] when the fuel runs out. *)
Fixpoint unique_loop (fuel : nat) (p : path) (i : Z) : option path :=
  match fuel with
  | O => None
  | S fuel' =>
      if exists_ (candidate p i) then unique_loop fuel' p (i + 1)%Z
      else Some (candidate p i)
  end.

Definition make_unique_path (fuel : nat) (p : path) : option path :=
  if negb (exists_ p) then Some p else unique_loop fuel p 2.

End MakeUniquePath.

(** ** Downloading *)

Definition DOWNLOAD_ROOT : path := parse (str "moodle_downloads").

(** How the loop over [r.iter_content] ends: every chunk is read and
    written, or reading or writing raises, or the body has no end and the
    loop runs for ever. *)
Inductive body_end : Type := Whole | Broken | Endless.

(** What [session.get] answers: whether [raise_for_status] passes, the
    [Content-Disposition] header, and how the body goes. *)
Record response : Type :=
  Response { status_ok : bool; content_disposition : option pystr; body : body_end }.

(** The body arrives whole. *)
Definition body_ok (r : response) : bool :=
  match body r with Whole => true | Broken | Endless => false end.

Definition session : Type := pystr -> outcome response.

(** Every body the server sends comes to an end. *)
Definition bodies_end (get : session) : Prop :=
  forall url r, get url = Ok r -> body r <> Endless.

(** [f"{index:02d}_{safe_name(name or f'<kind> {index}')}"]. *)
Definition dir_name (kind : pystr) (index : Z) (name : pystr) : pystr :=
  format_02d index ++ str "_"
  ++ safe_name (if truthy name then name else kind ++ str " " ++ str_int index)
               default_max_len.

(** The directory [download_files_for_activity] saves into. *)
Definition dest_dir_of (course_title : pystr) (section_index : Z) (section_name : pystr)
    (activity_index : Z) (activity_name : pystr) : path :=
  let course_dir := joinpath DOWNLOAD_ROOT (safe_name course_title default_max_len) in
  let section_dir_name := dir_name (str "Section") section_index section_name in
  let activity_dir_name := dir_name (str "Activity") activity_index activity_name in
  joinpath (joinpath course_dir section_dir_name) activity_dir_name.

Section Download.

(** The file system, as far as the code looks at it: which paths exist,
    [mkdir(parents=True, exist_ok=True)] and [open(path, "wb")], either of
    which may raise. *)
Context {FS : Type}.
Variable exists_ : FS -> path -> bool.
Variable mkdir : FS -> path -> outcome FS.
Variable open_wb : FS -> path -> outcome FS.

(** What the code relies on: an operation that succeeds leaves its path in
    existence and removes nothing. *)
Definition keeps (fs fs' : FS) : Prop :=
  forall q, exists_ fs q = true -> exists_ fs' q = true.

Definition creates (op : FS -> path -> outcome FS) : Prop :=
  forall fs p fs', op fs p = Ok fs' -> exists_ fs' p = true /\ keeps fs fs'.

(** A directory holds finitely many names. *)
Definition finite_directories : Prop :=
  forall fs d, exists names : list pystr,
    forall s, SLASH ∉ s -> exists_ fs (joinpath d s) = true -> s ∈ names.

(** [urlparse(file_url).path]; [urlparse] raises on a malformed host. *)
Variable url_path : pystr -> outcome pystr.

Definition extract_filename_from_url (file_url : pystr) : outcome pystr :=
  match url_path file_url with
  | Raised e => Raised e
  | Ok p =>
      let name := name (parse (unquote p)) in
      Ok (if truthy name then name else str "file")
  end.

(** [download_file]: the saved path or [None], and the file system it
    leaves.  The directory is made outside the [try]; everything after it is
    inside.  The result is [None] when the function does not return: the
    fuel of [make_unique_path] runs out, or the loop over the chunks of the
    body has no end. *)
Definition download_file (fuel : nat) (fs : FS) (get : session) (file_url : pystr)
    (dest_dir : path) (default_name : pystr) : option (outcome (option path * FS)) :=
  match mkdir fs dest_dir with
  | Raised e => Some (Raised e)
  | Ok fs =>
      match get file_url with
      | Raised _ => Some (Ok (None, fs))
      | Ok r =>
          if negb (status_ok r) then Some (Ok (None, fs))
          else
            let filename := download_filename (content_disposition r) default_name in
            match make_unique_path (exists_ fs) fuel (joinpath dest_dir filename) with
            | None => None
            | Some dest_path =>
                match open_wb fs dest_path with
                | Raised _ => Some (Ok (None, fs))
                | Ok fs =>
                    match body r with
                    | Whole => Some (Ok (Some dest_path, fs))
                    | Broken => Some (Ok (None, fs))
                    | Endless => None
                    end
                end
            end
      end
  end.

(** The loop of [download_files_for_activity]. *)
Fixpoint download_loop (fuel : nat) (fs : FS) (get : session) (file_urls : list pystr)
    (dest_dir : path) (downloaded_paths : list pystr)
    : option (outcome (list pystr * FS)) :=
  match file_urls with
  | [] => Some (Ok (downloaded_paths, fs))
  | file_url :: rest =>
      match extract_filename_from_url file_url with
      | Raised e => Some (Raised e)
      | Ok default_name =>
          match download_file fuel fs get file_url dest_dir default_name with
          | None => None
          | Some (Raised e) => Some (Raised e)
          | Some (Ok (saved_path, fs)) =>
              download_loop fuel fs get rest dest_dir
                (match saved_path with
                 | Some p => downloaded_paths ++ [path_str p]
                 | None => downloaded_paths
                 end)
          end
      end
  end.

Definition download_files_for_activity (fuel : nat) (fs : FS) (get : session)
    (file_urls : list pystr) (course_title : pystr)
    (section_index : Z) (section_name : pystr)
    (activity_index : Z) (activity_name : pystr)
    : option (outcome (list pystr * FS)) :=
  download_loop fuel fs get file_urls
    (dest_dir_of course_title section_index section_name activity_index activity_name) [].

End Download.

(** ** A file system for worked examples: the list of the paths that
    exist; both operations succeed. *)

Definition listed (fs : list path) (p : path) : bool := bool_decide (p ∈ fs).

Definition add_path (fs : list path) (p : path) : outcome (list path) := Ok (p :: fs).

(** A server that answers every request with the same header. *)
Definition serve (cd : option pystr) : session := fun _ => Ok (Response true cd Whole).

Definition path_of_url (url : pystr) : outcome pystr :=
  Ok (str "/pluginfile.php/7/mod_resource/content/1/notes.pdf").

(** ** The shape of the assignment record *)

(** The kind of value a field may hold: the list under [files], a number
    under the two grade numbers, a text under the other fields, and [None]
    anywhere but under [files]. *)
Definition field_ok {F : Type} (key : string) (v : pyval F) : Prop :=
  match v with
  | VNone => key <> "files"%string
  | VStr _ => key ∈ DATE_FIELDS ++ STATUS_FIELDS ++ ["grade_text"%string]
  | VList _ => key = "files"%string
  | VFloat _ => key ∈ ["grade_raw"%string; "grade_max"%string]
  end.

(** The keys are the twelve fields, each with a value of its kind. *)
Definition record_shape {F : Type} (meta : gmap string (pyval F)) : Prop :=
  (forall k, k ∈ META_FIELDS <-> is_Some (meta !! k))
  /\ (forall k v, meta !! k = Some v -> field_ok k v).

(** ** The dashboard *)

(** The heading of the block of courses, as the source spells it. *)
Definition L_MY_COURSES : pystr := Eval vm_compute in utf8 "мої курси".

(** [n.get_text(strip=True)]: the stripped, non-empty text nodes, joined
    without a separator. *)
Definition get_text_strip (n : node) : pystr :=
  concat (filter (fun s => truthy s = true) (map strip (strings n))).

(** [h.find_parent(name)] on the ancestors of [h], nearest first: the
    nearest ancestor of that name, with its own ancestors. *)
Fixpoint find_parent (name : string) (anc : list node) : option (list node * node) :=
  match anc with
  | [] => None
  | x :: rest => if is_tag [name] x then Some (rest, x) else find_parent name rest
  end.

(** [soup.find_all(["h2", "h3"])], each heading with its ancestors. *)
Definition headings (soup : node) : list (list node * node) :=
  filter (fun '(_, d) => is_tag ["h2"; "h3"]%string d = true) (walk [] soup).

Definition is_courses_heading (h : node) : bool :=
  contains L_MY_COURSES (lower (get_text_strip h)).

(** The loop over the headings: the first heading with the phrase decides,
    whether it has a [section] above it or not. *)
Definition target_section (soup : node) : option (list node * node) :=
  match List.find (fun '(_, h) => is_courses_heading h) (headings soup) with
  | Some (anc, _) => find_parent "section" anc
  | None => None
  end.

(** An [li] among the ancestors with a [ul.unlist] further up. *)
Fixpoint in_unlist_item (anc : list node) : bool :=
  match anc with
  | [] => false
  | x :: rest =>
      (is_tag ["li"%string] x
       && existsb (fun u => is_tag ["ul"%string] u && has_class "unlist" u) rest)
      || in_unlist_item rest
  end.

(** [n.select("ul.unlist li a")] for a node [n] with ancestors [anc]: the
    anchors below [n]; the [li] and the [ul] may lie anywhere above the
    anchor. *)
Definition select_course_links (anc : list node) (n : node) : list node :=
  omap (fun '(anc, d) => if is_tag ["a"%string] d && in_unlist_item anc then Some d else None)
       (walk anc n).

Record course : Type := Course { title : pystr; url : pystr }.

(** The body of the loop over the links: a link without a target is
    skipped. *)
Definition course_of_link (a : node) : option course :=
  match get "href" a with
  | Some url => if truthy url then Some (Course (get_text_strip a) (absolutize url)) else None
  | None => None
  end.

(** [parse_dashboard_courses] from the parsed page on. *)
Definition parse_dashboard_courses (soup : node) : list course :=
  match target_section soup with
  | None => []
  | Some (anc, section) => omap course_of_link (select_course_links anc section)
  end.

(** A dashboard for worked examples: a first heading with the phrase and
    no [section] above it would hide the block below. *)
Definition dashboard_page : node :=
  soup_of
    [Tag "section" ["block_myoverview"] []
       [Tag "h2" [] [] [Text (utf8 " Мої курси ")];
        Tag "ul" ["unlist"] []
          [Tag "li" [] []
             [Tag "a" [] [("href"%string, str "/course/view.php?id=5")] [Text (str "Algebra")]];
           Tag "li" [] [] [Tag "a" [] [] [Text (str "No target")]]]]].

(** ** Folders nested in folders *)

(** A folder tree that is one chain: an item with no child for [0], and for
    [S n] an item whose [.ygtvchildren] block holds the chain for [n]. *)
Fixpoint folder_chain (n : nat) : node :=
  match n with
  | O => div "leaf" ["ygtvitem"] []
  | S n' => div "item" ["ygtvitem"] [div "children" ["ygtvchildren"] [folder_chain n']]
  end.

(** The items of a tree: the nodes that carry [ygtvitem]. *)
Definition items_of (n : node) : list node :=
  filter (fun d => has_class "ygtvitem" d = true) (n :: descendants n).

(** ** The course page *)

(** [s.replace(old, new)] for a non-empty [old]: every occurrence, from the
    left, without overlap.  [skip] counts the characters of an occurrence
    that are still to be passed over. *)
Fixpoint replace_from (old new : pystr) (skip : nat) (s : pystr) : pystr :=
  match s with
  | [] => []
  | c :: s' =>
      match skip with
      | S k => replace_from old new k s'
      | O =>
          if startswith old s then new ++ replace_from old new (length old - 1) s'
          else c :: replace_from old new 0 s'
      end
  end.

Definition replace (old new s : pystr) : pystr := replace_from old new 0 s.

Definition MODTYPE : pystr := str "modtype_".

Definition L_WEBINARS : pystr := Eval vm_compute in utf8 "вебінари".

(** [tag.get("class", [])]. *)
Definition classes_of (n : node) : list string :=
  match n with Text _ => [] | Tag _ classes _ _ => classes end.

(** [soup.select("li.section.main")] and [soup.select("li.section")]. *)
Definition select_sections (soup : node) : list node :=
  match filter (fun d => is_tag ["li"%string] d && has_class "section" d && has_class "main" d = true)
               (descendants soup) with
  | [] => filter (fun d => is_tag ["li"%string] d && has_class "section" d = true) (descendants soup)
  | sections => sections
  end.

(** [sec.select_one(".sectionname, h3.sectionname, h3")]: the first node that
    carries the class or is an [h3]. *)
Definition section_name_of (sec : node) : pystr :=
  match head (filter (fun d => has_class "sectionname" d || is_tag ["h3"%string] d = true)
                     (descendants sec)) with
  | Some name_el => get_text_strip name_el
  | None => []
  end.

Definition is_webinars_section (sec : node) : bool :=
  let section_data_name := strip (default [] (get "data-sectionname" sec)) in
  pystr_eqb (lower (section_name_of sec)) L_WEBINARS
  || pystr_eqb (lower section_data_name) L_WEBINARS.

(** [sec.select("li.activity, li[class*=modtype_]")]: the attribute test is a
    substring test on the classes joined by spaces, so on each class. *)
Definition select_activities (sec : node) : list node :=
  filter (fun d => is_tag ["li"%string] d
                   && (has_class "activity" d
                       || existsb (fun cls => contains MODTYPE (utf8 cls)) (classes_of d)) = true)
         (descendants sec).

(** [link.get("href") or ""], made absolute. *)
Definition activity_url (link : node) : pystr :=
  absolutize (default [] (get "href" link)).

(** The three sources of the name, in order: [.instancename], the
    [data-activityname] of [.activity-item], the text of the first link. *)
Definition activity_name (act link : node) : pystr :=
  match select_one_class "instancename" act with
  | Some name_el => get_text_strip name_el
  | None =>
      let act_name :=
        match select_one_class "activity-item" act with
        | Some activity_item =>
            match get "data-activityname" activity_item with
            | Some v => strip v
            | None => []
            end
        | None => []
        end in
      if truthy act_name then act_name else get_text_strip link
  end.

(** The first class that starts with [modtype_], with every [modtype_]
    taken out of it. *)
Definition activity_type (act : node) : pystr :=
  match List.find (fun cls => startswith MODTYPE (utf8 cls)) (classes_of act) with
  | Some cls => replace MODTYPE [] (utf8 cls)
  | None => []
  end.

Definition platform_of (act_type : pystr) : option pystr :=
  if pystr_eqb act_type (str "bigbluebuttonbn") then Some (str "bigbluebutton")
  else if pystr_eqb act_type (str "googlemeet") then Some (str "google_meet")
  else None.

(** [for i, x in enumerate(xs, start=i)] over a state: the body may raise,
    which ends the loop, or run out of fuel. *)
Fixpoint enumerate_loop {A S : Type} (body : Z -> A -> S -> option (outcome S))
    (i : Z) (xs : list A) (s : S) : option (outcome S) :=
  match xs with
  | [] => Some (Ok s)
  | x :: rest =>
      match body i x s with
      | Some (Ok s') => enumerate_loop body (i + 1) rest s'
      | stopped => stopped
      end
  end.

(** Strings of paths that are new: pairwise different paths that did not
    exist in [fs0] and exist in [fs]. *)
Definition fresh_paths {FS : Type} (exists_ : FS -> path -> bool) (fs0 fs : FS)
    (strs : list pystr) : Prop :=
  exists saved : list path,
    strs = map path_str saved /\ NoDup saved
    /\ Forall (fun p => wf p /\ exists_ fs0 p = false /\ exists_ fs p = true) saved.

Record webinar : Type :=
  Webinar { w_name : pystr; w_platform : pystr; w_moodle_url : pystr;
            w_section_name : pystr; w_section_index : Z }.

Section CoursePage.

Context {F FS : Type}.
Variable pyfloat : pystr -> option F.
Variable exists_ : FS -> path -> bool.
Variables mkdir open_wb : FS -> path -> outcome FS.
Variable url_path : pystr -> outcome pystr.

(** [BeautifulSoup(str(act), "html.parser")]: the activity written out and
    parsed again. *)
Variable reparse : node -> node.

(** [activity_obj]: the keys [meta], [files] and [downloaded_files] are
    present or not. *)
Record activity_obj : Type :=
  ActivityObj { a_name : pystr; a_type : pystr; a_url : pystr;
                a_meta : option (gmap string (pyval F));
                a_files : option (list pystr);
                a_downloaded : option (list pystr) }.

Record section_obj : Type :=
  SectionObj { s_name : pystr; s_activities : list activity_obj }.

Record course_data : Type :=
  CourseData { c_title : pystr; c_url : pystr;
               c_sections : list section_obj; c_webinars : list webinar }.

(** What the type of the activity asks for: the [meta] record, the [files]
    list, and the URLs to download. *)
Definition planned (page : browser) (act : node) (act_type act_url : pystr)
  : outcome (option (gmap string (pyval F)) * option (list pystr) * list pystr) :=
  if pystr_eqb act_type (str "assign") then
    match parse_assign_page pyfloat page act_url with
    | Raised e => Raised e
    | Ok meta => Ok (Some meta, None, files_to_download meta)
    end
  else if pystr_eqb act_type (str "resource") || pystr_eqb act_type (str "folder") then
    let file_urls :=
      if pystr_eqb act_type (str "folder") then
        match default [] (parse_folder_tree (reparse act)) with
        | [] => fst (collect_activity_files page act_url)
        | inline_urls => inline_urls
        end
      else fst (collect_activity_files page act_url) in
    Ok (None, Some file_urls, file_urls)
  else Ok (None, None, []).

(** The state of the loop over the activities of a section: the objects
    so far, the webinars so far, and the file system. *)
Definition activities_state : Type := list activity_obj * list webinar * FS.

(** The body of the loop over the activities. *)
Definition activity_step (fuel : nat) (sess : session) (page : browser)
    (course_title section_name : pystr) (is_webinars : bool) (sec_index : Z)
    (act_index : Z) (act : node) (st : activities_state)
  : option (outcome activities_state) :=
  let '(objs, webinars, fs) := st in
  match find "a" act with
  | None => Some (Ok st)
  | Some link =>
      let act_url := activity_url link in
      let act_name := activity_name act link in
      let act_type := activity_type act in
      let webinars :=
        match platform_of act_type with
        | Some platform =>
            if is_webinars
            then webinars ++ [Webinar act_name platform act_url section_name sec_index]
            else webinars
        | None => webinars
        end in
      match planned page act act_type act_url with
      | Raised e => Some (Raised e)
      | Ok (meta, files, urls_to_download) =>
          match urls_to_download with
          | [] =>
              Some (Ok (objs ++ [ActivityObj act_name act_type act_url meta files None],
                        webinars, fs))
          | _ :: _ =>
              match download_files_for_activity exists_ mkdir open_wb url_path fuel fs sess
                      urls_to_download course_title sec_index section_name act_index act_name
              with
              | None => None
              | Some (Raised e) => Some (Raised e)
              | Some (Ok (downloaded_paths, fs)) =>
                  Some (Ok (objs ++ [ActivityObj act_name act_type act_url meta files
                                       (Some downloaded_paths)],
                            webinars, fs))
              end
          end
      end
  end.

Definition sections_state : Type := list section_obj * list webinar * FS.

(** The body of the loop over the sections: a section without a name and
    without activities is left out. *)
Definition section_step (fuel : nat) (sess : session) (page : browser)
    (course_title : pystr) (sec_index : Z) (sec : node) (st : sections_state)
  : option (outcome sections_state) :=
  let '(sections, webinars, fs) := st in
  let section_name := section_name_of sec in
  match enumerate_loop
          (activity_step fuel sess page course_title section_name
             (is_webinars_section sec) sec_index)
          1 (select_activities sec) ([], webinars, fs) with
  | None => None
  | Some (Raised e) => Some (Raised e)
  | Some (Ok (activities, webinars, fs)) =>
      Some (Ok (if truthy section_name || negb (bool_decide (activities = []))
                then sections ++ [SectionObj section_name activities]
                else sections,
                webinars, fs))
  end.

(** [parse_course_page] from the parsed page on. *)
Definition parse_course_page (fuel : nat) (fs : FS) (sess : session) (page : browser)
    (soup : node) (url : pystr) : option (outcome (course_data * FS)) :=
  let course_title :=
    match find "h1" soup with
    | Some title_tag => get_text_strip title_tag
    | None => url
    end in
  match enumerate_loop (section_step fuel sess page course_title) 1
          (select_sections soup) ([], [], fs) with
  | None => None
  | Some (Raised e) => Some (Raised e)
  | Some (Ok (sections, webinars, fs)) =>
      Some (Ok (CourseData course_title url sections webinars, fs))
  end.

(** Every path of every [downloaded_files] list of the result, in order. *)
Definition downloaded_of_activities (objs : list activity_obj) : list pystr :=
  flat_map (fun a => default [] (a_downloaded a)) objs.

Definition downloaded_of (data : course_data) : list pystr :=
  flat_map (fun s => downloaded_of_activities (s_activities s)) (c_sections data).

(** The URLs an activity object asks to download, read off its keys. *)
Definition urls_of (a : activity_obj) : list pystr :=
  match a_meta a, a_files a with
  | Some meta, _ => files_to_download meta
  | None, Some file_urls => file_urls
  | None, None => []
  end.

(** The keys of an activity object agree with its type. *)
Definition activity_keys_ok (a : activity_obj) : Prop :=
  (is_Some (a_meta a) <-> a_type a = str "assign")
  /\ (is_Some (a_files a) <-> (a_type a = str "resource" \/ a_type a = str "folder"))
  /\ (is_Some (a_downloaded a) <-> urls_of a <> [])
  /\ (forall meta, a_meta a = Some meta -> meta = ∅ \/ record_shape meta)
  /\ (forall paths, a_downloaded a = Some paths -> (length paths <= length (urls_of a))%nat).

End CoursePage.

(** A course page for worked examples: one section with two resources
    whose links point at files, and a forum. *)
Definition course_page : node :=
  soup_of
    [Tag "h1" [] [] [Text (str "Algebra")];
     Tag "ul" [] []
       [Tag "li" ["section"; "main"] []
          [Tag "h3" ["sectionname"] [] [Text (str "Week 1")];
           Tag "ul" [] []
             [Tag "li" ["activity"; "modtype_resource"] []
                [Tag "a" [] [("href"%string, str "/pluginfile.php/7/mod_resource/content/1/a.pdf")]
                   [Tag "span" ["instancename"] [] [Text (str "Notes")]]];
              Tag "li" ["activity"; "modtype_forum"] []
                [Tag "a" [] [("href"%string, str "/mod/forum/view.php?id=3")]
                   [Tag "span" ["instancename"] [] [Text (str "News")]]];
              Tag "li" ["activity"; "modtype_resource"] []
                [Tag "a" [] [("href"%string, str "/pluginfile.php/7/mod_resource/content/1/b.pdf")]
                   [Tag "span" ["instancename"] [] [Text (str "Notes")]]]]]]].

(** A browser that reaches no page. *)
Definition offline : browser := fun _ => Raised (Exception (str "timeout")).

(** ** Words in a header *)

(** [word] is the literal [kw] in some letter case, as [re.IGNORECASE]
    reads it. *)
Definition spelled (kw word : pystr) : Prop :=
  length word = length kw /\ starts_ci kw word = true.

(** ** Names as path segments *)

(** A name that stands for one entry of a directory: not empty, without a
    slash, and neither of the two dot names. *)
Definition single_segment (s : pystr) : Prop :=
  s <> [] /\ (PathLib.SLASH ∉ s) /\ s <> [PathLib.DOT] /\ s <> [PathLib.DOT; PathLib.DOT].

(* ================================================================== *)
(** * Properties                                                       *)
(* ================================================================== *)

(** ** Strings *)

Section StripFacts.
Variable p : N -> bool.

Lemma rstrip_by_prefix (s : pystr) : rstrip_by p s `prefix_of` s.
Proof.
  induction s as [|c s IH]; simpl; [done|].
  destruct (rstrip_by p s) as [|r rs] eqn:E.
  - destruct (p c); [apply prefix_nil | apply prefix_cons, prefix_nil].
  - by apply prefix_cons.
Qed.

Lemma rstrip_by_nil (s : pystr) : rstrip_by p s = [] -> Forall (fun c => p c = true) s.
Proof.
  induction s as [|c s IH]; simpl; [constructor|].
  destruct (rstrip_by p s) as [|r rs] eqn:E; [|discriminate].
  destruct (p c) eqn:Ec; [|discriminate].
  intros _. constructor; auto.
Qed.

Lemma lstrip_by_suffix (s : pystr) : lstrip_by p s `suffix_of` s.
Proof.
  induction s as [|c s IH]; simpl; [done|].
  destruct (p c); [by apply suffix_cons_r | done].
Qed.

Lemma lstrip_by_head (s : pystr) c r : lstrip_by p s = c :: r -> p c = false.
Proof.
  induction s as [|a s IH]; simpl; [discriminate|].
  destruct (p a) eqn:Ea; [done|]. intros [= -> _]. done.
Qed.

Lemma strip_by_sublist (s : pystr) : strip_by p s `sublist_of` s.
Proof.
  unfold strip_by. transitivity (lstrip_by p s).
  - destruct (rstrip_by_prefix (lstrip_by p s)) as [k Hk].
    set (x := rstrip_by p (lstrip_by p s)) in *. rewrite Hk.
    by apply sublist_inserts_r.
  - destruct (lstrip_by_suffix s) as [k Hk].
    set (x := lstrip_by p s) in *. rewrite Hk.
    by apply sublist_inserts_l.
Qed.
End StripFacts.

Lemma ws_collapsed_take (n : nat) (s : pystr) :
  ws_collapsed s = true -> ws_collapsed (take n s) = true.
Proof.
  revert n. induction s as [|c1 s IH]; intros n H; destruct n; simpl; try done.
  destruct s as [|c2 s]; [by destruct n|].
  simpl in H. apply andb_true_iff in H as [H1 H2].
  destruct n; [done|]. specialize (IH (S n) H2). simpl in IH.
  change (negb (isspace c1 && isspace c2) && ws_collapsed (c2 :: take n s) = true).
  rewrite H1. exact IH.
Qed.

Lemma ws_collapsed_prefix (s t : pystr) :
  s `prefix_of` t -> ws_collapsed t = true -> ws_collapsed s = true.
Proof.
  intros [k ->] H. replace s with (take (length s) (s ++ k)).
  - by apply ws_collapsed_take.
  - by rewrite take_app_length.
Qed.

Lemma re_sub_ws_runs_spec (b : bool) (s : pystr) :
  ws_collapsed (re_sub_ws_runs b s) = true
  /\ (b = true -> match re_sub_ws_runs b s with c :: _ => isspace c = false | [] => True end)
  /\ Forall (fun c => c = SPACE \/ (c ∈ s /\ isspace c = false)) (re_sub_ws_runs b s).
Proof.
  revert b. induction s as [|c s IH]; intros b; simpl.
  - repeat split; done || constructor.
  - destruct (isspace c) eqn:Ec.
    + destruct (IH true) as (W & Hd & Fa).
      assert (Fa' : Forall (fun c0 => c0 = SPACE \/ (c0 ∈ c :: s /\ isspace c0 = false))
                      (re_sub_ws_runs true s)).
      { eapply Forall_impl; [exact Fa|]. intros x [->|[? ?]]; [by left|right; split; [by right|done]]. }
      destruct b.
      * repeat split; auto.
      * repeat split; [| done | constructor; [by left | done]].
        destruct (re_sub_ws_runs true s) as [|c2 r] eqn:E; [done|].
        change (negb (isspace SPACE && isspace c2) && ws_collapsed (c2 :: r) = true).
        rewrite (Hd eq_refl), W. reflexivity.
    + destruct (IH false) as (W & _ & Fa).
      repeat split.
      * destruct (re_sub_ws_runs false s) as [|c2 r] eqn:E; [done|].
        change (negb (isspace c && isspace c2) && ws_collapsed (c2 :: r) = true).
        rewrite Ec, W. reflexivity.
      * done.
      * constructor; [right; split; [by left | done]|].
        eapply Forall_impl; [exact Fa|]. intros x [->|[? ?]]; [by left|right; split; [by right|done]].
Qed.

Lemma elem_of_re_sub_class (cls : N -> bool) (repl s : pystr) (c : N) :
  c ∈ re_sub_class cls repl s -> c ∈ repl \/ (c ∈ s /\ cls c = false).
Proof.
  unfold re_sub_class. rewrite list_elem_of_In, in_flat_map.
  intros (x & Hx & Hc). apply list_elem_of_In in Hx.
  destruct (cls x) eqn:E.
  - left. by apply list_elem_of_In.
  - right. destruct Hc as [->|[]]. done.
Qed.

(** ** [safe_name] *)

Lemma sanitize_clean (name : pystr) :
  Forall clean_char (sanitize name) /\ ws_collapsed (sanitize name) = true.
Proof.
  unfold sanitize.
  set (s0 := replace_char NBSP [SPACE] (strip name)).
  set (s1 := re_sub_class is_slash (str "-") s0).
  set (s2 := re_sub_class is_forbidden [] s1).
  destruct (re_sub_ws_runs_spec false s2) as (W & _ & Fa).
  split; [|exact W].
  eapply Forall_impl; [exact Fa|]. intros c [->|[Hc Hw]].
  - by vm_compute.
  - apply elem_of_re_sub_class in Hc as [Hc|[Hc Hf]]; [by apply elem_of_nil in Hc|].
    apply elem_of_re_sub_class in Hc as [Hc|[Hc Hs]].
    + apply list_elem_of_singleton in Hc as ->. by vm_compute.
    + repeat split; try done. rewrite Hw. discriminate.
Qed.

Lemma untitled_clean :
  Forall clean_char (str "untitled") /\ ws_collapsed (str "untitled") = true.
Proof.
  split; [|reflexivity].
  repeat (constructor; [by vm_compute|]). constructor.
Qed.

Lemma rstrip_take_nonempty (n : nat) (s : pystr) :
  (2 <= n)%nat -> (n < length s)%nat -> ws_collapsed s = true -> rstrip (take n s) <> [].
Proof.
  intros Hn Hl W E. apply rstrip_by_nil in E.
  destruct s as [|c1 [|c2 s]]; simpl in Hl; try lia.
  destruct n as [|[|n]]; try lia. simpl in E.
  inversion E as [|? ? H1 E']; subst. inversion E' as [|? ? H2 _]; subst.
  simpl in W. rewrite H1, H2 in W. discriminate.
Qed.

Lemma safe_name_cut (s : pystr) (max_len : Z) :
  (2 <= max_len)%Z -> s <> [] ->
  Forall clean_char s -> ws_collapsed s = true ->
  let r := if (Z.of_nat (length s) >? max_len)%Z then rstrip (slice_to max_len s) else s in
  r <> [] /\ (Z.of_nat (length r) <= max_len)%Z /\ r `prefix_of` s
  /\ Forall clean_char r /\ ws_collapsed r = true.
Proof.
  intros Hm Hne Fa W. simpl.
  destruct (Z.of_nat (length s) >? max_len)%Z eqn:E.
  - apply Z.gtb_lt in E.
    unfold slice_to. destruct (max_len <? 0)%Z eqn:E0; [apply Z.ltb_lt in E0; lia|].
    set (n := Z.to_nat max_len).
    assert (Hp : rstrip (take n s) `prefix_of` s).
    { etrans; [apply rstrip_by_prefix | apply prefix_take]. }
    repeat split.
    + apply rstrip_take_nonempty; [lia | lia | done].
    + pose proof (prefix_length _ _ (rstrip_by_prefix isspace (take n s))) as Hl.
      fold rstrip in Hl. rewrite length_take in Hl. lia.
    + exact Hp.
    + destruct Hp as [k Hk]. rewrite Hk in Fa. by apply Forall_app in Fa as [? _].
    + by eapply ws_collapsed_prefix.
  - rewrite Z.gtb_ltb in E. apply Z.ltb_ge in E. repeat split; first [done | lia].
Qed.

(** ** The page tree *)

Lemma node_ind' (P : node -> Prop) :
  (forall s, P (Text s)) ->
  (forall name cls attrs kids, Forall P kids -> P (Tag name cls attrs kids)) ->
  forall n, P n.
Proof.
  intros HT HG. fix IH 1. intros [s|name cls attrs kids]; [apply HT|].
  apply HG. induction kids as [|k kids IHk]; constructor; [apply IH | exact IHk].
Qed.

Lemma elem_of_flat_map {A B} (f : A -> list B) (l : list A) (y : B) :
  y ∈ flat_map f l <-> exists x, x ∈ l /\ y ∈ f x.
Proof.
  rewrite list_elem_of_In, in_flat_map. split; intros (x & Hx & Hy); exists x.
  - by rewrite !list_elem_of_In.
  - by rewrite <- !list_elem_of_In.
Qed.

Lemma elem_of_descendants (n d : node) :
  d ∈ descendants n <-> exists k, k ∈ children n /\ (d = k \/ d ∈ descendants k).
Proof.
  destruct n as [s|name cls attrs kids]; simpl.
  - split; [by intros ?%elem_of_nil | by intros (k & ?%elem_of_nil & _)].
  - rewrite elem_of_flat_map. by setoid_rewrite elem_of_cons.
Qed.

Lemma height_child (n k : node) : k ∈ children n -> (height k < height n)%nat.
Proof.
  destruct n as [s|name cls attrs kids]; simpl; [by intros ?%elem_of_nil|].
  induction kids as [|a kids IH]; [by intros ?%elem_of_nil|].
  intros [->|H]%elem_of_cons; simpl; [lia|]. specialize (IH H). lia.
Qed.

Lemma height_descendant (n d : node) : d ∈ descendants n -> (height d < height n)%nat.
Proof.
  revert d. induction n as [s|name cls attrs kids IH] using node_ind'; intros d.
  - by intros ?%elem_of_nil.
  - intros (k & Hk & Hd)%elem_of_descendants.
    pose proof (height_child _ _ Hk) as Hh.
    destruct Hd as [->|Hd]; [exact Hh|].
    rewrite Forall_forall in IH. specialize (IH k Hk d Hd). lia.
Qed.

Lemma descendants_trans (n d e : node) :
  d ∈ descendants n -> e ∈ descendants d -> e ∈ descendants n.
Proof.
  revert d e. induction n as [s|name cls attrs kids IH] using node_ind'; intros d e.
  - by intros ?%elem_of_nil.
  - intros (k & Hk & Hd)%elem_of_descendants He.
    apply elem_of_descendants. exists k. split; [exact Hk|]. right.
    destruct Hd as [->|Hd]; [exact He|].
    rewrite Forall_forall in IH. by apply (IH k Hk d e).
Qed.

Lemma walk_descendants (anc : list node) (n : node) :
  map snd (walk anc n) = descendants n.
Proof.
  revert anc. induction n as [s|name cls attrs kids IH] using node_ind'; intros anc; [done|].
  simpl. generalize (Tag name cls attrs kids :: anc). intros a.
  induction IH as [|k kids' Hk _ IHk]; simpl; [done|].
  by rewrite map_app, Hk, IHk.
Qed.

Lemma elem_of_walk (anc anc' : list node) (n d : node) :
  (anc', d) ∈ walk anc n -> d ∈ descendants n.
Proof.
  intros H. rewrite <- (walk_descendants anc n).
  apply list_elem_of_In, in_map_iff. exists (anc', d). split; [done|].
  by apply list_elem_of_In.
Qed.

Lemma child_items_descendants (n d : node) : d ∈ child_items n -> d ∈ descendants n.
Proof.
  unfold child_items, select_child_of. rewrite list_elem_of_omap.
  intros ([anc x] & Hx & Hm). apply elem_of_walk in Hx.
  destruct anc as [|p anc]; [done|].
  destruct (has_class "ygtvitem" x && has_class "ygtvchildren" p); [|done].
  by injection Hm as <-.
Qed.

Lemma pluginfile_anchors_descendant (n d a : node) :
  d ∈ descendants n -> a ∈ pluginfile_anchors d -> a ∈ pluginfile_anchors n.
Proof.
  unfold pluginfile_anchors, select_attr_contains. rewrite !list_elem_of_filter.
  intros Hd [Hp Ha]. split; [exact Hp|]. by eapply descendants_trans.
Qed.

(** ** Lists of URLs without repetition *)

Lemma append_new_elem (files : list pystr) (x y : pystr) :
  y ∈ append_new files x <-> y ∈ files \/ y = x.
Proof.
  unfold append_new. case_bool_decide as H.
  - split; [by left | by intros [?| ->]].
  - by rewrite elem_of_app, list_elem_of_singleton.
Qed.

Lemma fold_append_new_keeps (l files : list pystr) (y : pystr) :
  y ∈ fold_left append_new l files <-> y ∈ files \/ y ∈ l.
Proof.
  revert files. induction l as [|x l IH]; intros files; simpl.
  - rewrite elem_of_nil. tauto.
  - rewrite IH, append_new_elem, elem_of_cons. tauto.
Qed.

Lemma fold_append_new_absorb (l files : list pystr) :
  (forall x, x ∈ l -> x ∈ files) -> fold_left append_new l files = files.
Proof.
  induction l as [|x l IH]; intros H; simpl; [done|].
  unfold append_new at 2. rewrite bool_decide_eq_true_2 by (apply H; by left).
  apply IH. intros y Hy. apply H. by right.
Qed.

Lemma dedup_first_elem (l : list pystr) (x : pystr) : x ∈ dedup_first l <-> x ∈ l.
Proof.
  induction l as [|y l IH]; simpl; [done|].
  rewrite !elem_of_cons, list_elem_of_filter, IH.
  destruct (decide (x = y)); naive_solver.
Qed.

Lemma dedup_first_NoDup (l : list pystr) : NoDup (dedup_first l).
Proof.
  induction l as [|y l IH]; simpl; [constructor|].
  apply NoDup_cons. split.
  - rewrite list_elem_of_filter. naive_solver.
  - by apply NoDup_filter.
Qed.

(** The append-unless-present loop keeps exactly the first occurrences. *)
Lemma fold_append_new_dedup (l acc : list pystr) :
  fold_left append_new l acc = acc ++ filter (fun y => y ∉ acc) (dedup_first l).
Proof.
  revert acc. induction l as [|x l IH]; intros acc; simpl.
  - by rewrite app_nil_r.
  - rewrite IH. unfold append_new. case_bool_decide as Hx.
    + rewrite filter_cons_False by naive_solver.
      rewrite list_filter_filter_l; [done|]. intros y Hy ->. done.
    + rewrite filter_cons_True by done.
      rewrite <- app_assoc. simpl. do 2 f_equal.
      rewrite list_filter_filter. apply list_filter_iff.
      intros y. rewrite elem_of_app, list_elem_of_singleton. tauto.
Qed.

Lemma fold_append_new_nil (l : list pystr) : fold_left append_new l [] = dedup_first l.
Proof.
  rewrite fold_append_new_dedup. simpl.
  induction (dedup_first l) as [|a d IH]; [done|].
  rewrite filter_cons_True by apply not_elem_of_nil. by rewrite IH.
Qed.

Lemma fold_add_anchor (anchors : list node) (files : list pystr) :
  fold_left add_anchor anchors files = fold_left append_new (anchor_targets anchors) files.
Proof.
  revert files. induction anchors as [|a anchors IH]; intros files; [done|].
  simpl. rewrite IH. unfold add_anchor, anchor_targets. simpl.
  destruct (get "href" a) as [href|]; [|done].
  destruct (truthy href); done.
Qed.

(** A list without repetition drawn from the images of [l] is no longer than
    [l] without its repetitions. *)
Lemma NoDup_image_length {A} `{EqDecision A} (f : A -> pystr) (l : list A) (r : list pystr) :
  NoDup r -> (forall x, x ∈ r -> exists y, y ∈ l /\ f y = x) ->
  (length r <= length (remove_dups l))%nat.
Proof.
  intros Hnd Hin. rewrite <- (length_fmap f (remove_dups l)).
  apply submseteq_length, NoDup_submseteq; [done|].
  intros x (y & Hy & <-)%Hin. apply list_elem_of_fmap_2. by apply elem_of_remove_dups.
Qed.

(** ** The folder tree walk *)

Lemma targets_descendant (n d : node) (x : pystr) :
  d ∈ descendants n -> x ∈ targets_at d -> x ∈ targets_at n.
Proof.
  unfold targets_at, anchor_targets. rewrite !list_elem_of_omap.
  intros Hd (a & Ha & Hx). exists a. split; [|done].
  by eapply pluginfile_anchors_descendant.
Qed.

(** With enough fuel [recurse] returns, and all it adds are the targets met
    at the node it starts from: the calls on the items below find nothing
    new. *)
Lemma recurse_closed (fuel : nat) (n : node) (files : list pystr) :
  (height n < fuel)%nat ->
  recurse fuel n files = Some (fold_left append_new (targets_at n) files).
Proof.
  revert n files. induction fuel as [|fuel IH]; intros n files Hh; [lia|].
  simpl. rewrite fold_add_anchor.
  set (files1 := fold_left append_new (targets_at n) files).
  assert (Hsub : forall c, c ∈ child_items n -> c ∈ child_items n) by done.
  revert Hsub. generalize (child_items n) at 1 3. intros cs.
  induction cs as [|c cs IHcs]; intros Hsub; [done|].
  simpl. rewrite IH.
  - rewrite fold_append_new_absorb.
    + apply IHcs. intros x Hx. apply Hsub. by right.
    + intros x Hx. subst files1. apply fold_append_new_keeps. right.
      eapply targets_descendant; [|exact Hx].
      apply child_items_descendants, Hsub. by left.
  - assert (Hc : c ∈ descendants n) by (apply child_items_descendants, Hsub; by left).
    apply height_descendant in Hc. lia.
Qed.

(** The result of [recurse] is the anchor loop run at each visited node, in
    the order of [visits]. *)
Lemma fold_visits_None (fuel : nat) (cs : list node) :
  fold_left (fun acc child => vs ← acc; vs' ← visits fuel child; Some (vs ++ vs')) cs None = None.
Proof. induction cs as [|c cs IH]; [done|]. exact IH. Qed.

Lemma recurse_visits (fuel : nat) (n : node) (files : list pystr) (vs : list node) :
  visits fuel n = Some vs ->
  recurse fuel n files
  = Some (fold_left (fun fs v => fold_left add_anchor (pluginfile_anchors v) fs) vs files).
Proof.
  revert n files vs. induction fuel as [|fuel IH]; intros n files vs; [done|].
  simpl.
  set (step := fun fs v => fold_left add_anchor (pluginfile_anchors v) fs).
  change (fold_left add_anchor (pluginfile_anchors n) files) with (fold_left step [n] files).
  generalize (child_items n). generalize [n]. intros V0 cs. revert V0 vs.
  induction cs as [|c cs IHcs]; intros V0 vs.
  - simpl. by intros [= <-].
  - simpl. destruct (visits fuel c) as [vc|] eqn:Ec; simpl.
    + intros H. rewrite (IH c _ vc Ec).
      specialize (IHcs (V0 ++ vc) vs H). rewrite fold_left_app in IHcs. exact IHcs.
    + by rewrite fold_visits_None.
Qed.

Lemma walk_shift (anc : list node) (n : node) :
  walk anc n = map (fun '(a, d) => (a ++ anc, d)) (walk [] n).
Proof.
  revert anc. induction n as [s|name cls attrs kids IH] using node_ind'; intros anc; [done|].
  simpl. generalize (Tag name cls attrs kids). intros t.
  induction IH as [|k kids' Hk _ IHk]; [done|].
  simpl. rewrite map_app, IHk. f_equal. f_equal.
  rewrite (Hk (t :: anc)), (Hk [t]), map_map.
  apply map_ext. intros [a d]. by rewrite <- app_assoc.
Qed.

Lemma walk_descend (anc ak : list node) (n k : node) (x : list node * node) :
  (ak, k) ∈ walk anc n -> x ∈ walk ak k -> x ∈ walk anc n.
Proof.
  revert anc. induction n as [s|name cls attrs kids IH] using node_ind'; intros anc.
  - by intros ?%elem_of_nil.
  - simpl. rewrite !elem_of_flat_map. intros (c & Hc & Hk) Hx.
    exists c. split; [done|]. apply elem_of_cons in Hk as [[= -> ->]|Hk].
    + by right.
    + right. rewrite Forall_forall in IH. by apply (IH c Hc (Tag name cls attrs kids :: anc)).
Qed.

Lemma descendant_walk (n k : node) : k ∈ descendants n -> exists ak, (ak, k) ∈ walk [] n.
Proof.
  rewrite <- (walk_descendants [] n). intros H.
  apply list_elem_of_fmap in H as ([ak k'] & -> & H). by exists ak.
Qed.

(** The selector of the walk reaches below the items it returns: whatever
    it returns at a node below [n], it returns at [n] as well. *)
Lemma child_items_any_depth (n k d : node) :
  k ∈ descendants n -> d ∈ child_items k -> d ∈ child_items n.
Proof.
  intros Hk Hd. destruct (descendant_walk _ _ Hk) as [ak Hak].
  unfold child_items, select_child_of in *.
  apply list_elem_of_omap in Hd as ([a x] & Hx & Hsel).
  apply list_elem_of_omap. exists (a ++ ak, x). split.
  - apply (walk_descend [] ak n k); [done|]. rewrite walk_shift.
    apply list_elem_of_fmap. by exists (a, x).
  - destruct a as [|p a]; [done|]. exact Hsel.
Qed.

Lemma all_roots_descendants (soup r : node) : r ∈ all_roots soup -> r ∈ descendants soup.
Proof.
  unfold all_roots. rewrite elem_of_flat_map. intros (t & Ht & Hr).
  apply list_elem_of_filter in Ht as [_ Ht].
  eapply descendants_trans; [exact Ht|].
  unfold tree_roots in Hr.
  destruct (find_all_direct_class "div" "ygtvitem" t) as [|r0 rs] eqn:E.
  - by apply list_elem_of_filter in Hr as [_ Hr].
  - rewrite <- E in Hr. apply list_elem_of_filter in Hr as [_ Hr].
    apply elem_of_descendants. exists r. by split; [|left].
Qed.

Lemma parse_folder_tree_fuel_closed (fuel : nat) (soup : node) :
  (height soup < fuel)%nat ->
  parse_folder_tree_fuel fuel soup = Some (dedup_first (folder_candidates soup)).
Proof.
  intros Hf. unfold parse_folder_tree_fuel, folder_candidates.
  rewrite <- fold_append_new_nil.
  assert (Hh : forall r, r ∈ all_roots soup -> (height r < fuel)%nat).
  { intros r Hr%all_roots_descendants%height_descendant. lia. }
  revert Hh. generalize (all_roots soup) (@nil pystr). intros rs.
  induction rs as [|r rs IH]; intros acc Hh; [done|].
  cbn [fold_left flat_map mbind option_bind]. rewrite recurse_closed by (apply Hh; by left).
  rewrite fold_left_app. apply IH. intros x Hx. apply Hh. by right.
Qed.

Lemma parse_folder_tree_closed (soup : node) :
  parse_folder_tree soup = Some (dedup_first (folder_candidates soup)).
Proof. apply parse_folder_tree_fuel_closed. lia. Qed.

Lemma folder_candidates_in_page (soup : node) (x : pystr) :
  x ∈ folder_candidates soup -> x ∈ targets_at soup.
Proof.
  unfold folder_candidates. rewrite elem_of_flat_map. intros (r & Hr & Hx).
  eapply targets_descendant; [|exact Hx]. by apply all_roots_descendants.
Qed.

Lemma targets_at_raw (soup : node) (x : pystr) :
  x ∈ targets_at soup -> exists y, y ∈ raw_links soup /\ absolutize y = x.
Proof.
  unfold targets_at, anchor_targets, raw_links. rewrite list_elem_of_omap.
  intros (a & Ha & Hx). destruct (get "href" a) as [h|] eqn:E; [|done].
  destruct (truthy h); [|done]. injection Hx as <-.
  exists h. split; [|done]. apply list_elem_of_omap. by exists a.
Qed.

(** C9.  On every page tree, however deep, [parse_folder_tree] returns: the
    fuel it is given is enough, and so is any larger amount.  The list it
    returns has no repetition, holds only targets of resource-file anchors of
    the fragment, and is no longer than the number of distinct resource-file
    links of the fragment (counted after or before they are made
    absolute). *)
Theorem parse_folder_tree_terminates_bounded (soup : node) :
  exists files : list pystr,
    parse_folder_tree soup = Some files
    /\ (forall fuel, (height soup < fuel)%nat -> parse_folder_tree_fuel fuel soup = Some files)
    /\ NoDup files
    /\ (forall x, x ∈ files -> x ∈ targets_at soup)
    /\ (length files <= length (remove_dups (targets_at soup)))%nat
    /\ (length files <= length (remove_dups (raw_links soup)))%nat.
Proof.
  exists (dedup_first (folder_candidates soup)).
  assert (Hin : forall x, x ∈ dedup_first (folder_candidates soup) -> x ∈ targets_at soup).
  { intros x Hx. apply folder_candidates_in_page. by apply dedup_first_elem. }
  pose proof (dedup_first_NoDup (folder_candidates soup)) as Hnd.
  split; [apply parse_folder_tree_closed|].
  split; [intros fuel Hf; by apply parse_folder_tree_fuel_closed|].
  split; [exact Hnd|]. split; [exact Hin|]. split.
  - apply (NoDup_image_length (fun x => x)); [exact Hnd|].
    intros x Hx. exists x. split; [by apply Hin | done].
  - apply (NoDup_image_length absolutize); [exact Hnd|].
    intros x Hx. by apply targets_at_raw, Hin.
Qed.

Lemma parse_folder_tree_terminates_bounded_witness :
  exists files : list pystr,
    parse_folder_tree nested_folder_page = Some files
    /\ parse_folder_tree_fuel 10 nested_folder_page = Some files
    /\ (length files <= 2)%nat.
Proof.
  destruct (parse_folder_tree_terminates_bounded nested_folder_page)
    as (files & H1 & H2 & _ & _ & _ & H6).
  exists files. split; [exact H1|]. split; [apply H2; vm_compute; lia|].
  exact H6.
Defined.

(** C4, evaluated on a folder nested in a folder.  At the outer item the
    selector also returns the inner item [ygtv2], which is not one level
    down (see [child_items_any_depth] for the general fact); the walk
    therefore enters [ygtv2] twice, once from [ygtv1] and once from
    [ygtv0].  The list of files is the same as for a walk that enters each
    item once. *)
Theorem recurse_enters_nested_item_twice :
  child_items item0 = [item1; item2]
  /\ items_one_level_down item0 = [item1]
  /\ visits 3 item0 = Some [item0; item1; item2; item2]
  /\ ~ NoDup [item0; item1; item2; item2]
  /\ parse_folder_tree nested_folder_page
     = Some [str "https://moodle.elct.lnu.edu.ua/pluginfile.php/7/mod_folder/content/0/a.pdf";
             str "https://moodle.elct.lnu.edu.ua/pluginfile.php/7/mod_folder/content/0/sub/b.pdf"].
Proof.
  split; [reflexivity|]. split; [reflexivity|]. split; [reflexivity|].
  split; [|reflexivity].
  intros H. apply NoDup_cons in H as [_ H]. apply NoDup_cons in H as [_ H].
  apply NoDup_cons in H as [H _]. apply H. by left.
Qed.

(** ** Substrings *)

Lemma startswith_app (p s : pystr) : startswith p s = true <-> exists t, s = p ++ t.
Proof.
  revert s. induction p as [|a p IH]; intros s; simpl.
  - split; [intros _; by exists s | done].
  - destruct s as [|b s]; [split; [done | by intros [t ?]]|].
    rewrite andb_true_iff, N.eqb_eq, IH. split.
    + intros [-> [t ->]]. by exists t.
    + intros [t [= -> ->]]. split; [done | by exists t].
Qed.

Lemma contains_infix (sub s : pystr) :
  contains sub s = true <-> exists pre post, s = pre ++ sub ++ post.
Proof.
  induction s as [|c s IH]; simpl.
  - rewrite orb_false_r, startswith_app. split.
    + intros [t ->]. by exists [], t.
    + intros (pre & post & H). destruct pre; [by exists post|done].
  - rewrite orb_true_iff, startswith_app, IH. split.
    + intros [[t ->]|(pre & post & ->)]; [by exists [], t | by exists (c :: pre), post].
    + intros (pre & post & H). destruct pre as [|a pre].
      * left. by exists post.
      * right. injection H as -> ->. by exists pre, post.
Qed.

Lemma contains_within (sub k1 s k2 : pystr) :
  contains sub s = true -> contains sub (k1 ++ s ++ k2) = true.
Proof.
  rewrite !contains_infix. intros (pre & post & ->).
  exists (k1 ++ pre), (post ++ k2). by rewrite <- !app_assoc.
Qed.

Lemma strip_infix (p : N -> bool) (s : pystr) : exists k1 k2, s = k1 ++ strip_by p s ++ k2.
Proof.
  unfold strip_by.
  destruct (rstrip_by_prefix p (lstrip_by p s)) as [k2 H2].
  destruct (lstrip_by_suffix p s) as [k1 H1].
  exists k1, k2. by rewrite <- H2.
Qed.

Lemma contains_strip (sub s : pystr) :
  contains sub s = false -> contains sub (strip s) = false.
Proof.
  intros H. destruct (contains sub (strip s)) eqn:E; [|done].
  destruct (strip_infix isspace s) as (k1 & k2 & Hs).
  rewrite Hs in H. fold strip in H. by rewrite (contains_within _ _ _ _ E) in H.
Qed.

(** The base address does not complete the marker. *)
Lemma contains_marker_base (u : pystr) :
  contains PLUGINFILE (MOODLE_BASE ++ u) = contains PLUGINFILE u.
Proof. reflexivity. Qed.

Lemma contains_marker_absolutize (u : pystr) :
  contains PLUGINFILE (absolutize u) = contains PLUGINFILE u.
Proof. unfold absolutize. destruct (startswith (str "/") u); [apply contains_marker_base | done]. Qed.

(** ** The activity resolver *)

Lemma add_if_pluginfile_target (urls : list pystr) (raw : option pystr) :
  add_if_pluginfile urls raw
  = match pluginfile_target raw with
    | Some u => append_new urls u
    | None => urls
    end.
Proof.
  unfold add_if_pluginfile, pluginfile_target, append_new.
  destruct raw as [raw|]; [|done].
  destruct (negb (truthy raw)); [done|].
  destruct (is_placeholder (strip raw)); [done|].
  destruct (contains PLUGINFILE (absolutize (strip raw))); simpl; [|done].
  by case_bool_decide.
Qed.

Lemma fold_add_if_pluginfile {A} (f : A -> option pystr) (l : list A) (urls : list pystr) :
  fold_left (fun urls a => add_if_pluginfile urls (f a)) l urls
  = fold_left append_new (omap pluginfile_target (map f l)) urls.
Proof.
  revert urls. induction l as [|a l IH]; intros urls; [done|].
  simpl. rewrite IH, add_if_pluginfile_target.
  destruct (pluginfile_target (f a)); reflexivity.
Qed.

Lemma scan_pluginfile_dedup (soup : node) :
  scan_pluginfile soup = dedup_first (scan_candidates soup).
Proof.
  unfold scan_pluginfile, scan_candidates, scan_inputs.
  rewrite !fold_add_if_pluginfile, omap_app, <- fold_append_new_nil, fold_left_app. done.
Qed.

Lemma pluginfile_target_marker (raw : option pystr) (u : pystr) :
  pluginfile_target raw = Some u -> exists v, raw = Some v /\ contains PLUGINFILE v = true.
Proof.
  unfold pluginfile_target. destruct raw as [v|]; [|done].
  destruct (negb (truthy v)); [done|].
  destruct (is_placeholder (strip v)); [done|].
  destruct (contains PLUGINFILE (absolutize (strip v))) eqn:E; [|done].
  intros _. exists v. split; [done|].
  rewrite contains_marker_absolutize in E.
  destruct (contains PLUGINFILE v) eqn:Ev; [done|].
  by rewrite (contains_strip _ _ Ev) in E.
Qed.

Lemma scan_pluginfile_none (soup : node) :
  (forall v, Some v ∈ scan_inputs soup -> contains PLUGINFILE v = false) ->
  scan_pluginfile soup = [].
Proof.
  intros H. rewrite scan_pluginfile_dedup. unfold scan_candidates.
  replace (omap pluginfile_target (scan_inputs soup)) with (@nil pystr); [done|].
  symmetry. induction (scan_inputs soup) as [|raw l IH]; [done|].
  simpl. destruct (pluginfile_target raw) as [u|] eqn:E.
  - apply pluginfile_target_marker in E as (v & -> & Hv).
    rewrite H in Hv; [done | by left].
  - apply IH. intros v Hv. apply H. by right.
Qed.

Lemma first_candidate_found (pre post : list node) (a : node) (h : pystr) (urls : list pystr) :
  Forall (fun x => candidate_target x = None) pre ->
  candidate_target a = Some h ->
  first_candidate (pre ++ a :: post) urls = urls ++ [h].
Proof.
  intros Hpre Ha. induction Hpre as [|x pre Hx _ IH]; simpl.
  - by rewrite Ha.
  - by rewrite Hx.
Qed.

Lemma first_candidate_none (cands : list node) (urls : list pystr) :
  Forall (fun x => candidate_target x = None) cands ->
  first_candidate cands urls = urls.
Proof. intros H. induction H as [|x l Hx _ IH]; simpl; [done|]. by rewrite Hx. Qed.

Lemma omap_sublist {A B} (f : A -> option B) (g : A -> B) (l : list A) :
  (forall x y, f x = Some y -> y = g x) -> omap f l `sublist_of` map g l.
Proof.
  intros H. induction l as [|a l IH]; simpl; [constructor|].
  destruct (f a) as [b|] eqn:E.
  - rewrite (H _ _ E). by apply sublist_skip.
  - by apply sublist_cons.
Qed.

(** The fallback anchors come in the order of the page. *)
Lemma fallback_anchors_page_order (soup : node) :
  fallback_anchors soup `sublist_of` descendants soup.
Proof.
  unfold fallback_anchors, select_under. rewrite <- (walk_descendants [] soup).
  apply omap_sublist. intros [anc d] y. simpl.
  destruct (is_tag ["a"] d && _); [by intros [= <-] | done].
Qed.

Lemma startswith_http_reachable (url : pystr) :
  startswith (str "http") url = true -> unreachable url = false.
Proof.
  intros H. apply startswith_app in H as [t ->].
  unfold unreachable. rewrite (proj2 (startswith_app _ _)) by (by exists t). done.
Qed.

(** C3 (as amended).  [collect_activity_files] returns the one-element list
    [[activity_url]], and asks the browser for nothing, for every activity
    URL that starts with [http] and contains the resource-file marker; it
    returns the empty list, again without navigation, for every unreachable
    URL (empty, the placeholder anchor, or not starting with [http]),
    whether or not that URL contains the marker: reachability is tested
    first. *)
Theorem collect_direct_or_unreachable (page : browser) (url : pystr) :
  (startswith (str "http") url = true -> contains PLUGINFILE url = true ->
   collect_activity_files page url = ([url], []))
  /\ (url = [] \/ url = str "#" \/ startswith (str "http") url = false ->
      collect_activity_files page url = ([], [])).
Proof.
  split.
  - intros Hh Hp. unfold collect_activity_files.
    by rewrite (startswith_http_reachable _ Hh), Hp.
  - intros H. unfold collect_activity_files.
    replace (unreachable url) with true; [done|].
    symmetry. unfold unreachable. destruct H as [->|[->|H]]; [done|done|].
    rewrite H. simpl. by rewrite orb_true_r.
Qed.

Lemma collect_direct_or_unreachable_witness :
  collect_activity_files resource_browser
    (str "https://moodle.elct.lnu.edu.ua/pluginfile.php/5/mod_resource/content/1/plan.pdf")
  = ([str "https://moodle.elct.lnu.edu.ua/pluginfile.php/5/mod_resource/content/1/plan.pdf"], [])
  /\ collect_activity_files resource_browser (str "#") = ([], []).
Proof.
  split.
  - apply (proj1 (collect_direct_or_unreachable resource_browser _)); reflexivity.
  - apply (proj2 (collect_direct_or_unreachable resource_browser _)). right. left. reflexivity.
Defined.

(** C3 as stated fails: a URL that contains the marker but does not start
    with [http] is answered with the empty list, not with itself. *)
Lemma collect_marker_url_not_http :
  contains PLUGINFILE (str "ftp://files.example.org/pluginfile.php/3/a.pdf") = true
  /\ collect_activity_files resource_browser (str "ftp://files.example.org/pluginfile.php/3/a.pdf")
     = ([], []).
Proof. split; reflexivity. Qed.

Lemma candidate_target_none (a : node) :
  candidate_target a = None
  <-> get "href" a = None
      \/ exists raw, get "href" a = Some raw /\ (raw = [] \/ is_placeholder (strip raw) = true).
Proof.
  unfold candidate_target. destruct (get "href" a) as [raw|]; [|by split; [left|]].
  destruct raw as [|c raw]; simpl.
  - split; [intros _; right; exists []; by split; [|left] | done].
  - destruct (is_placeholder (strip (c :: raw))) eqn:E.
    + split; [intros _; right; exists (c :: raw); by split; [|right] | done].
    + split; [done|]. intros [?|(r & [= <-] & [?|?])]; done || congruence.
Qed.

(** C5 (as amended).  When the fetched page has no folder tree and no anchor
    or media target containing the marker, the result is the one-element
    list holding the target of the first anchor, in the order of the page,
    that lies inside any of the three fallback regions and has a non-empty,
    non-placeholder [href] (stripped and made absolute); the regions are
    searched together, not one after another.  When there is no such
    anchor the result is [[activity_url]]. *)
Theorem collect_fallback (page : browser) (url : pystr) (soup : node) :
  unreachable url = false ->
  contains PLUGINFILE url = false ->
  page url = Ok soup ->
  select_one_class "foldertree" soup = None ->
  (forall v, Some v ∈ scan_inputs soup -> contains PLUGINFILE v = false) ->
  fallback_anchors soup `sublist_of` descendants soup
  /\ (forall pre a post raw,
        fallback_anchors soup = pre ++ a :: post ->
        Forall (fun x => candidate_target x = None) pre ->
        get "href" a = Some raw -> raw <> [] -> is_placeholder (strip raw) = false ->
        collect_activity_files page url = ([absolutize (strip raw)], [url]))
  /\ (Forall (fun x => candidate_target x = None) (fallback_anchors soup) ->
      collect_activity_files page url = ([url], [url]))
  /\ (forall a, candidate_target a = None
                <-> get "href" a = None
                    \/ exists raw, get "href" a = Some raw
                                    /\ (raw = [] \/ is_placeholder (strip raw) = true)).
Proof.
  intros Hr Hp Hpage Htree Hscan.
  split; [apply fallback_anchors_page_order|].
  cut ((forall pre a post raw,
        fallback_anchors soup = pre ++ a :: post ->
        Forall (fun x => candidate_target x = None) pre ->
        get "href" a = Some raw -> raw <> [] -> is_placeholder (strip raw) = false ->
        collect_activity_files page url = ([absolutize (strip raw)], [url]))
       /\ (Forall (fun x => candidate_target x = None) (fallback_anchors soup) ->
           collect_activity_files page url = ([url], [url]))).
  { intros [H1 H2]. split; [exact H1|]. split; [exact H2 | apply candidate_target_none]. }
  assert (Hc : collect_activity_files page url
               = match first_candidate (fallback_anchors soup) [] with
                 | (_ :: _) as urls => (urls, [url])
                 | [] => ([url], [url])
                 end).
  { unfold collect_activity_files. rewrite Hr, Hp, Hpage, Htree.
    by rewrite (scan_pluginfile_none _ Hscan). }
  split.
  - intros pre a post raw Hf Hpre Hraw Hne Hph. rewrite Hc, Hf.
    rewrite (first_candidate_found pre post a (absolutize (strip raw))); [done|done|].
    unfold candidate_target. rewrite Hraw, Hph. by destruct raw.
  - intros Hnone. rewrite Hc. by rewrite first_candidate_none.
Qed.

Lemma collect_fallback_witness :
  collect_activity_files resource_browser resource_url
  = ([str "https://moodle.elct.lnu.edu.ua/course/view.php?id=42"], [resource_url]).
Proof.
  assert (Hs : forall v, Some v ∈ scan_inputs resource_page -> contains PLUGINFILE v = false).
  { assert (Hall : Forall (fun raw => forall v, raw = Some v -> contains PLUGINFILE v = false)
                          (scan_inputs resource_page)).
    { repeat (constructor; [by intros v [= <-]|]). constructor. }
    intros v Hv. rewrite Forall_forall in Hall. by apply (Hall (Some v)). }
  pose proof (collect_fallback resource_browser resource_url resource_page
                eq_refl eq_refl eq_refl eq_refl Hs) as (_ & H & _ & _).
  exact (H [] (anchor "/course/view.php?id=42" "Back to the course")
           [anchor "https://files.example.org/lecture1.pdf" "lecture1.pdf"]
           (str "/course/view.php?id=42") eq_refl (List.Forall_nil _) eq_refl
           ltac:(discriminate) eq_refl).
Defined.

(** C5 as stated fails: read region by region, the first usable anchor of
    the resource page is the file linked in [.resourceworkaround]; the code
    returns the link back to the course, which comes first in the page and
    lies in [.region-main]. *)
Lemma fallback_is_not_by_region :
  first_by_region resource_page = Some (str "https://files.example.org/lecture1.pdf")
  /\ fst (collect_activity_files resource_browser resource_url)
     = [str "https://moodle.elct.lnu.edu.ua/course/view.php?id=42"]
  /\ fst (collect_activity_files resource_browser resource_url)
     <> [str "https://files.example.org/lecture1.pdf"].
Proof. split; [reflexivity|]. split; [reflexivity|]. discriminate. Qed.


(** ** The assignment page *)

Lemma status_write_field (r : node) (f : string) (w : pystr) :
  status_write r = Some (f, w) -> f ∈ STATUS_FIELDS.
Proof.
  unfold status_write.
  destruct (find "th" r) as [h|]; [|done]. destruct (find "td" r) as [d|]; [|done].
  repeat (match goal with |- context [if ?c then _ else _] => destruct c end;
          [intros [= <- _]; set_solver|]).
  done.
Qed.

Section AssignFacts.
Context {F : Type}.

Implicit Types (meta : gmap string (pyval F)) (k : string) (v : pystr).

Lemma guarded_insert_keeps meta k k' v (w : pyval F) (c : bool) :
  meta !! k = Some (VStr v) ->
  (if c && is_none meta k' then <[k' := w]> meta else meta) !! k = Some (VStr v).
Proof.
  intros H. destruct c; simpl; [|done].
  destruct (decide (k' = k)) as [->|Hne].
  - unfold is_none. by rewrite H.
  - destruct (is_none meta k'); [by rewrite lookup_insert_ne | done].
Qed.

(** A step of the first two loops never changes a field that holds a
    text. *)
Lemma activity_date_step_keeps meta (d : node) k v :
  meta !! k = Some (VStr v) -> activity_date_step meta d !! k = Some (VStr v).
Proof.
  intros H. unfold activity_date_step.
  destruct (find "strong" d) as [s|]; [|done].
  destruct (negb (truthy _)); [done|].
  destruct (contains L_ACCEPT_FROM _ && is_none meta "start_at") eqn:E1.
  - pose proof (guarded_insert_keeps meta k "start_at" v
                  (VStr (strip_chars (str " :") (replace_first (get_text s) [] (get_text d))))
                  (contains L_ACCEPT_FROM (lower (get_text s))) H) as G.
    by rewrite E1 in G.
  - by apply guarded_insert_keeps.
Qed.

Lemma date_row_step_keeps meta (r : node) k v :
  meta !! k = Some (VStr v) -> date_row_step meta r !! k = Some (VStr v).
Proof.
  intros H. unfold date_row_step.
  do 3 (apply guarded_insert_keeps with (c := (_ || _)%bool) || apply guarded_insert_keeps).
  exact H.
Qed.

Lemma fold_keeps (step : gmap string (pyval F) -> node -> gmap string (pyval F))
      (l : list node) meta k (x : pyval F) :
  (forall m n, m !! k = Some x -> step m n !! k = Some x) ->
  meta !! k = Some x -> fold_left step l meta !! k = Some x.
Proof.
  intros Hs. revert meta. induction l as [|n l IH]; intros meta H; [done|].
  simpl. apply IH. by apply Hs.
Qed.

(** A status row writes the field [status_write] names, and nothing
    else. *)
Lemma status_row_step_write meta (r : node) :
  status_row_step meta r
  = match status_write r with
    | Some (f, w) => <[f := VStr w]> meta
    | None => meta
    end.
Proof.
  unfold status_row_step, status_write.
  destruct (find "th" r) as [h|]; [|done]. destruct (find "td" r) as [d|]; [|done].
  repeat (match goal with |- context [if ?c then _ else _] => destruct c end; try done).
Qed.

Lemma status_row_step_other meta (r : node) k (x : pyval F) :
  k ∉ STATUS_FIELDS -> meta !! k = Some x -> status_row_step meta r !! k = Some x.
Proof.
  intros Hk H. rewrite status_row_step_write.
  destruct (status_write r) as [[f w]|] eqn:E; [|done].
  rewrite lookup_insert_ne; [done|]. intros ->. by apply Hk, (status_write_field r k w).
Qed.

(** The last row that writes a field decides it. *)
Lemma status_rows_last (rows1 rows2 : list node) (row : node) meta (f : string) (w : pystr) :
  status_write row = Some (f, w) ->
  Forall (fun r => forall w', status_write r <> Some (f, w')) rows2 ->
  fold_left status_row_step (rows1 ++ row :: rows2) meta !! f = Some (VStr w).
Proof.
  intros Hw Hrest. rewrite fold_left_app. simpl.
  rewrite (status_row_step_write _ row), Hw.
  generalize (fold_left status_row_step rows1 meta). intros m.
  assert (H : <[f := VStr w]> m !! f = Some (VStr w)) by apply lookup_insert_eq.
  revert H. generalize (<[f := VStr w]> m). clear m.
  induction Hrest as [|r rows2 Hr _ IH]; intros m H; [done|].
  simpl. apply IH. rewrite status_row_step_write.
  destruct (status_write r) as [[f' w']|] eqn:E; [|done].
  rewrite lookup_insert_ne; [done|]. intros ->. by apply (Hr w').
Qed.

Lemma store_grade_other (pyfloat : pystr -> option F) meta (g : pystr) k (x : pyval F) :
  k ∉ ["grade_text"; "grade_raw"; "grade_max"] ->
  meta !! k = Some x -> store_grade pyfloat meta g !! k = Some x.
Proof.
  intros Hk H. unfold store_grade.
  assert (k <> "grade_text" /\ k <> "grade_raw" /\ k <> "grade_max") as (? & ? & ?)
    by set_solver.
  destruct (split 0x2F g) as [|a [|b [|c l]]]; rewrite ?lookup_insert_ne; done.
Qed.

Lemma grade_loop_other (pyfloat : pystr -> option F) (rows : list node) meta k (x : pyval F) :
  k ∉ ["grade_text"; "grade_raw"; "grade_max"] ->
  meta !! k = Some x -> grade_loop pyfloat rows meta !! k = Some x.
Proof.
  intros Hk H. induction rows as [|r rows IH]; [done|]. simpl.
  destruct (find "th" r) as [h|]; [|done]. destruct (find "td" r) as [d|]; [|done].
  destruct (contains L_GRADE _); [by apply store_grade_other | done].
Qed.

(** The steps after the date loops leave the three date fields alone. *)
Lemma after_dates_keeps (pyfloat : pystr -> option F) (soup : node) meta k (x : pyval F) :
  k ∈ DATE_FIELDS -> meta !! k = Some x ->
  grade_loop pyfloat (feedback_rows soup)
    (<["files" := VList (attached_files soup)]>
       (fold_left status_row_step (status_table_rows soup) meta)) !! k = Some x.
Proof.
  intros Hk H.
  assert (Hd : k = "start_at" \/ k = "due_at" \/ k = "cutoff_at") by set_solver.
  apply grade_loop_other; [destruct Hd as [-> | [-> | ->]]; set_solver|].
  rewrite lookup_insert_ne by (destruct Hd as [-> | [-> | ->]]; done).
  apply fold_keeps; [|exact H].
  intros m n. apply status_row_step_other. destruct Hd as [-> | [-> | ->]]; set_solver.
Qed.

End AssignFacts.

(** ** Splitting and normalising the grade text *)

Lemma split_no_sep (sep : N) (a : pystr) : sep ∉ a -> split sep a = [a].
Proof.
  induction a as [|c a IH]; intros H; [done|].
  apply not_elem_of_cons in H as [Hc Ha]. simpl.
  rewrite (proj2 (N.eqb_neq c sep)) by congruence. by rewrite (IH Ha).
Qed.

Lemma split_app_sep (sep : N) (a b : pystr) :
  sep ∉ a -> split sep (a ++ sep :: b) = a :: split sep b.
Proof.
  induction a as [|c a IH]; intros H; simpl.
  - by rewrite N.eqb_refl.
  - apply not_elem_of_cons in H as [Hc Ha].
    rewrite (proj2 (N.eqb_neq c sep)) by congruence. by rewrite (IH Ha).
Qed.

Lemma split_length (sep : N) (s : pystr) : length (split sep s) = S (count_char sep s).
Proof.
  unfold count_char. induction s as [|c s IH]; [done|].
  destruct (N.eqb_spec c sep) as [->|Hne].
  - rewrite filter_cons_True by done. cbn [split length]. by rewrite N.eqb_refl, <- IH.
  - rewrite filter_cons_False by done. rewrite <- IH. cbn [split].
    rewrite (proj2 (N.eqb_neq c sep)) by done.
    by destruct (split sep s).
Qed.

Lemma normalize_chain (s : list N) :
  replace_char 0x2C (str ".") (replace_char SPACE [] (replace_char NBSP [SPACE] s))
  = map (fun c => if c =? 0x2C then 0x2E else c) (filter (fun c => c <> SPACE /\ c <> NBSP) s).
Proof.
  unfold replace_char. induction s as [|c s IH]; [done|].
  destruct (decide (c = NBSP)) as [->|Hn].
  { rewrite filter_cons_False by (by intros [_ ?]). exact IH. }
  destruct (decide (c = SPACE)) as [->|Hs].
  { rewrite filter_cons_False by (by intros [? _]). exact IH. }
  rewrite filter_cons_True by done. cbn [flat_map map].
  rewrite (proj2 (N.eqb_neq c NBSP)) by done. cbn [flat_map app].
  rewrite (proj2 (N.eqb_neq c SPACE)) by done. cbn [flat_map app].
  rewrite IH. by destruct (c =? 0x2C).
Qed.

Lemma number_text_clean (t : pystr) :
  Forall (fun c => c <> SPACE /\ c <> NBSP /\ c <> 0x2C) (number_text t).
Proof.
  unfold number_text. apply Forall_forall. intros c Hc.
  apply list_elem_of_fmap in Hc as (x & -> & Hx).
  apply list_elem_of_filter in Hx as [[Hs Hn] _].
  destruct (N.eqb_spec x 0x2C) as [->|Hx]; [by vm_compute|done].
Qed.

Section GradeFacts.
Context {F : Type} (pyfloat : pystr -> option F).

Lemma normalize_number_text (t : pystr) :
  _normalize_number pyfloat t = pyfloat (number_text t).
Proof. unfold _normalize_number, number_text. by rewrite normalize_chain. Qed.

Lemma grade_loop_step (r : node) (rows : list node) (meta : gmap string (pyval F)) :
  grade_loop pyfloat (r :: rows) meta
  = match grade_cell r with
    | Some g => store_grade pyfloat meta g
    | None => grade_loop pyfloat rows meta
    end.
Proof.
  simpl. unfold grade_cell.
  destruct (find "th" r) as [h|]; [|done]. destruct (find "td" r) as [d|]; [|done].
  by destruct (contains L_GRADE _).
Qed.

Lemma grade_loop_first (pre post : list node) (row : node) (g : pystr)
      (meta : gmap string (pyval F)) :
  Forall (fun r => grade_cell r = None) pre -> grade_cell row = Some g ->
  grade_loop pyfloat (pre ++ row :: post) meta = store_grade pyfloat meta g.
Proof.
  intros Hpre Hrow. induction Hpre as [|r pre Hr _ IH].
  - by rewrite app_nil_l, grade_loop_step, Hrow.
  - by rewrite <- app_comm_cons, grade_loop_step, Hr.
Qed.

Lemma grade_loop_none (rows : list node) (meta : gmap string (pyval F)) :
  Forall (fun r => grade_cell r = None) rows -> grade_loop pyfloat rows meta = meta.
Proof.
  intros H. induction H as [|r rows Hr _ IH]; [done|]. by rewrite grade_loop_step, Hr.
Qed.

Lemma store_grade_text (meta : gmap string (pyval F)) (g : pystr) :
  store_grade pyfloat meta g !! "grade_text" = Some (VStr g).
Proof.
  unfold store_grade.
  destruct (split 0x2F g) as [|a [|b [|c l]]];
    rewrite ?lookup_insert_ne by done; apply lookup_insert_eq.
Qed.

Lemma store_grade_two (meta : gmap string (pyval F)) (a b : pystr) :
  0x2F ∉ a -> 0x2F ∉ b ->
  store_grade pyfloat meta (a ++ 0x2F :: b) !! "grade_raw"
    = Some (float_val (pyfloat (number_text a)))
  /\ store_grade pyfloat meta (a ++ 0x2F :: b) !! "grade_max"
    = Some (float_val (pyfloat (number_text b))).
Proof.
  intros Ha Hb. unfold store_grade.
  rewrite (split_app_sep _ _ _ Ha), (split_no_sep _ _ Hb), !normalize_number_text.
  split.
  - rewrite lookup_insert_ne by done. apply lookup_insert_eq.
  - apply lookup_insert_eq.
Qed.

Lemma store_grade_not_two (meta : gmap string (pyval F)) (g : pystr) :
  count_char 0x2F g <> 1%nat ->
  store_grade pyfloat meta g !! "grade_raw" = meta !! "grade_raw"
  /\ store_grade pyfloat meta g !! "grade_max" = meta !! "grade_max".
Proof.
  intros Hc. unfold store_grade.
  pose proof (split_length 0x2F g) as Hl.
  destruct (split 0x2F g) as [|a [|b [|c l]]]; simpl in Hl;
    try (exfalso; lia); by rewrite !lookup_insert_ne.
Qed.

(** Before the grade loop the three grade fields still hold [None]. *)
Lemma before_grade_none (soup : node) (k : string) :
  k ∈ ["grade_text"; "grade_raw"; "grade_max"] ->
  (<["files" := VList (attached_files soup)]>
     (fold_left status_row_step (status_table_rows soup)
        (fold_left date_row_step (date_rows soup)
           (fold_left activity_date_step (activity_dates_divs soup) (@META0 F))))) !! k
  = Some VNone.
Proof.
  intros Hk.
  assert (Hd : k = "grade_text" \/ k = "grade_raw" \/ k = "grade_max") by set_solver.
  assert (Hs : k ∉ STATUS_FIELDS) by (destruct Hd as [-> | [-> | ->]]; set_solver).
  assert (Hn : k <> "files" /\ k <> "start_at" /\ k <> "due_at" /\ k <> "cutoff_at")
    by (destruct Hd as [-> | [-> | ->]]; done).
  destruct Hn as (N1 & N2 & N3 & N4).
  rewrite lookup_insert_ne by done.
  apply fold_keeps; [intros m n; by apply status_row_step_other|].
  apply fold_keeps.
  { intros m n H. unfold date_row_step.
    repeat (match goal with |- context [if ?c then _ else _] => destruct c end);
      rewrite ?lookup_insert_ne by done; done. }
  apply fold_keeps.
  { intros m n H. unfold activity_date_step.
    destruct (find "strong" n); [|done].
    repeat (match goal with |- context [if ?c then _ else _] => destruct c end);
      rewrite ?lookup_insert_ne by done; done. }
  destruct Hd as [-> | [-> | ->]]; reflexivity.
Qed.

End GradeFacts.

Section AssignClaims.
Context {F : Type} (pyfloat : pystr -> option F).

(** C1 (as amended).  In [parse_assign_page] the three date fields
    [start_at], [due_at] and [cutoff_at] are first-writer-wins: once one of
    them holds a text, after any number of the [.activity-dates] entries or
    after any number of the date rows, that text is its final value,
    whatever the later entries, rows and steps are.  The five status
    fields come from the status table alone and every matching row
    assigns its field unconditionally, so the last row that writes a
    field decides it. *)
Theorem date_fields_first_writer_status_fields_last (soup : node) :
  (forall k v, k ∈ DATE_FIELDS ->
     (forall divs1 divs2,
        activity_dates_divs soup = divs1 ++ divs2 ->
        fold_left activity_date_step divs1 (@META0 F) !! k = Some (VStr v) ->
        assign_meta pyfloat soup !! k = Some (VStr v))
     /\ (forall rows1 rows2,
           date_rows soup = rows1 ++ rows2 ->
           fold_left date_row_step rows1
             (fold_left activity_date_step (activity_dates_divs soup) (@META0 F)) !! k
           = Some (VStr v) ->
           assign_meta pyfloat soup !! k = Some (VStr v)))
  /\ (forall rows1 row rows2 f w,
        status_table_rows soup = rows1 ++ row :: rows2 ->
        status_write row = Some (f, w) ->
        Forall (fun r => forall w', status_write r <> Some (f, w')) rows2 ->
        assign_meta pyfloat soup !! f = Some (VStr w)).
Proof.
  split.
  - intros k v Hk. split.
    + intros divs1 divs2 Hd H. unfold assign_meta.
      apply after_dates_keeps; [done|].
      apply fold_keeps; [intros m n; apply date_row_step_keeps|].
      rewrite Hd, fold_left_app.
      apply fold_keeps; [intros m n; apply activity_date_step_keeps | exact H].
    + intros rows1 rows2 Hr H. unfold assign_meta.
      apply after_dates_keeps; [done|].
      rewrite Hr, fold_left_app.
      apply fold_keeps; [intros m n; apply date_row_step_keeps | exact H].
  - intros rows1 row rows2 f w Hr Hw Hrest. unfold assign_meta.
    pose proof (status_write_field _ _ _ Hw) as Hf.
    assert (Hg : f ∉ ["grade_text"; "grade_raw"; "grade_max"]).
    { unfold STATUS_FIELDS in Hf. set_solver. }
    assert (Hfiles : f <> "files") by (unfold STATUS_FIELDS in Hf; set_solver).
    apply grade_loop_other; [exact Hg|].
    rewrite lookup_insert_ne by done.
    rewrite Hr. by apply status_rows_last.
Qed.

(** C6.  The text of the first grade row's cell is stored verbatim as
    [grade_text].  When it has exactly one slash, so that it splits into
    two parts, [grade_raw] is [float] of the normalised left part and
    [grade_max] is [float] of the normalised right part, each on its own:
    a part that is not a number gives [None] for that side only.  With
    any other number of slashes both stay [None].  The normalised text has
    no space, no no-break space and no comma.  In particular the text
    [7,00 / 10,00] gives [float] of [7.00] and of [10.00], and [Passed]
    gives no numbers. *)
Theorem grade_parsing (soup : node) (pre post : list node) (row : node) (g : pystr) :
  feedback_rows soup = pre ++ row :: post ->
  Forall (fun r => grade_cell r = None) pre ->
  grade_cell row = Some g ->
  let meta := assign_meta pyfloat soup in
  meta !! "grade_text" = Some (VStr g)
  /\ (forall a b, g = a ++ 0x2F :: b -> 0x2F ∉ a -> 0x2F ∉ b ->
        meta !! "grade_raw" = Some (float_val (pyfloat (number_text a)))
        /\ meta !! "grade_max" = Some (float_val (pyfloat (number_text b))))
  /\ (count_char 0x2F g <> 1%nat ->
        meta !! "grade_raw" = Some VNone /\ meta !! "grade_max" = Some VNone)
  /\ (forall t, _normalize_number pyfloat t = pyfloat (number_text t)
                /\ Forall (fun c => c <> SPACE /\ c <> NBSP /\ c <> 0x2C) (number_text t))
  /\ (g = str "7,00 / 10,00" ->
        meta !! "grade_raw" = Some (float_val (pyfloat (str "7.00")))
        /\ meta !! "grade_max" = Some (float_val (pyfloat (str "10.00"))))
  /\ (g = str "Passed" ->
        meta !! "grade_raw" = Some VNone /\ meta !! "grade_max" = Some VNone).
Proof.
  intros Hrows Hpre Hrow meta.
  assert (Hm : meta = store_grade pyfloat
                 (<["files" := VList (attached_files soup)]>
                    (fold_left status_row_step (status_table_rows soup)
                       (fold_left date_row_step (date_rows soup)
                          (fold_left activity_date_step (activity_dates_divs soup) META0)))) g).
  { subst meta. unfold assign_meta. rewrite Hrows. by apply grade_loop_first. }
  assert (Htwo : forall a b, g = a ++ 0x2F :: b -> 0x2F ∉ a -> 0x2F ∉ b ->
            meta !! "grade_raw" = Some (float_val (pyfloat (number_text a)))
            /\ meta !! "grade_max" = Some (float_val (pyfloat (number_text b)))).
  { intros a b -> Ha Hb. rewrite Hm. by apply store_grade_two. }
  assert (Hnot : count_char 0x2F g <> 1%nat ->
            meta !! "grade_raw" = Some VNone /\ meta !! "grade_max" = Some VNone).
  { intros Hc. rewrite Hm.
    destruct (store_grade_not_two pyfloat
                (<["files" := VList (attached_files soup)]>
                   (fold_left status_row_step (status_table_rows soup)
                      (fold_left date_row_step (date_rows soup)
                         (fold_left activity_date_step (activity_dates_divs soup) META0))))
                g Hc) as [-> ->].
    split; apply before_grade_none; set_solver. }
  split; [rewrite Hm; apply store_grade_text|].
  split; [exact Htwo|]. split; [exact Hnot|].
  split; [intros t; split; [apply normalize_number_text | apply number_text_clean]|].
  split.
  - intros ->. apply (Htwo (str "7,00 ") (str " 10,00")); [reflexivity| |]; compute_done.
  - intros ->. apply Hnot. by vm_compute.
Qed.

(** C8.  When opening the assignment URL raises, [parse_assign_page]
    returns normally, and what it returns is the empty record: every
    metadata field reads as [None] through [get], and the list of files
    the caller takes from it is empty. *)
Theorem parse_assign_page_navigation_failure (page : browser) (url : pystr) (e : exn) :
  page url = Raised e ->
  exists meta : gmap string (pyval F),
    parse_assign_page pyfloat page url = Ok meta
    /\ meta = ∅
    /\ (forall k, k ∈ META_FIELDS -> dict_get meta k = VNone)
    /\ files_to_download meta = [].
Proof.
  intros H. exists ∅. unfold parse_assign_page. rewrite H.
  split; [done|]. split; [done|]. split; [|done].
  intros k _. unfold dict_get. by rewrite lookup_empty.
Qed.

End AssignClaims.

Lemma date_fields_first_writer_status_fields_last_witness :
  assign_meta plain_float assign_page !! "due_at" = Some (VStr (str "15 March 2024, 23:59"))
  /\ assign_meta plain_float assign_page !! "attempt" = Some (VStr (str "This is attempt 2.")).
Proof.
  pose proof (date_fields_first_writer_status_fields_last plain_float assign_page) as [Hd Hs].
  split.
  - assert (Hk : "due_at" ∈ DATE_FIELDS) by (unfold DATE_FIELDS; set_solver).
    destruct (Hd "due_at" (str "15 March 2024, 23:59") Hk) as [H _].
    exact (H (activity_dates_divs assign_page) [] eq_refl eq_refl).
  - exact (Hs (take 3 (status_table_rows assign_page))
              (tr [th "Спроба номер"; td "This is attempt 2."]) []
              "attempt" (str "This is attempt 2.") eq_refl eq_refl (List.Forall_nil _)).
Defined.

(** C1 as stated fails for the status fields: the first row of the status
    table sets [attempt], and a later row with the same label replaces
    it. *)
Lemma attempt_field_overwritten :
  fold_left status_row_step (take 1 (status_table_rows assign_page)) (@META0 (Z * nat))
    !! "attempt" = Some (VStr (str "This is attempt 1."))
  /\ assign_meta plain_float assign_page !! "attempt" = Some (VStr (str "This is attempt 2.")).
Proof. split; reflexivity. Qed.

Lemma grade_parsing_witness :
  assign_meta plain_float assign_page !! "grade_text" = Some (VStr (str "7,00 / 10,00"))
  /\ assign_meta plain_float assign_page !! "grade_raw" = Some (VFloat (7%Z, 0%nat))
  /\ assign_meta plain_float assign_page !! "grade_max" = Some (VFloat (10%Z, 0%nat))
  /\ assign_meta plain_float passed_page !! "grade_text" = Some (VStr (str "Passed"))
  /\ assign_meta plain_float passed_page !! "grade_raw" = Some VNone
  /\ assign_meta plain_float passed_page !! "grade_max" = Some VNone.
Proof.
  pose proof (grade_parsing plain_float assign_page []  []
                (tr [th "Оцінка"; td "7,00 / 10,00"]) (str "7,00 / 10,00")
                eq_refl (List.Forall_nil _) eq_refl) as (H1 & _ & _ & _ & H5 & _).
  pose proof (grade_parsing plain_float passed_page []  []
                (tr [th "Оцінка"; td "Passed"]) (str "Passed")
                eq_refl (List.Forall_nil _) eq_refl) as (P1 & _ & _ & _ & _ & P6).
  destruct (H5 eq_refl) as [H5a H5b]. destruct (P6 eq_refl) as [P6a P6b].
  repeat split; assumption.
Defined.

Lemma parse_assign_page_navigation_failure_witness :
  exists meta : gmap string (pyval (Z * nat)),
    parse_assign_page plain_float assign_browser (str "https://moodle.elct.lnu.edu.ua/mod/assign/view.php?id=404")
    = Ok meta
    /\ meta = ∅
    /\ (forall k, k ∈ META_FIELDS -> dict_get meta k = VNone)
    /\ files_to_download meta = [].
Proof.
  exact (parse_assign_page_navigation_failure plain_float assign_browser
           (str "https://moodle.elct.lnu.edu.ua/mod/assign/view.php?id=404")
           (Exception (str "Timeout 30000ms exceeded")) eq_refl).
Defined.

(** ** The three URL lists *)

(** Where an element first occurs decides where it stands in the result:
    before it come exactly the distinct elements met before it. *)
Lemma dedup_first_split (l1 l2 : list pystr) (x : pystr) :
  x ∉ l1 ->
  dedup_first (l1 ++ x :: l2)
  = dedup_first l1 ++ x :: filter (fun y => (y ∉ l1) /\ y <> x) (dedup_first l2).
Proof.
  intros Hx. rewrite <- !fold_append_new_nil, fold_left_app. simpl.
  rewrite !fold_append_new_nil. unfold append_new.
  rewrite bool_decide_eq_false_2 by (by rewrite dedup_first_elem).
  rewrite fold_append_new_dedup, <- app_assoc. simpl. do 2 f_equal.
  apply list_filter_iff. intros y.
  rewrite elem_of_app, list_elem_of_singleton, dedup_first_elem. tauto.
Qed.

Lemma attached_files_dedup (soup : node) : attached_files soup = dedup_first (targets_at soup).
Proof. unfold attached_files, targets_at. by rewrite fold_add_anchor, fold_append_new_nil. Qed.

(** C2 (as amended).  Each of the three URL collections returns its
    candidates with the later repetitions removed: no entry occurs twice,
    and the entries stand in the order in which the operation first meets
    them.  For the attached files that is the order of the matching anchors
    in the page.  For the scan of [collect_activity_files] it is all anchors
    in page order followed by all media elements in page order.  For
    [parse_folder_tree] it is the tree roots in the order the loops reach
    them, the anchors below each root in page order. *)
Theorem url_lists_first_occurrence (soup : node) :
  (parse_folder_tree soup = Some (dedup_first (folder_candidates soup))
   /\ scan_pluginfile soup = dedup_first (scan_candidates soup)
   /\ attached_files soup = dedup_first (targets_at soup))
  /\ (NoDup (default [] (parse_folder_tree soup))
      /\ NoDup (scan_pluginfile soup)
      /\ NoDup (attached_files soup))
  /\ (forall l : list pystr,
        NoDup (dedup_first l)
        /\ (forall x, x ∈ dedup_first l <-> x ∈ l)
        /\ (forall l1 x l2, l = l1 ++ x :: l2 -> x ∉ l1 ->
              dedup_first l
              = dedup_first l1 ++ x :: filter (fun y => (y ∉ l1) /\ y <> x) (dedup_first l2))).
Proof.
  split; [|split].
  - split; [apply parse_folder_tree_closed|].
    split; [apply scan_pluginfile_dedup | apply attached_files_dedup].
  - rewrite parse_folder_tree_closed, scan_pluginfile_dedup, attached_files_dedup.
    repeat split; apply dedup_first_NoDup.
  - intros l. split; [apply dedup_first_NoDup|]. split; [apply dedup_first_elem|].
    intros l1 x l2 -> Hx. by apply dedup_first_split.
Qed.

Lemma url_lists_first_occurrence_witness :
  scan_pluginfile picture_then_link_page = dedup_first (scan_candidates picture_then_link_page)
  /\ NoDup (attached_files assign_page)
  /\ dedup_first ([str "a.pdf"] ++ str "b.pdf" :: [str "a.pdf"; str "c.pdf"])
     = [str "a.pdf"; str "b.pdf"; str "c.pdf"].
Proof.
  split; [exact (proj1 (proj2 (proj1 (url_lists_first_occurrence picture_then_link_page))))|].
  split; [exact (proj2 (proj2 (proj1 (proj2 (url_lists_first_occurrence assign_page)))))|].
  pose proof (proj2 (proj2 (url_lists_first_occurrence assign_page))
                ([str "a.pdf"] ++ str "b.pdf" :: [str "a.pdf"; str "c.pdf"]))
    as (_ & _ & H).
  rewrite (H [str "a.pdf"] (str "b.pdf") [str "a.pdf"; str "c.pdf"] eq_refl);
    [reflexivity|].
  intros Hin. apply list_elem_of_singleton in Hin. discriminate Hin.
Defined.

(** C2 as stated fails for the scan of [collect_activity_files]: a picture
    that stands before a link in the page comes after it in the result,
    because the anchors are scanned first. *)
Lemma scan_not_in_page_order :
  scan_pluginfile picture_then_link_page
  = [str "https://moodle.elct.lnu.edu.ua/pluginfile.php/9/mod_page/content/1/notes.pdf";
     str "https://moodle.elct.lnu.edu.ua/pluginfile.php/9/mod_page/content/1/scheme.png"]
  /\ dedup_first (page_order_candidates picture_then_link_page)
     = [str "https://moodle.elct.lnu.edu.ua/pluginfile.php/9/mod_page/content/1/scheme.png";
        str "https://moodle.elct.lnu.edu.ua/pluginfile.php/9/mod_page/content/1/notes.pdf"]
  /\ scan_pluginfile picture_then_link_page
     <> dedup_first (page_order_candidates picture_then_link_page).
Proof. split; [reflexivity|]. split; [reflexivity|]. discriminate. Qed.

(** ** Names from the response header *)

Lemma split_app (sep : N) (a b : pystr) :
  split sep (a ++ sep :: b) = split sep a ++ split sep b.
Proof.
  induction a as [|c a IH]; simpl.
  - by rewrite N.eqb_refl.
  - destruct (c =? sep); [by rewrite IH|].
    rewrite IH. destruct (split sep a) as [|p ps] eqn:E; [|done].
    pose proof (split_length sep a) as Hl. by rewrite E in Hl.
Qed.

(** The last part of a split is what follows the last separator. *)
Lemma last_part_split (sep : N) (s : pystr) :
  exists pre, s = pre ++ last_part (split sep s)
              /\ (sep ∉ last_part (split sep s))
              /\ (pre = [] \/ exists pre', pre = pre' ++ [sep]).
Proof.
  destruct (decide (sep ∈ s)) as [Hin|Hnin].
  - apply list_elem_of_split_r in Hin as (l1 & l2 & -> & Hl2).
    exists (l1 ++ [sep]). rewrite split_app, (split_no_sep _ _ Hl2).
    unfold last_part. rewrite last_last. rewrite <- app_assoc.
    split; [done|]. split; [done|]. right. by exists l1.
  - exists []. rewrite (split_no_sep _ _ Hnin). by split; [|split; [|left]].
Qed.

(** [strip_path] keeps what follows the last slash or backslash. *)
Lemma strip_path_spec (fname : pystr) :
  exists pre, fname = pre ++ strip_path fname
              /\ Forall (fun c => is_slash c = false) (strip_path fname)
              /\ (pre = [] \/ exists pre' c, pre = pre' ++ [c] /\ is_slash c = true).
Proof.
  unfold strip_path.
  destruct (last_part_split 0x2F fname) as (pre1 & H1 & N1 & P1).
  set (l1 := last_part (split 0x2F fname)) in *.
  destruct (last_part_split 0x5C l1) as (pre2 & H2 & N2 & P2).
  set (l2 := last_part (split 0x5C l1)) in *.
  exists (pre1 ++ pre2). split; [by rewrite <- app_assoc, <- H2|]. split.
  - apply Forall_forall. intros c Hc. unfold is_slash.
    destruct (N.eqb_spec c 0x2F) as [->|?].
    + exfalso. apply N1. rewrite H2. apply elem_of_app. by right.
    + destruct (N.eqb_spec c 0x5C) as [->|?]; [done|done].
  - destruct P2 as [->|(p & ->)].
    + rewrite app_nil_r. destruct P1 as [->|(p & ->)]; [by left|].
      right. by exists p, 0x2F.
    + right. exists (pre1 ++ p), 0x5C. by rewrite app_assoc.
Qed.

Lemma utf8_decode1_low (s : list N) (c : N) (used : nat) :
  utf8_decode1 s = Decoded c used -> c < 0x80 -> exists t, s = c :: t.
Proof.
  unfold utf8_decode1, is_cont. destruct s as [|ch t]; [done|].
  destruct (N.ltb_spec ch 0x80) as [?|H1]; [intros [= <- _] _; by exists t|].
  destruct (N.ltb_spec ch 0xE0) as [?|H2].
  { destruct (N.ltb_spec ch 0xC2); [done|]. destruct t as [|ch2 t]; [done|].
    destruct (N.leb_spec 0x80 ch2), (N.ltb_spec ch2 0xC0); simpl; try done.
    intros [= <- _]. lia. }
  destruct (N.ltb_spec ch 0xF0) as [?|H3].
  { destruct t as [|ch2 t]; [done|].
    destruct (N.leb_spec 0x80 ch2), (N.ltb_spec ch2 0xC0); simpl; try done.
    destruct (N.ltb_spec ch2 0xA0), (N.eqb_spec ch 0xE0), (N.eqb_spec ch 0xED); try done;
      (destruct t as [|ch3 t]; [done|]);
      destruct (N.leb_spec 0x80 ch3), (N.ltb_spec ch3 0xC0); simpl; try done;
      intros [= <- _]; lia. }
  destruct (N.ltb_spec ch 0xF5) as [?|H4]; [|done].
  destruct t as [|ch2 t]; [done|].
  destruct (N.leb_spec 0x80 ch2), (N.ltb_spec ch2 0xC0); simpl; try done.
  destruct (N.ltb_spec ch2 0x90), (N.eqb_spec ch 0xF0), (N.eqb_spec ch 0xF4); try done;
    (destruct t as [|ch3 t]; [done|]);
    destruct (N.leb_spec 0x80 ch3), (N.ltb_spec ch3 0xC0); simpl; try done;
    (destruct t as [|ch4 t]; [done|]);
    destruct (N.leb_spec 0x80 ch4), (N.ltb_spec ch4 0xC0); simpl; try done;
    intros [= <- _]; lia.
Qed.

Lemma utf8_decode_loop_low (fuel : nat) (bs : list N) (s : pystr) (c : N) :
  utf8_decode_loop fuel false bs = Some s -> c ∈ s -> c < 0x80 -> c ∈ bs.
Proof.
  revert bs s. induction fuel as [|fuel IH]; intros bs s.
  - destruct bs; [intros [= <-] ?%elem_of_nil; done | done].
  - destruct bs as [|b bs']; [intros [= <-] ?%elem_of_nil; done|].
    cbn [utf8_decode_loop]. set (l := b :: bs').
    destruct (utf8_decode1 l) as [c0 used| |] eqn:E; [|done|done].
    destruct (utf8_decode_loop fuel false (drop used l)) as [s'|] eqn:E'; [|done].
    intros [= <-] Hc Hlow. apply elem_of_cons in Hc as [->|Hc].
    + destruct (utf8_decode1_low _ _ _ E Hlow) as [t ->]. by left.
    + specialize (IH _ _ E' Hc Hlow).
      rewrite <- (take_drop used l). apply elem_of_app. by right.
Qed.

Lemma fix_encoding_low (s : pystr) (c : N) : c ∈ fix_encoding s -> c < 0x80 -> c ∈ s.
Proof.
  unfold fix_encoding. destruct (negb (truthy s)); [done|].
  destruct (existsb _ ARTIFACTS); [|done].
  unfold latin1_encode. destruct (forallb _ s); [|done].
  destruct (utf8_decode_strict s) as [fixed|] eqn:E; [|done].
  intros Hc Hlow. by apply (utf8_decode_loop_low _ _ _ _ E).
Qed.

(** ** The patterns *)

Lemma matches_lit_ci_none (kw s : pystr) :
  starts_ci kw s = false -> matches (lit_ci kw) s = [].
Proof.
  revert s. induction kw as [|p kw IH]; intros s; [done|].
  destruct s as [|c s]; [done|]. simpl.
  destruct (ci p c); simpl; [|done].
  intros H. by rewrite (IH _ H).
Qed.

Lemma starts_ci_app (kw more s : pystr) :
  starts_ci kw s = false -> starts_ci (kw ++ more) s = false.
Proof.
  revert s. induction kw as [|p kw IH]; intros s; [done|].
  destruct s as [|c s]; [done|]. simpl.
  destruct (ci p c); simpl; [apply IH | done].
Qed.

Lemma contains_ci_app (kw more s : pystr) :
  contains_ci kw s = false -> contains_ci (kw ++ more) s = false.
Proof.
  induction s as [|c s IH]; simpl.
  - rewrite !orb_false_r. apply starts_ci_app.
  - intros [H1 H2]%orb_false_iff. by rewrite (starts_ci_app _ _ _ H1), (IH H2).
Qed.

(** A pattern that opens with a literal finds nothing in a text that lacks
    the literal. *)
Lemma search_lit_none (kw : pystr) (rs : list regex) (s : pystr) :
  contains_ci kw s = false -> search (seq (lit_ci kw :: rs)) s = None.
Proof.
  induction s as [|c s IH]; simpl.
  - rewrite orb_false_r. intros H. by rewrite (matches_lit_ci_none _ _ H).
  - intros [H1 H2]%orb_false_iff. rewrite (matches_lit_ci_none _ _ H1). simpl.
    by apply IH.
Qed.

Lemma header_name_needs_keyword (cd : pystr) :
  contains_ci (str "filename") cd = false -> header_name cd = None.
Proof.
  intros H. unfold header_name, RE_EXTENDED, RE_QUOTED, RE_PLAIN.
  rewrite (search_lit_none (str "filename*")), !(search_lit_none (str "filename")); try done.
  by apply (contains_ci_app (str "filename") (str "*")).
Qed.

Lemma content_disposition_no_path (cd : option pystr) (name : pystr) :
  filename_from_content_disposition cd = Some name ->
  name <> [] /\ Forall (fun c => is_slash c = false) name.
Proof.
  unfold filename_from_content_disposition.
  destruct cd as [cd|]; [|done]. destruct (negb (truthy cd)); [done|].
  destruct (header_name (strip cd)) as [fname|]; [|done].
  destruct (truthy (fix_encoding (strip_path fname))) eqn:Et; [|done].
  intros [= <-]. split; [by destruct (fix_encoding (strip_path fname))|].
  destruct (strip_path_spec fname) as (pre & _ & Hclean & _).
  apply Forall_forall. intros c Hc.
  destruct (is_slash c) eqn:Es; [|done].
  assert (Hlow : c < 0x80).
  { unfold is_slash in Es. apply orb_true_iff in Es as [->%N.eqb_eq | ->%N.eqb_eq]; lia. }
  pose proof (fix_encoding_low _ _ Hc Hlow) as Hin.
  rewrite Forall_forall in Hclean. by rewrite (Hclean c Hin) in Es.
Qed.

(** ** What the patterns capture *)

Lemma keep_None_l (c : option pystr) : keep None c = c.
Proof. by destruct c. Qed.

Lemma matches_cat (r1 r2 : regex) (s : pystr) (c : option pystr) (rest : pystr) :
  (c, rest) ∈ matches (Cat r1 r2) s ->
  exists c1 mid c2, (c1, mid) ∈ matches r1 s /\ (c2, rest) ∈ matches r2 mid /\ c = keep c1 c2.
Proof.
  cbn [matches]. intros ([c1 mid] & H1 & H2)%elem_of_flat_map.
  apply list_elem_of_fmap in H2 as ([c2 rest'] & [= -> ->] & H2). by exists c1, mid, c2.
Qed.

Lemma matches_chr (p : N -> bool) (s : pystr) (c : option pystr) (rest : pystr) :
  (c, rest) ∈ matches (Chr p) s -> c = None /\ exists x, s = x :: rest /\ p x = true.
Proof.
  cbn [matches]. destruct s as [|x s]; [by intros ?%elem_of_nil|].
  destruct (p x) eqn:E; [|by intros ?%elem_of_nil].
  intros [= -> ->]%list_elem_of_singleton. split; [done | by exists x].
Qed.

Lemma star_matches_chr (p : N -> bool) (fuel : nat) (s : pystr) (c : option pystr)
    (rest : pystr) :
  (c, rest) ∈ star_matches (matches (Chr p)) fuel s ->
  c = None /\ exists g, s = g ++ rest /\ Forall (fun x => p x = true) g.
Proof.
  revert s c. induction fuel as [|fuel IH]; intros s c; cbn [star_matches].
  - intros [= -> ->]%list_elem_of_singleton. split; [done | by exists []].
  - rewrite elem_of_app. intros [H|H].
    + apply elem_of_flat_map in H as ([c1 mid] & H1 & H2).
      apply matches_chr in H1 as (-> & x & -> & Hx).
      destruct (length mid <? length (x :: mid))%nat; [|by apply elem_of_nil in H2].
      apply list_elem_of_fmap in H2 as ([c2 rest'] & [= -> ->] & H2).
      apply IH in H2 as (-> & g & -> & Hg). split; [done|].
      exists (x :: g). split; [done | by constructor].
    + apply list_elem_of_singleton in H as [= -> ->]. split; [done | by exists []].
Qed.

Lemma matches_star_chr (p : N -> bool) (s : pystr) (c : option pystr) (rest : pystr) :
  (c, rest) ∈ matches (Star (Chr p)) s ->
  c = None /\ exists g, s = g ++ rest /\ Forall (fun x => p x = true) g.
Proof. apply star_matches_chr. Qed.

Lemma matches_plus_chr (p : N -> bool) (s : pystr) (c : option pystr) (rest : pystr) :
  (c, rest) ∈ matches (Plus (Chr p)) s ->
  exists g, s = g ++ rest /\ g <> [] /\ Forall (fun x => p x = true) g.
Proof.
  intros (c1 & mid & c2 & H1 & H2 & _)%matches_cat.
  apply matches_chr in H1 as (_ & x & -> & Hx).
  apply matches_star_chr in H2 as (_ & g & -> & Hg).
  exists (x :: g). split; [done|]. split; [done | by constructor].
Qed.

Lemma matches_group_plus (p : N -> bool) (s : pystr) (c : option pystr) (rest : pystr) :
  (c, rest) ∈ matches (Group (Plus (Chr p))) s ->
  exists g, c = Some g /\ s = g ++ rest /\ g <> [] /\ Forall (fun x => p x = true) g.
Proof.
  cbn [matches]. intros ([c' rest'] & [= -> ->] & H)%list_elem_of_fmap.
  apply (matches_plus_chr p s c' rest') in H as (g & -> & Hne & Hg).
  exists g. split; [|done]. f_equal. rewrite length_app.
  replace (length g + length rest' - length rest')%nat with (length g) by lia.
  by rewrite take_app_length.
Qed.

Lemma matches_lit_ci (kw s : pystr) (c : option pystr) (rest : pystr) :
  (c, rest) ∈ matches (lit_ci kw) s ->
  c = None /\ exists word, s = word ++ rest /\ spelled kw word.
Proof.
  revert s c. induction kw as [|k kw IH]; intros s c.
  - cbn [lit_ci foldr matches]. intros [= -> ->]%list_elem_of_singleton.
    split; [done|]. by exists [].
  - change (lit_ci (k :: kw)) with (Cat (Chr (ci k)) (lit_ci kw)).
    intros (c1 & mid & c2 & H1 & H2 & ->)%matches_cat.
    apply matches_chr in H1 as (-> & x & -> & Hx).
    apply IH in H2 as (-> & word & -> & Hl & Hs). split; [done|].
    exists (x :: word). split; [done|]. split; [simpl; by rewrite Hl|].
    simpl. by rewrite Hx.
Qed.

Lemma search_Some (r : regex) (s g : pystr) :
  search r s = Some g ->
  exists pre s' c rest, s = pre ++ s' /\ (c, rest) ∈ matches r s' /\ g = default [] c.
Proof.
  induction s as [|x s IH]; cbn [search].
  - destruct (matches r []) as [|[c rest] l] eqn:E; [done|]. intros [= <-].
    exists [], [], c, rest. rewrite E. split; [done|]. split; [by left | done].
  - destruct (matches r (x :: s)) as [|[c rest] l] eqn:E.
    + intros (pre & s' & c & rest & -> & Hm & ->)%IH. by exists (x :: pre), s', c, rest.
    + intros [= <-]. exists [], (x :: s), c, rest. rewrite E.
      split; [done|]. split; [by left | done].
Qed.

(** The start the three patterns share: the word, the equals sign between
    optional whitespace. *)
Lemma matches_key (kw : pystr) (r : regex) (s : pystr) (c : option pystr) (rest : pystr) :
  (c, rest) ∈ matches (Cat (lit_ci kw) (Cat (Star (Chr isspace))
                         (Cat (Chr (N.eqb 0x3D)) (Cat (Star (Chr isspace)) r)))) s ->
  exists word ws1 ws2 mid,
    s = word ++ ws1 ++ [0x3D] ++ ws2 ++ mid /\ spelled kw word
    /\ Forall (fun x => isspace x = true) ws1 /\ Forall (fun x => isspace x = true) ws2
    /\ (c, rest) ∈ matches r mid.
Proof.
  intros (c1 & m1 & c2 & H1 & H2 & ->)%matches_cat.
  apply matches_lit_ci in H1 as (-> & word & -> & Hw).
  apply matches_cat in H2 as (c3 & m2 & c4 & H2 & H3 & ->).
  apply matches_star_chr in H2 as (-> & ws1 & -> & Hws1).
  apply matches_cat in H3 as (c5 & m3 & c6 & H3 & H4 & ->).
  apply matches_chr in H3 as (-> & x & -> & Hx%N.eqb_eq). subst x.
  apply matches_cat in H4 as (c7 & m4 & c8 & H4 & H5 & ->).
  apply matches_star_chr in H4 as (-> & ws2 & -> & Hws2).
  rewrite !keep_None_l. exists word, ws1, ws2, m4.
  split; [done|]. split; [done|]. split; [done|]. by split.
Qed.

Lemma search_quoted (cd g : pystr) :
  search RE_QUOTED cd = Some g ->
  g <> [] /\ (QUOTE ∉ g)
  /\ exists pre word ws1 ws2 post,
       cd = pre ++ word ++ ws1 ++ [0x3D] ++ ws2 ++ [QUOTE] ++ g ++ [QUOTE] ++ post
       /\ spelled (str "filename") word
       /\ Forall (fun x => isspace x = true) ws1 /\ Forall (fun x => isspace x = true) ws2.
Proof.
  intros (pre & s' & c & rest & -> & Hm & ->)%search_Some.
  apply matches_key in Hm as (word & ws1 & ws2 & mid & -> & Hw & H1 & H2 & Hm).
  apply matches_cat in Hm as (c1 & m1 & c2 & Hq & Hm & ->).
  apply matches_chr in Hq as (-> & x & -> & Hx%N.eqb_eq). subst x.
  apply matches_cat in Hm as (c3 & m2 & c4 & Hg & Hm & ->).
  apply matches_group_plus in Hg as (g & -> & -> & Hne & Hg).
  apply matches_cat in Hm as (c5 & m3 & c6 & Hq & He & ->).
  apply matches_chr in Hq as (-> & x & -> & Hx%N.eqb_eq). subst x.
  cbn [matches] in He. apply list_elem_of_singleton in He as [= -> ->].
  cbn [keep default]. split; [done|]. split.
  - intros Hin. rewrite Forall_forall in Hg. specialize (Hg _ Hin).
    by rewrite N.eqb_refl in Hg.
  - exists pre, word, ws1, ws2. eexists. split; [reflexivity|]. by split; [|split].
Qed.

Lemma search_plain (cd g : pystr) :
  search RE_PLAIN cd = Some g ->
  g <> [] /\ (SEMICOLON ∉ g)
  /\ exists pre word ws1 ws2 post,
       cd = pre ++ word ++ ws1 ++ [0x3D] ++ ws2 ++ g ++ post
       /\ spelled (str "filename") word
       /\ Forall (fun x => isspace x = true) ws1 /\ Forall (fun x => isspace x = true) ws2.
Proof.
  intros (pre & s' & c & rest & -> & Hm & ->)%search_Some.
  apply matches_key in Hm as (word & ws1 & ws2 & mid & -> & Hw & H1 & H2 & Hm).
  apply matches_cat in Hm as (c3 & m2 & c4 & Hg & He & ->).
  apply matches_group_plus in Hg as (g & -> & -> & Hne & Hg).
  cbn [matches] in He. apply list_elem_of_singleton in He as [= -> ->].
  cbn [keep default]. split; [done|]. split.
  - intros Hin. rewrite Forall_forall in Hg. specialize (Hg _ Hin).
    by rewrite N.eqb_refl in Hg.
  - exists pre, word, ws1, ws2. eexists. split; [reflexivity|]. by split; [|split].
Qed.

Lemma search_extended (cd g : pystr) :
  search RE_EXTENDED cd = Some g ->
  g <> [] /\ (SEMICOLON ∉ g)
  /\ exists pre word ws1 ws2 enc post,
       cd = pre ++ word ++ ws1 ++ [0x3D] ++ ws2 ++ enc ++ g ++ post
       /\ spelled (str "filename*") word /\ spelled (str "UTF-8''") enc
       /\ Forall (fun x => isspace x = true) ws1 /\ Forall (fun x => isspace x = true) ws2.
Proof.
  intros (pre & s' & c & rest & -> & Hm & ->)%search_Some.
  apply matches_key in Hm as (word & ws1 & ws2 & mid & -> & Hw & H1 & H2 & Hm).
  apply matches_cat in Hm as (c1 & m1 & c2 & Hq & Hm & ->).
  apply matches_lit_ci in Hq as (-> & enc & -> & Henc).
  apply matches_cat in Hm as (c3 & m2 & c4 & Hg & He & ->).
  apply matches_group_plus in Hg as (g & -> & -> & Hne & Hg).
  cbn [matches] in He. apply list_elem_of_singleton in He as [= -> ->].
  cbn [keep default]. split; [done|]. split.
  - intros Hin. rewrite Forall_forall in Hg. specialize (Hg _ Hin).
    by rewrite N.eqb_refl in Hg.
  - exists pre, word, ws1, ws2, enc. eexists. split; [reflexivity|].
    by split; [|split; [|split]].
Qed.



(* ================================================================== *)
(** * Further properties of the code                                   *)
(* ================================================================== *)

(** ** [safe_name]: what it keeps and what it never adds *)

Lemma replace_char_absent (old : N) (new s : pystr) :
  old ∉ s -> replace_char old new s = s.
Proof.
  unfold replace_char. induction s as [|c s IH]; intros H; [done|].
  apply not_elem_of_cons in H as [Hc Hs]. simpl.
  rewrite (proj2 (N.eqb_neq c old)) by congruence. simpl. by rewrite (IH Hs).
Qed.

Lemma re_sub_class_absent (cls : N -> bool) (repl s : pystr) :
  Forall (fun c => cls c = false) s -> re_sub_class cls repl s = s.
Proof.
  unfold re_sub_class. induction 1 as [|c s Hc _ IH]; [done|].
  simpl. rewrite Hc. simpl. by rewrite IH.
Qed.

Lemma re_sub_ws_runs_collapsed (b : bool) (s : pystr) :
  Forall (fun c => isspace c = true -> c = SPACE) s ->
  ws_collapsed s = true ->
  (b = true -> match s with c :: _ => isspace c = false | [] => True end) ->
  re_sub_ws_runs b s = s.
Proof.
  revert b. induction s as [|c s IH]; intros b Fa W Hb; [done|].
  inversion Fa as [|? ? Hc Fa']; subst. simpl.
  assert (W' : ws_collapsed s = true).
  { destruct s as [|c2 s]; [done|]. simpl in W. by apply andb_true_iff in W as [_ ?]. }
  destruct (isspace c) eqn:Ec.
  - destruct b; [pose proof (Hb eq_refl) as Hb'; simpl in Hb'; congruence|].
    pose proof (Hc eq_refl) as ->. f_equal. apply IH; [done|done|].
    intros _. destruct s as [|c2 s]; [done|]. simpl in W.
    apply andb_true_iff in W as [W1 _].
    destruct (isspace c2); [by vm_compute in W1 | done].
  - f_equal. apply IH; [done|done|discriminate].
Qed.

(** X1.  A name that is already clean is left as it is: when the name is
    not empty, has no whitespace at either end, holds no separator and none
    of the removed characters, has no whitespace other than single plain
    spaces, and fits the cap, [safe_name] returns it unchanged. *)
Theorem safe_name_fixed_point (name : pystr) (max_len : Z) :
  name <> [] ->
  strip name = name ->
  Forall clean_char name ->
  ws_collapsed name = true ->
  (Z.of_nat (length name) <= max_len)%Z ->
  safe_name name max_len = name.
Proof.
  intros Hne Hstrip Fa W Hlen.
  assert (Hs : sanitize name = name).
  { unfold sanitize. rewrite Hstrip.
    rewrite replace_char_absent.
    2:{ intros Hin. rewrite Forall_forall in Fa. destruct (Fa _ Hin) as (_ & _ & Hsp).
        by specialize (Hsp eq_refl). }
    rewrite (re_sub_class_absent is_slash)
      by (eapply Forall_impl; [exact Fa|]; by intros c (? & _)).
    rewrite (re_sub_class_absent is_forbidden)
      by (eapply Forall_impl; [exact Fa|]; by intros c (_ & ? & _)).
    apply re_sub_ws_runs_collapsed; [|done|discriminate].
    eapply Forall_impl; [exact Fa|]. by intros c (_ & _ & ?). }
  unfold safe_name. rewrite Hs. destruct name as [|c name]; [done|]. cbn [truthy].
  destruct (Z.of_nat (length (c :: name)) >? max_len)%Z eqn:E; [|done].
  apply Z.gtb_lt in E. lia.
Qed.

Lemma safe_name_fixed_point_witness :
  safe_name (str "Lecture 1 - intro.pdf") default_max_len = str "Lecture 1 - intro.pdf".
Proof.
  apply safe_name_fixed_point; [discriminate | reflexivity | | reflexivity | by vm_compute].
  repeat (constructor; [by vm_compute|]). constructor.
Defined.

Lemma flat_map_length_le {A B} (f : A -> list B) (l : list A) :
  (forall x, (length (f x) <= 1)%nat) -> (length (flat_map f l) <= length l)%nat.
Proof.
  intros H. induction l as [|a l IH]; simpl; [lia|].
  rewrite length_app. specialize (H a). lia.
Qed.

Lemma re_sub_ws_runs_length (b : bool) (s : pystr) :
  (length (re_sub_ws_runs b s) <= length s)%nat.
Proof.
  revert b. induction s as [|c s IH]; intros b; simpl; [lia|].
  pose proof (IH true). pose proof (IH false).
  destruct (isspace c); [destruct b|]; simpl; lia.
Qed.

Lemma sanitize_length (name : pystr) : (length (sanitize name) <= length name)%nat.
Proof.
  unfold sanitize. etrans; [apply re_sub_ws_runs_length|].
  unfold re_sub_class, replace_char.
  etrans; [apply flat_map_length_le; intros c; destruct (is_forbidden c); simpl; lia|].
  etrans; [apply flat_map_length_le; intros c; destruct (is_slash c); simpl; lia|].
  etrans; [apply flat_map_length_le; intros c; destruct (c =? NBSP); simpl; lia|].
  apply sublist_length, strip_by_sublist.
Qed.

Lemma sanitize_chars (name : pystr) :
  Forall (fun c => c = SPACE \/ c = 0x2D \/ c ∈ name) (sanitize name).
Proof.
  unfold sanitize.
  set (s0 := replace_char NBSP [SPACE] (strip name)).
  set (s1 := re_sub_class is_slash (str "-") s0).
  set (s2 := re_sub_class is_forbidden [] s1).
  destruct (re_sub_ws_runs_spec false s2) as (_ & _ & Fa).
  eapply Forall_impl; [exact Fa|]. intros c [->|[Hc _]]; [by left|].
  apply elem_of_re_sub_class in Hc as [Hc|[Hc _]]; [by apply elem_of_nil in Hc|].
  apply elem_of_re_sub_class in Hc as [Hc|[Hc _]].
  { apply list_elem_of_singleton in Hc as ->. right. by left. }
  apply (elem_of_re_sub_class (fun c => c =? NBSP)) in Hc as [Hc|[Hc _]].
  { apply list_elem_of_singleton in Hc as ->. by left. }
  right. right. eapply elem_of_sublist; [exact Hc | apply strip_by_sublist].
Qed.

Lemma safe_name_prefix (name : pystr) (max_len : Z) :
  safe_name name max_len
  `prefix_of` (if truthy (sanitize name) then sanitize name else str "untitled").
Proof.
  unfold safe_name.
  set (s := if truthy (sanitize name) then sanitize name else str "untitled").
  destruct (Z.of_nat (length s) >? max_len)%Z; [|done].
  etrans; [apply rstrip_by_prefix|]. unfold slice_to.
  destruct (max_len <? 0)%Z; apply prefix_take.
Qed.

(** X2.  [safe_name] only removes and replaces.  Unless the name sanitises
    to nothing (and [untitled] is substituted), the result is no longer
    than the input and each of its characters is a plain space, a hyphen or
    a character of the input. *)
Theorem safe_name_only_removes (name : pystr) (max_len : Z) :
  sanitize name <> [] ->
  (length (safe_name name max_len) <= length name)%nat
  /\ Forall (fun c => c = SPACE \/ c = 0x2D \/ c ∈ name) (safe_name name max_len).
Proof.
  intros Hne. pose proof (safe_name_prefix name max_len) as Hp.
  pose proof (sanitize_length name) as Hl. pose proof (sanitize_chars name) as Hc.
  destruct (sanitize name) as [|c s] eqn:E; [done|]. cbn [truthy] in Hp.
  split.
  - apply prefix_length in Hp. lia.
  - destruct Hp as [k Hk]. rewrite Hk in Hc. by apply Forall_app in Hc as [? _].
Qed.

Lemma safe_name_only_removes_witness :
  (length (safe_name (str "  a/b: c  ") default_max_len) <= length (str "  a/b: c  "))%nat.
Proof.
  apply (safe_name_only_removes (str "  a/b: c  ") default_max_len). by vm_compute.
Defined.

(** ** The URLs the resolver returns *)

Lemma absolutize_usable (h : pystr) : h <> [] -> usable_url (absolutize h).
Proof.
  intros Hne. unfold usable_url, absolutize.
  destruct (startswith (str "/") h) eqn:E; [by split|by split].
Qed.

Lemma targets_at_usable (n : node) (u : pystr) :
  u ∈ targets_at n -> usable_url u /\ contains PLUGINFILE u = true.
Proof.
  unfold targets_at, anchor_targets. rewrite list_elem_of_omap.
  intros (a & Ha & Hu). destruct (get "href" a) as [h|] eqn:Eh; [|done].
  destruct h as [|c h]; [done|]. injection Hu as <-.
  split; [by apply absolutize_usable|].
  rewrite contains_marker_absolutize.
  unfold pluginfile_anchors, select_attr_contains in Ha.
  apply list_elem_of_filter in Ha as [Ha _]. rewrite Eh in Ha.
  apply andb_true_iff in Ha as [_ Ha]. exact Ha.
Qed.

Lemma pluginfile_target_usable (raw : option pystr) (u : pystr) :
  pluginfile_target raw = Some u -> usable_url u /\ contains PLUGINFILE u = true.
Proof.
  unfold pluginfile_target. destruct raw as [v|]; [|done].
  destruct (negb (truthy v)); [done|].
  destruct (is_placeholder (strip v)) eqn:Ep; [done|].
  destruct (contains PLUGINFILE (absolutize (strip v))) eqn:Ec; [|done].
  intros [= <-]. split; [|done]. apply absolutize_usable.
  intros E. rewrite E in Ep. done.
Qed.

Lemma candidate_target_usable (a : node) (u : pystr) :
  candidate_target a = Some u -> usable_url u.
Proof.
  unfold candidate_target. destruct (get "href" a) as [h|]; [|done].
  destruct (negb (truthy h)); [done|].
  destruct (is_placeholder (strip h)) eqn:Ep; [done|].
  intros [= <-]. apply absolutize_usable. intros E. rewrite E in Ep. done.
Qed.

Lemma first_candidate_usable (cands : list node) :
  Forall usable_url (first_candidate cands []).
Proof.
  induction cands as [|a cands IH]; simpl; [constructor|].
  destruct (candidate_target a) as [u|] eqn:E; [|exact IH].
  constructor; [by eapply candidate_target_usable | constructor].
Qed.

(** X3.  [collect_activity_files] asks the browser for at most one page, the
    activity's own.  Its result is empty exactly when the URL is unreachable
    or the navigation raised; once the page has been fetched some URL is
    always returned.  No returned URL is empty or host-relative. *)
Theorem collect_activity_files_result (page : browser) (url : pystr) :
  (snd (collect_activity_files page url) = []
   \/ snd (collect_activity_files page url) = [url])
  /\ (fst (collect_activity_files page url) = []
      <-> unreachable url = true
          \/ (contains PLUGINFILE url = false /\ exists e, page url = Raised e))
  /\ Forall usable_url (fst (collect_activity_files page url)).
Proof.
  unfold collect_activity_files.
  destruct (unreachable url) eqn:Eu.
  { simpl. split; [by left|]. split; [by split; [left|]|constructor]. }
  assert (Hu : usable_url url).
  { unfold unreachable in Eu. apply orb_false_iff in Eu as [Eu Eh].
    apply orb_false_iff in Eu as [Et _].
    apply negb_false_iff in Eh. apply startswith_app in Eh as [t ->]. by split. }
  destruct (contains PLUGINFILE url) eqn:Ec.
  { simpl. split; [by left|]. split.
    - split; [done|]. intros [?|[? _]]; done.
    - by constructor. }
  destruct (page url) as [soup|e] eqn:Ep.
  2:{ simpl. split; [by right|]. split; [|constructor].
      split; [intros _; right; split; [done|by exists e] | done]. }
  assert (Hno : ~ (false = true \/ false = false /\ exists e, @Ok node soup = Raised e)).
  { intros [?|[_ [e ?]]]; done. }
  destruct (match select_one_class "foldertree" soup with
            | Some _ => default [] (parse_folder_tree soup)
            | None => []
            end) as [|t ts] eqn:Et.
  - destruct (scan_pluginfile soup) as [|u us] eqn:Es.
    + pose proof (first_candidate_usable (fallback_anchors soup)) as Hf.
      destruct (first_candidate (fallback_anchors soup) []) as [|c cs] eqn:Ef; simpl.
      * split; [by right|]. split; [by split|by constructor].
      * split; [by right|]. split; [by split|exact Hf].
    + simpl. split; [by right|]. split; [by split|].
      rewrite <- Es, scan_pluginfile_dedup. apply Forall_forall. intros x Hx.
      apply (proj1 (dedup_first_elem _ _)) in Hx. unfold scan_candidates in Hx.
      apply list_elem_of_omap in Hx as (raw & _ & Hx).
      by apply pluginfile_target_usable in Hx as [? _].
  - simpl. split; [by right|]. split; [by split|].
    rewrite <- Et. destruct (select_one_class "foldertree" soup); [|constructor].
    rewrite parse_folder_tree_closed. simpl. apply Forall_forall. intros x Hx.
    apply (proj1 (dedup_first_elem _ _)), folder_candidates_in_page in Hx.
    by apply targets_at_usable in Hx as [? _].
Qed.

(** X4.  The three file lists hold resource files only: every URL that
    [parse_folder_tree], the scan of [collect_activity_files] and the
    attached-files scan of [parse_assign_page] return contains the marker
    [pluginfile.php], is not empty and is not host-relative. *)
Theorem file_lists_hold_marker_urls (soup : node) :
  Forall (fun u => usable_url u /\ contains PLUGINFILE u = true)
         (default [] (parse_folder_tree soup))
  /\ Forall (fun u => usable_url u /\ contains PLUGINFILE u = true) (scan_pluginfile soup)
  /\ Forall (fun u => usable_url u /\ contains PLUGINFILE u = true) (attached_files soup).
Proof.
  rewrite parse_folder_tree_closed, scan_pluginfile_dedup, attached_files_dedup. simpl.
  repeat split; apply Forall_forall; intros x Hx; apply (proj1 (dedup_first_elem _ _)) in Hx.
  - by apply folder_candidates_in_page, targets_at_usable in Hx.
  - unfold scan_candidates in Hx. apply list_elem_of_omap in Hx as (raw & _ & Hx).
    by apply pluginfile_target_usable in Hx.
  - by apply targets_at_usable in Hx.
Qed.

(** ** [fix_encoding] *)

Lemma utf8_decode1_used (s : list N) (c : N) (used : nat) :
  utf8_decode1 s = Decoded c used ->
  (1 <= used <= length s)%nat /\ (used = 1%nat -> exists t, s = c :: t).
Proof.
  unfold utf8_decode1, is_cont. destruct s as [|ch t]; [done|].
  destruct (ch <? 0x80); [intros [= <- <-]; simpl; split; [lia | by exists t]|].
  destruct (ch <? 0xE0).
  { destruct (ch <? 0xC2); [done|]. destruct t as [|ch2 t]; [done|].
    destruct ((0x80 <=? ch2) && (ch2 <? 0xC0)); [|done].
    intros [= <- <-]. simpl. split; [lia | done]. }
  destruct (ch <? 0xF0).
  { destruct t as [|ch2 t]; [done|].
    destruct (negb _ || _); [done|]. destruct t as [|ch3 t]; [done|].
    destruct ((0x80 <=? ch3) && (ch3 <? 0xC0)); [|done].
    intros [= <- <-]. simpl. split; [lia | done]. }
  destruct (ch <? 0xF5); [|done].
  destruct t as [|ch2 t]; [done|].
  destruct (negb _ || _); [done|]. destruct t as [|ch3 t]; [done|].
  destruct (negb _); [done|]. destruct t as [|ch4 t]; [done|].
  destruct ((0x80 <=? ch4) && (ch4 <? 0xC0)); [|done].
  intros [= <- <-]. simpl. split; [lia | done].
Qed.

(** Strict decoding never lengthens, and keeps the length only when it
    keeps every byte. *)
Lemma utf8_decode_loop_length (fuel : nat) (bs : list N) (s : pystr) :
  utf8_decode_loop fuel false bs = Some s ->
  (length s <= length bs)%nat /\ (length s = length bs -> s = bs).
Proof.
  revert bs s. induction fuel as [|fuel IH]; intros bs s.
  - destruct bs; [by intros [= <-] | done].
  - destruct bs as [|b bs']; [by intros [= <-]|].
    cbn [utf8_decode_loop]. set (l := b :: bs').
    destruct (utf8_decode1 l) as [c0 used| |] eqn:E; [|done|done].
    destruct (utf8_decode_loop fuel false (drop used l)) as [s'|] eqn:E'; [|done].
    intros [= <-]. destruct (IH _ _ E') as [Hl He].
    destruct (utf8_decode1_used _ _ _ E) as [Hu H1].
    rewrite length_drop in Hl, He. clearbody l. cbn [length]. split; [lia|].
    intros Hlen. assert (used = 1%nat) as -> by lia.
    destruct (H1 eq_refl) as [t ->]. cbn [drop length] in *.
    rewrite drop_0 in He. f_equal. apply He. lia.
Qed.

(** X5.  [fix_encoding] leaves a name alone unless every character of it
    is a Latin-1 character and one of them is U+00D0, U+00D1 or U+00E2; a
    name it changes is replaced by the strict UTF-8 reading of its
    characters taken as bytes, which is shorter.  So a name with a
    character above U+00FF, the euro sign among them, comes back
    unchanged. *)
Theorem fix_encoding_changes_only_misread_latin1 (s : pystr) :
  (fix_encoding s = s
   \/ (Forall (fun c => c < 0x100) s
       /\ (0xD0 ∈ s \/ 0xD1 ∈ s \/ 0xE2 ∈ s)
       /\ utf8_decode_strict s = Some (fix_encoding s)
       /\ (length (fix_encoding s) < length s)%nat))
  /\ ((exists c, c ∈ s /\ 0x100 <= c) -> fix_encoding s = s).
Proof.
  assert (Hl : forall b, latin1_encode s = Some b -> b = s /\ Forall (fun c => c < 0x100) s).
  { unfold latin1_encode. intros b. destruct (forallb _ s) eqn:E; [|done].
    intros [= <-]. split; [done|]. apply Forall_forall. intros c Hc.
    rewrite forallb_forall in E. apply N.ltb_lt, E. by apply list_elem_of_In. }
  split.
  - unfold fix_encoding. destruct (negb (truthy s)); [by left|].
    destruct (existsb _ ARTIFACTS) eqn:Ex; [|by left].
    destruct (latin1_encode s) as [raw|] eqn:El; [|by left].
    destruct (Hl _ eq_refl) as [-> Hlat].
    destruct (utf8_decode_strict s) as [fixed|] eqn:Ed; [|by left].
    destruct (utf8_decode_loop_length _ _ _ Ed) as [Hlen Heq].
    destruct (decide (length fixed = length s)) as [E|E]; [left; by apply Heq|].
    right. split; [done|]. split; [|split; [done | lia]].
    apply existsb_exists in Ex as (ch & Hch & Hin).
    apply bool_decide_eq_true in Hin. apply list_elem_of_In in Hch.
    unfold ARTIFACTS in Hch. repeat (apply elem_of_cons in Hch as [->|Hch]); auto.
    + exfalso. rewrite Forall_forall in Hlat. specialize (Hlat _ Hin). lia.
    + by apply elem_of_nil in Hch.
  - intros (c & Hc & Hbig). unfold fix_encoding.
    destruct (negb (truthy s)); [done|]. destruct (existsb _ ARTIFACTS); [|done].
    destruct (latin1_encode s) as [raw|] eqn:El; [|done].
    destruct (Hl _ eq_refl) as [_ Hlat]. rewrite Forall_forall in Hlat.
    specialize (Hlat _ Hc). lia.
Qed.

Lemma is_scalar_spec (c : N) :
  is_scalar c = true <-> c < 0xD800 \/ 0xE000 <= c < 0x110000.
Proof.
  unfold is_scalar. rewrite orb_true_iff, andb_true_iff, N.ltb_lt, N.leb_le, N.ltb_lt. tauto.
Qed.

Lemma betrays_spec (c : N) :
  betrays c = true <-> 0x400 <= c < 0x480 \/ 0x2000 <= c < 0x3000.
Proof.
  unfold betrays.
  rewrite orb_true_iff, !andb_true_iff, !N.ltb_lt, !N.leb_le. tauto.
Qed.

Section Utf8RoundTrip.

#[local] Ltac Zify.zify_post_hook ::= Z.to_euclidean_division_equations.

Lemma utf8_decode1_encode1 (c : N) (rest : list N) :
  is_scalar c = true ->
  utf8_decode1 (utf8_encode1 c ++ rest) = Decoded c (length (utf8_encode1 c)).
Proof.
  intros Hc%is_scalar_spec. unfold utf8_encode1.
  destruct (N.ltb_spec c 0x80) as [H1|H1].
  { simpl. destruct (N.ltb_spec c 0x80); [done | lia]. }
  destruct (N.ltb_spec c 0x800) as [H2|H2].
  { cbn [app utf8_decode1 length]. unfold is_cont.
    set (b1 := 0xC0 + c / 0x40). set (b2 := 0x80 + c mod 0x40).
    assert (0xC2 <= b1 < 0xE0 /\ 0x80 <= b2 < 0xC0
            /\ (b1 - 0xC0) * 0x40 + (b2 - 0x80) = c) as (B1 & B2 & E) by (subst b1 b2; lia).
    clearbody b1 b2.
    destruct (N.ltb_spec b1 0x80); [lia|]. destruct (N.ltb_spec b1 0xE0); [|lia].
    destruct (N.ltb_spec b1 0xC2); [lia|].
    destruct (N.leb_spec 0x80 b2); [|lia]. destruct (N.ltb_spec b2 0xC0); [|lia].
    simpl. by rewrite E. }
  destruct (N.ltb_spec c 0x10000) as [H3|H3].
  { cbn [app utf8_decode1 length]. unfold is_cont.
    set (b1 := 0xE0 + c / 0x1000). set (b2 := 0x80 + (c / 0x40) mod 0x40).
    set (b3 := 0x80 + c mod 0x40).
    assert (0xE0 <= b1 < 0xF0 /\ 0x80 <= b2 < 0xC0 /\ 0x80 <= b3 < 0xC0
            /\ (b1 = 0xE0 -> 0xA0 <= b2) /\ (b1 = 0xED -> b2 < 0xA0)
            /\ (b1 - 0xE0) * 0x1000 + (b2 - 0x80) * 0x40 + (b3 - 0x80) = c)
      as (B1 & B2 & B3 & O1 & O2 & E) by (subst b1 b2 b3; lia).
    clearbody b1 b2 b3.
    destruct (N.ltb_spec b1 0x80); [lia|]. destruct (N.ltb_spec b1 0xE0); [lia|].
    destruct (N.ltb_spec b1 0xF0); [|lia].
    destruct (N.leb_spec 0x80 b2); [|lia]. destruct (N.ltb_spec b2 0xC0); [|lia].
    destruct (N.leb_spec 0x80 b3); [|lia]. destruct (N.ltb_spec b3 0xC0); [|lia].
    destruct (N.ltb_spec b2 0xA0), (N.eqb_spec b1 0xE0), (N.eqb_spec b1 0xED);
      try lia; simpl; by rewrite E. }
  cbn [app utf8_decode1 length]. unfold is_cont.
  set (b1 := 0xF0 + c / 0x40000). set (b2 := 0x80 + (c / 0x1000) mod 0x40).
  set (b3 := 0x80 + (c / 0x40) mod 0x40). set (b4 := 0x80 + c mod 0x40).
  assert (0xF0 <= b1 < 0xF5 /\ 0x80 <= b2 < 0xC0 /\ 0x80 <= b3 < 0xC0 /\ 0x80 <= b4 < 0xC0
          /\ (b1 = 0xF0 -> 0x90 <= b2) /\ (b1 = 0xF4 -> b2 < 0x90)
          /\ (b1 - 0xF0) * 0x40000 + (b2 - 0x80) * 0x1000 + (b3 - 0x80) * 0x40 + (b4 - 0x80) = c)
    as (B1 & B2 & B3 & B4 & O1 & O2 & E) by (subst b1 b2 b3 b4; lia).
  clearbody b1 b2 b3 b4.
  destruct (N.ltb_spec b1 0x80); [lia|]. destruct (N.ltb_spec b1 0xE0); [lia|].
  destruct (N.ltb_spec b1 0xF0); [lia|]. destruct (N.ltb_spec b1 0xF5); [|lia].
  destruct (N.leb_spec 0x80 b2); [|lia]. destruct (N.ltb_spec b2 0xC0); [|lia].
  destruct (N.leb_spec 0x80 b3); [|lia]. destruct (N.ltb_spec b3 0xC0); [|lia].
  destruct (N.leb_spec 0x80 b4); [|lia]. destruct (N.ltb_spec b4 0xC0); [|lia].
  destruct (N.ltb_spec b2 0x90), (N.eqb_spec b1 0xF0), (N.eqb_spec b1 0xF4);
    try lia; simpl; by rewrite E.
Qed.

(** The bytes of one scalar value: Latin-1 characters, and one of the
    bytes D0, D1, E2 among them exactly for the characters of [betrays]. *)
Lemma utf8_encode1_bytes (c : N) :
  is_scalar c = true ->
  utf8_encode1 c <> []
  /\ Forall (fun b => b < 0x100) (utf8_encode1 c)
  /\ ((0xD0 ∈ utf8_encode1 c \/ 0xD1 ∈ utf8_encode1 c \/ 0xE2 ∈ utf8_encode1 c)
      <-> betrays c = true).
Proof.
  intros Hc%is_scalar_spec. rewrite betrays_spec. unfold utf8_encode1.
  destruct (N.ltb_spec c 0x80) as [H1|H1];
    [|destruct (N.ltb_spec c 0x800) as [H2|H2];
      [|destruct (N.ltb_spec c 0x10000) as [H3|H3]]];
    (split; [done|]); (split; [repeat (constructor; [lia|]); constructor|]);
    rewrite ?elem_of_cons, ?elem_of_nil; lia.
Qed.

End Utf8RoundTrip.

Lemma misread_decodes (t : pystr) (fuel : nat) :
  forallb is_scalar t = true -> (length t <= fuel)%nat ->
  utf8_decode_loop fuel false (misread t) = Some t.
Proof.
  revert fuel. induction t as [|c t IH]; intros fuel Hs Hf.
  - by destruct fuel.
  - apply andb_true_iff in Hs as [Hc Hs].
    destruct fuel as [|fuel]; [simpl in Hf; lia|].
    unfold misread. cbn [flat_map]. fold (misread t).
    destruct (utf8_encode1_bytes c Hc) as (Hne & _ & _).
    destruct (utf8_encode1 c ++ misread t) as [|b bs] eqn:E.
    { by destruct (utf8_encode1 c). }
    cbn [utf8_decode_loop]. rewrite <- E, (utf8_decode1_encode1 c _ Hc).
    rewrite drop_app_length, IH; [done | done | simpl in Hf; lia].
Qed.

Lemma misread_length (t : pystr) :
  forallb is_scalar t = true -> (length t <= length (misread t))%nat.
Proof.
  induction t as [|c t IH]; [done|]. intros [Hc Hs]%andb_true_iff.
  unfold misread. cbn [flat_map]. fold (misread t). rewrite length_app.
  destruct (utf8_encode1_bytes c Hc) as (Hne & _ & _). specialize (IH Hs).
  destruct (utf8_encode1 c); [done|]. simpl. lia.
Qed.

(** X6.  What [fix_encoding] recovers.  Take a text of Unicode scalar
    values and read its UTF-8 bytes as Latin-1.  If the text holds a
    character from U+0400 to U+047F or from U+2000 to U+2FFF, then
    [fix_encoding] gives the text back; if it holds none, the misread
    text is returned as it is. *)
Theorem fix_encoding_recovers (t : pystr) :
  forallb is_scalar t = true ->
  fix_encoding (misread t) = if existsb betrays t then t else misread t.
Proof.
  intros Hs.
  assert (Hlat : forallb (fun c => c <? 0x100) (misread t) = true).
  { apply forallb_forall. intros b Hb. apply list_elem_of_In in Hb.
    unfold misread in Hb. apply elem_of_flat_map in Hb as (c & Hc & Hb).
    rewrite forallb_forall in Hs. apply list_elem_of_In, Hs in Hc.
    destruct (utf8_encode1_bytes c Hc) as (_ & Hl & _).
    rewrite Forall_forall in Hl. by apply N.ltb_lt, Hl. }
  assert (Hm : existsb (fun ch => bool_decide (ch ∈ misread t)) ARTIFACTS = existsb betrays t).
  { apply eq_true_iff_eq. rewrite !existsb_exists. split.
    - intros (ch & Hch & Hin%bool_decide_eq_true).
      unfold misread in Hin. apply elem_of_flat_map in Hin as (c & Hc & Hin).
      exists c. split; [by apply list_elem_of_In|].
      rewrite forallb_forall in Hs. pose proof (Hs _ (proj1 (list_elem_of_In _ _) Hc)) as Hsc.
      destruct (utf8_encode1_bytes c Hsc) as (_ & Hl & Hb). apply Hb.
      apply list_elem_of_In in Hch. unfold ARTIFACTS in Hch.
      repeat (apply elem_of_cons in Hch as [->|Hch]); auto.
      + rewrite Forall_forall in Hl. specialize (Hl _ Hin). lia.
      + by apply elem_of_nil in Hch.
    - intros (c & Hc%list_elem_of_In & Hb).
      rewrite forallb_forall in Hs. pose proof (Hs _ (proj1 (list_elem_of_In _ _) Hc)) as Hsc.
      destruct (utf8_encode1_bytes c Hsc) as (_ & _ & Hiff). apply Hiff in Hb.
      assert (Hsub : forall b, b ∈ utf8_encode1 c -> b ∈ misread t).
      { intros b Hb'. unfold misread. apply elem_of_flat_map. by exists c. }
      destruct Hb as [Hb|[Hb|Hb]]; [exists 0xD0 | exists 0xD1 | exists 0xE2];
        (split; [vm_compute; tauto | by apply bool_decide_eq_true, Hsub]). }
  unfold fix_encoding. rewrite Hm.
  destruct (misread t) as [|b bs] eqn:E.
  { assert (t = []) as ->.
    { pose proof (misread_length t Hs) as Hl. rewrite E in Hl. destruct t; [done | simpl in Hl; lia]. }
    done. }
  cbn [truthy negb]. destruct (existsb betrays t); [|done].
  unfold latin1_encode. rewrite Hlat. unfold utf8_decode_strict.
  rewrite <- E, misread_decodes; [done | done | by apply misread_length].
Qed.

Lemma fix_encoding_recovers_witness :
  fix_encoding (misread (utf8 "Лекція 1.pdf")) = utf8 "Лекція 1.pdf".
Proof. exact (fix_encoding_recovers (utf8 "Лекція 1.pdf") eq_refl). Defined.

(** ** Paths *)

Lemma split_parts_no_sep (sep : N) (s : pystr) : Forall (fun x => sep ∉ x) (split sep s).
Proof.
  induction s as [|c s IH]; simpl.
  - repeat constructor. by intros ?%elem_of_nil.
  - destruct (N.eqb_spec c sep) as [->|Hne].
    + constructor; [by intros ?%elem_of_nil | done].
    + destruct (split sep s) as [|p ps]; [repeat constructor; set_solver|].
      inversion IH; subst. constructor; [|done]. set_solver.
Qed.

Lemma is_segment_spec (x : pystr) : is_segment x = true <-> x <> [] /\ x <> [DOT].
Proof.
  unfold is_segment, pystr_eqb. destruct x as [|c x]; simpl; [naive_solver|].
  rewrite negb_true_iff, bool_decide_eq_false. naive_solver.
Qed.

Lemma splitroot_valid (s : pystr) : splitroot s ∈ [[]; str "/"; str "//"].
Proof.
  unfold splitroot.
  destruct (startswith (str "///") s), (startswith (str "//") s), (startswith (str "/") s);
    set_solver.
Qed.

Lemma parse_wf (s : pystr) : wf (parse s).
Proof.
  split; [apply splitroot_valid|]. simpl.
  apply Forall_forall. intros x [Hseg Hx]%list_elem_of_filter.
  apply is_segment_spec in Hseg as [? ?]. repeat split; [done | done |].
  pose proof (split_parts_no_sep SLASH s) as Hf. rewrite Forall_forall in Hf. by apply Hf.
Qed.

Lemma joinpath_wf (p : path) (s : pystr) : wf p -> wf (joinpath p s).
Proof.
  intros [Hr Hp]. unfold joinpath. destruct (truthy (root (parse s))); [apply parse_wf|].
  split; [done|]. simpl. apply Forall_app. split; [done | apply parse_wf].
Qed.

Lemma startswith_head_ne (a c : N) (p s : pystr) :
  a <> c -> startswith (a :: p) (c :: s) = false.
Proof. intros Hne. cbn [startswith]. by destruct (N.eqb_spec a c). Qed.

(** A string without a slash is at most one segment. *)
Lemma parse_no_slash (s : pystr) :
  SLASH ∉ s -> parse s = Path [] (if is_segment s then [s] else []).
Proof.
  intros Hs. unfold parse. rewrite (split_no_sep _ _ Hs).
  assert (splitroot s = []) as ->.
  { unfold splitroot. destruct s as [|c s]; [done|].
    assert (SLASH <> c) by set_solver.
    change (str "///") with (SLASH :: str "//"). change (str "//") with (SLASH :: str "/").
    change (str "/") with (SLASH :: []). by rewrite !startswith_head_ne. }
  f_equal. destruct (is_segment s) eqn:E.
  - by rewrite filter_cons_True, filter_nil.
  - rewrite filter_cons_False, filter_nil; [done | by rewrite E].
Qed.

Lemma joinpath_segment (p : path) (s : pystr) :
  SLASH ∉ s -> s <> [] -> s <> [DOT] ->
  joinpath p s = Path (root p) (segments p ++ [s]).
Proof.
  intros Hs H1 H2. unfold joinpath. rewrite (parse_no_slash _ Hs). simpl.
  by rewrite (proj2 (is_segment_spec s)).
Qed.

Lemma joinpath_dot (p : path) : joinpath p [DOT] = p.
Proof. destruct p as [r segs]. unfold joinpath. simpl. by rewrite app_nil_r. Qed.

Lemma parent_snoc (r : pystr) (segs : list pystr) (s : pystr) :
  parent (Path r (segs ++ [s])) = Path r segs.
Proof.
  unfold parent. simpl. rewrite removelast_last. by destruct segs.
Qed.

Lemma name_snoc (r : pystr) (segs : list pystr) (s : pystr) :
  name (Path r (segs ++ [s])) = s.
Proof. unfold name, last_part. simpl. apply last_last. Qed.

(** A path with a segment is its parent extended by its name. *)
Lemma path_parent_name (p : path) :
  segments p <> [] -> p = Path (root (parent p)) (segments (parent p) ++ [name p]).
Proof.
  destruct p as [r segs]. simpl. intros Hne.
  destruct (exists_last Hne) as (segs' & s & ->).
  by rewrite parent_snoc, name_snoc.
Qed.

Lemma parent_wf (p : path) : wf p -> wf (parent p).
Proof.
  destruct p as [r segs]. intros [Hr Hp]. simpl in *.
  destruct segs as [|x l _] using rev_ind; [done|].
  rewrite parent_snoc. split; [done|]. simpl. by apply Forall_app in Hp as [? _].
Qed.

Lemma name_wf (p : path) : wf p -> SLASH ∉ name p.
Proof.
  intros [_ Hp]. unfold name, last_part.
  destruct (segments p) as [|x l] using rev_ind; [by intros ?%elem_of_nil|].
  rewrite last_last. apply Forall_app in Hp as [_ Hx]. inversion Hx; subst. tauto.
Qed.

Lemma stem_suffix (p : path) : name p = stem p ++ suffix p.
Proof.
  unfold stem, suffix. destruct (suffix_index (name p)); [by rewrite take_drop | by rewrite app_nil_r].
Qed.

(** ** Numbers in names *)

Lemma uint_digits_inj (u v : Decimal.uint) : uint_digits u = uint_digits v -> u = v.
Proof.
  revert v. induction u; intros v; destruct v; simpl; try done;
    intros [= E]; f_equal; by apply IHu.
Qed.

Lemma uint_digits_are_digits (u : Decimal.uint) :
  Forall (fun c => is_digit c = true) (uint_digits u).
Proof. induction u; simpl; constructor; done. Qed.

#[local] Instance str_int_inj : Inj (=) (=) str_int.
Proof.
  intros i j. unfold str_int.
  assert (Hd : forall n, 0x2D ∉ uint_digits (N.to_uint n)).
  { intros n Hin. pose proof (uint_digits_are_digits (N.to_uint n)) as Hf.
    rewrite Forall_forall in Hf. by specialize (Hf _ Hin). }
  assert (Hinj : forall n m, uint_digits (N.to_uint n) = uint_digits (N.to_uint m) -> n = m).
  { intros n m E%uint_digits_inj.
    by rewrite <- (DecimalN.Unsigned.of_to n), <- (DecimalN.Unsigned.of_to m), E. }
  destruct (Z.ltb_spec i 0), (Z.ltb_spec j 0).
  - intros [= E%Hinj]. lia.
  - intros E. exfalso. apply (Hd (Z.to_N j)). rewrite <- E. by left.
  - intros E. exfalso. apply (Hd (Z.to_N i)). rewrite E. by left.
  - intros E%Hinj. lia.
Qed.

Lemma str_int_chars (i : Z) : Forall (fun c => is_digit c = true \/ c = 0x2D) (str_int i).
Proof.
  unfold str_int. destruct (i <? 0)%Z.
  - constructor; [by right|]. eapply Forall_impl; [apply uint_digits_are_digits|]. by left.
  - eapply Forall_impl; [apply uint_digits_are_digits|]. by left.
Qed.

Lemma str_int_nonempty (i : Z) : str_int i <> [].
Proof.
  unfold str_int. destruct (i <? 0)%Z; [done|].
  destruct (Z.to_N i) as [|p]; [done|]. unfold N.to_uint.
  pose proof (DecimalPos.Unsigned.to_uint_nonnil p) as Hn.
  by destruct (Pos.to_uint p).
Qed.

(** ** [make_unique_path] *)

Lemma candidate_name_segment (p : path) (i : Z) :
  wf p ->
  (SLASH ∉ candidate_name p i) /\ candidate_name p i <> [] /\ candidate_name p i <> [DOT].
Proof.
  intros Hp. pose proof (name_wf p Hp) as Hn. rewrite stem_suffix in Hn.
  unfold candidate_name. repeat split.
  - rewrite !elem_of_app. intros [H|[H|[H|H]]].
    + apply Hn, elem_of_app. by left.
    + change (str "_") with [0x5F] in H. by apply list_elem_of_singleton in H.
    + pose proof (str_int_chars i) as Hf. rewrite Forall_forall in Hf.
      by destruct (Hf _ H) as [Hd|Hd].
    + apply Hn, elem_of_app. by right.
  - by destruct (stem p).
  - intros E. assert (H : 0x5F ∈ [DOT]).
    { rewrite <- E, !elem_of_app. right. left. by left. }
    by apply list_elem_of_singleton in H.
Qed.

Lemma candidate_snoc (p : path) (i : Z) :
  wf p ->
  candidate p i = Path (root (parent p)) (segments (parent p) ++ [candidate_name p i]).
Proof.
  intros Hp. destruct (candidate_name_segment p i Hp) as (H1 & H2 & H3).
  unfold candidate. by apply joinpath_segment.
Qed.

Lemma candidate_name_inj (p : path) : Inj (=) (=) (candidate_name p).
Proof.
  intros i j. unfold candidate_name. intros E.
  apply app_inv_head, app_inv_head, app_inv_tail in E. by apply (inj str_int).
Qed.

Section MakeUniquePathFacts.
Variable exists_ : path -> bool.

Lemma unique_loop_spec (fuel : nat) (p : path) (i : Z) (q : path) :
  unique_loop exists_ fuel p i = Some q ->
  exists k, (i <= k)%Z /\ q = candidate p k /\ exists_ q = false
            /\ forall j, (i <= j < k)%Z -> exists_ (candidate p j) = true.
Proof.
  revert i. induction fuel as [|fuel IH]; intros i; [done|]. simpl.
  destruct (exists_ (candidate p i)) eqn:E.
  - intros (k & Hk & -> & Hfree & Hbusy)%IH. exists k. repeat split; [lia | done |].
    intros j Hj. destruct (decide (j = i)) as [->|?]; [done | apply Hbusy; lia].
  - intros [= <-]. exists i. repeat split; [lia | done | intros; lia].
Qed.

Lemma unique_loop_None (fuel : nat) (p : path) (i : Z) :
  unique_loop exists_ fuel p i = None ->
  forall j, (i <= j < i + Z.of_nat fuel)%Z -> exists_ (candidate p j) = true.
Proof.
  revert i. induction fuel as [|fuel IH]; intros i; [intros; lia|]. simpl.
  destruct (exists_ (candidate p i)) eqn:E; [|done].
  intros H j Hj. destruct (decide (j = i)) as [->|?]; [done | apply (IH _ H); lia].
Qed.

Lemma unique_loop_mono (fuel fuel' : nat) (p : path) (i : Z) (q : path) :
  unique_loop exists_ fuel p i = Some q -> (fuel <= fuel')%nat ->
  unique_loop exists_ fuel' p i = Some q.
Proof.
  revert fuel' i. induction fuel as [|fuel IH]; intros fuel' i; [done|].
  destruct fuel' as [|fuel']; [lia|]. simpl.
  destruct (exists_ (candidate p i)); [|done]. intros H Hle. apply IH; [done | lia].
Qed.

Lemma make_unique_path_mono (fuel fuel' : nat) (p q : path) :
  make_unique_path exists_ fuel p = Some q -> (fuel <= fuel')%nat ->
  make_unique_path exists_ fuel' p = Some q.
Proof.
  unfold make_unique_path. destruct (negb (exists_ p)); [done | apply unique_loop_mono].
Qed.

Lemma unique_path_first_free (fuel : nat) (p q : path) :
  make_unique_path exists_ fuel p = Some q ->
  exists_ q = false
  /\ (exists_ p = false -> q = p)
  /\ (exists_ p = true ->
      exists i, (2 <= i)%Z /\ q = candidate p i
                /\ forall j, (2 <= j < i)%Z -> exists_ (candidate p j) = true).
Proof.
  unfold make_unique_path. destruct (exists_ p) eqn:E; simpl.
  - intros (k & Hk & -> & Hfree & Hbusy)%unique_loop_spec.
    split; [done|]. split; [done|]. intros _. by exists k.
  - intros [= <-]. by repeat split.
Qed.

(** X7.  The path [make_unique_path] returns does not exist.  It is the
    given path when that one is free; otherwise it is the candidate
    [stem_i suffix] beside it with the least [i] from 2 on that is
    free. *)
Theorem make_unique_path_first_free (fuel : nat) (p q : path) :
  make_unique_path exists_ fuel p = Some q ->
  exists_ q = false
  /\ (exists_ p = false -> q = p)
  /\ (exists_ p = true ->
      exists i, (2 <= i)%Z /\ q = candidate p i
                /\ forall j, (2 <= j < i)%Z -> exists_ (candidate p j) = true).
Proof. apply unique_path_first_free. Qed.

Lemma unique_path_loop_ends (p : path) (names : list pystr) :
  wf p ->
  (forall s, SLASH ∉ s -> exists_ (joinpath (parent p) s) = true -> s ∈ names) ->
  exists q, make_unique_path exists_ (S (length names)) p = Some q.
Proof.
  intros Hp Hfin. unfold make_unique_path. destruct (negb (exists_ p)); [by eexists|].
  destruct (unique_loop exists_ (S (length names)) p 2) as [q|] eqn:E; [by eexists|].
  exfalso. pose proof (unique_loop_None _ _ _ E) as Hall.
  set (js := (fun n : nat => (2 + Z.of_nat n)%Z) <$> List.seq 0%nat (S (length names))).
  assert (Hnd : NoDup (candidate_name p <$> js)).
  { apply (NoDup_fmap_2 _ (Inj0 := candidate_name_inj p)).
    apply NoDup_fmap_2; [intros n m; lia | apply NoDup_seq]. }
  assert (Hsub : candidate_name p <$> js ⊆ names).
  { intros s (j & -> & (n & -> & Hn%elem_of_seq)%list_elem_of_fmap)%list_elem_of_fmap.
    apply Hfin; [by apply candidate_name_segment|].
    apply Hall. lia. }
  pose proof (submseteq_length _ _ (NoDup_submseteq _ _ Hnd Hsub)) as Hlen.
  unfold js in Hlen. rewrite !length_fmap, length_seq in Hlen. lia.
Qed.

(** X8.  The loop of [make_unique_path] ends: when the names that exist in
    the directory of the path are among those of a list, the list's length
    plus one bounds the number of candidates tried. *)
Theorem make_unique_path_terminates (p : path) (names : list pystr) :
  wf p ->
  (forall s, SLASH ∉ s -> exists_ (joinpath (parent p) s) = true -> s ∈ names) ->
  exists q, make_unique_path exists_ (S (length names)) p = Some q.
Proof. apply unique_path_loop_ends. Qed.

End MakeUniquePathFacts.

Lemma rfind_Some (c : N) (s : pystr) (i : nat) :
  rfind c s = Some i -> s = take i s ++ c :: drop (S i) s /\ c ∉ drop (S i) s.
Proof.
  revert i. induction s as [|x s IH]; intros i; [done|]. simpl.
  destruct (rfind c s) as [k|] eqn:E.
  - intros [= <-]. destruct (IH _ eq_refl) as [H1 H2]. simpl. split; [by f_equal|done].
  - destruct (N.eqb_spec x c) as [->|?]; [|done]. intros [= <-]. simpl. split; [done|].
    rewrite drop_0. clear IH. induction s as [|y s IH]; [by intros ?%elem_of_nil|].
    simpl in E. destruct (rfind c s); [done|]. destruct (N.eqb_spec y c); [done|].
    intros [?|?]%elem_of_cons; [done | by apply IH].
Qed.

Lemma rfind_app (c : N) (a b : pystr) :
  c ∉ b -> rfind c (a ++ c :: b) = Some (length a).
Proof.
  intros Hb. assert (Hn : rfind c b = None).
  { induction b as [|y b IH]; [done|]. simpl. rewrite IH; [|set_solver].
    destruct (N.eqb_spec y c) as [->|?]; [set_solver | done]. }
  induction a as [|x a IH]; simpl.
  - by rewrite Hn, N.eqb_refl.
  - by rewrite IH.
Qed.

Lemma unique_path_keeps_place (exists_ : path -> bool) (fuel : nat) (p q : path) :
  wf p -> segments p <> [] ->
  make_unique_path exists_ fuel p = Some q ->
  parent q = parent p
  /\ (suffix p <> [] -> suffix q = suffix p)
  /\ (q = p \/ exists i, name q = stem p ++ str "_" ++ str_int i ++ suffix p).
Proof.
  intros Hp Hne Hq. apply unique_path_first_free in Hq as (_ & H0 & H1).
  destruct (exists_ p); [|by rewrite (H0 eq_refl); repeat split; [..|left]].
  destruct (H1 eq_refl) as (i & _ & -> & _). clear H0 H1.
  rewrite (candidate_snoc p i Hp). rewrite parent_snoc. split; [by destruct (parent p)|].
  split; [|right; exists i; by rewrite name_snoc].
  intros Hsuf.
  assert (exists k, rfind DOT (name p) = Some k /\ (0 < k)%nat /\ (k < length (name p) - 1)%nat
                    /\ stem p = take k (name p) /\ suffix p = drop k (name p))
    as (k & E & K1 & K2 & Hst & Hsu).
  { unfold stem, suffix, suffix_index in *. destruct (rfind DOT (name p)) as [k|]; [|done].
    destruct ((0 <? k)%nat && (k <? length (name p) - 1)%nat) eqn:Ek; [|done].
    apply andb_true_iff in Ek as [K1%Nat.ltb_lt K2%Nat.ltb_lt]. by exists k. }
  destruct (rfind_Some _ _ _ E) as [Hsplit Hnot].
  assert (Hd : drop k (name p) = DOT :: drop (S k) (name p)).
  { rewrite Hsplit at 1. rewrite drop_app_length'; [done|]. rewrite length_take. lia. }
  rewrite Hsu, Hd. unfold suffix. rewrite name_snoc. unfold candidate_name.
  rewrite Hst, Hsu, Hd.
  set (rest := drop (S k) (name p)) in *.
  set (pre := take k (name p) ++ str "_" ++ str_int i).
  replace (take k (name p) ++ str "_" ++ str_int i ++ DOT :: rest)
    with (pre ++ DOT :: rest) by (subst pre; by rewrite <- !app_assoc).
  unfold suffix_index. rewrite (rfind_app _ _ _ Hnot).
  assert (Hl : (0 < length pre)%nat) by (subst pre; rewrite !length_app; simpl; lia).
  assert (Hr : (0 < length rest)%nat) by (subst rest; rewrite length_drop; lia).
  rewrite length_app. cbn [length].
  destruct (Nat.ltb_spec 0 (length pre)); [|lia].
  destruct (Nat.ltb_spec (length pre) (length pre + S (length rest) - 1)); [|lia].
  simpl. by rewrite drop_app_length.
Qed.

(** X9.  The path [make_unique_path] returns for a path with a name lies
    in the same directory, and a name with a suffix keeps its suffix: the
    counter goes in front of the extension. *)
Theorem make_unique_path_keeps_place (exists_ : path -> bool) (fuel : nat) (p q : path) :
  wf p -> segments p <> [] ->
  make_unique_path exists_ fuel p = Some q ->
  parent q = parent p
  /\ (suffix p <> [] -> suffix q = suffix p)
  /\ (q = p \/ exists i, name q = stem p ++ str "_" ++ str_int i ++ suffix p).
Proof. apply unique_path_keeps_place. Qed.

(** ** Directory names *)

Lemma safe_name_segment (name : pystr) :
  safe_name name default_max_len <> [] /\ SLASH ∉ safe_name name default_max_len.
Proof.
  unfold safe_name.
  set (s := if truthy (sanitize name) then sanitize name else str "untitled").
  assert (Hs : s <> [] /\ Forall clean_char s /\ ws_collapsed s = true).
  { subst s. pose proof (sanitize_clean name) as Hc.
    destruct (sanitize name) as [|c t]; cbn [truthy].
    - split; [discriminate | apply untitled_clean].
    - split; [discriminate | exact Hc]. }
  destruct Hs as (Hne & Fa & W).
  assert (Hm : (2 <= default_max_len)%Z) by (unfold default_max_len; lia).
  destruct (safe_name_cut s default_max_len Hm Hne Fa W) as (R1 & _ & _ & R4 & _).
  cbv zeta in *. split; [done|]. intros Hin.
  rewrite Forall_forall in R4. by destruct (R4 _ Hin) as (Hsl & _).
Qed.

Lemma download_filename_segment (cd : option pystr) (default_name : pystr) :
  download_filename cd default_name <> [] /\ SLASH ∉ download_filename cd default_name.
Proof. apply safe_name_segment. Qed.

Lemma format_02d_chars (i : Z) :
  Forall (fun c => is_digit c = true \/ c = 0x2D) (format_02d i).
Proof.
  unfold format_02d. destruct (length (str_int i) <? 2)%nat; [|apply str_int_chars].
  constructor; [by left | apply str_int_chars].
Qed.

(** No number is written with a leading zero in front of another digit. *)
Lemma str_int_no_leading_zero (i : Z) (c : N) : str_int i <> [0x30; c].
Proof.
  unfold str_int. destruct (i <? 0)%Z; [done|].
  intros E. set (n := Z.to_N i) in *.
  pose proof (DecimalN.Unsigned.of_to n) as Hn.
  destruct (N.to_uint n) as [|u|u|u|u|u|u|u|u|u|u] eqn:Eu; try done.
  simpl in E. injection E as E.
  destruct u as [|u|u|u|u|u|u|u|u|u|u]; try done;
    simpl in E; injection E as _ E; (destruct u; [|done..]);
    rewrite <- Hn in Eu; by vm_compute in Eu.
Qed.

#[local] Instance format_02d_inj : Inj (=) (=) format_02d.
Proof.
  intros i j. unfold format_02d.
  destruct (Nat.ltb_spec (length (str_int i)) 2) as [Hi|Hi],
           (Nat.ltb_spec (length (str_int j)) 2) as [Hj|Hj].
  - intros [= E]. by apply (inj str_int).
  - intros E. exfalso. pose proof (str_int_nonempty i) as Hne.
    destruct (str_int i) as [|c [|c' t]]; [done| |simpl in Hi; lia].
    by apply (str_int_no_leading_zero j c).
  - intros E. exfalso. pose proof (str_int_nonempty j) as Hne.
    destruct (str_int j) as [|c [|c' t]]; [done| |simpl in Hj; lia].
    by apply (str_int_no_leading_zero i c).
  - apply (inj str_int).
Qed.

(** Two strings that agree up to and including the first separator. *)
Lemma app_sep_unique (c : N) (a b x y : pystr) :
  c ∉ a -> c ∉ b -> a ++ c :: x = b ++ c :: y -> a = b.
Proof.
  revert b. induction a as [|d a IH]; intros [|e b] Ha Hb; simpl; try done.
  - intros [= -> _]. set_solver.
  - intros [= <- _]. set_solver.
  - intros [= -> E]. f_equal. apply IH; [set_solver | set_solver | done].
Qed.

Lemma dir_name_index (kind kind' : pystr) (i j : Z) (n n' : pystr) :
  dir_name kind i n = dir_name kind' j n' -> i = j.
Proof.
  unfold dir_name. change (str "_") with [0x5F]. simpl. intros E.
  apply (inj format_02d). apply (app_sep_unique 0x5F _ _ _ _) in E; [done|..];
    intros Hin; [pose proof (format_02d_chars i) as Hf | pose proof (format_02d_chars j) as Hf];
    rewrite Forall_forall in Hf; by destruct (Hf _ Hin).
Qed.

Lemma dir_name_segment (kind : pystr) (i : Z) (n : pystr) :
  (SLASH ∉ dir_name kind i n) /\ dir_name kind i n <> [] /\ dir_name kind i n <> [DOT].
Proof.
  unfold dir_name.
  set (s := safe_name _ _). destruct (safe_name_segment (if truthy n then n else kind ++ str " " ++ str_int i)) as [_ Hs].
  fold s in Hs. repeat split.
  - rewrite !elem_of_app. intros [H|[H|H]]; [| |done].
    + pose proof (format_02d_chars i) as Hf. rewrite Forall_forall in Hf.
      by destruct (Hf _ H).
    + change (str "_") with [0x5F] in H. by apply list_elem_of_singleton in H.
  - intros E. apply app_eq_nil in E as [_ E]. by apply app_eq_nil in E as [E _].
  - intros E. assert (H : 0x5F ∈ [DOT]).
    { rewrite <- E, !elem_of_app. right. left. by left. }
    by apply list_elem_of_singleton in H.
Qed.

(** The directory of an activity: the course directory, then the numbered
    section and the numbered activity. *)
Lemma dest_dir_of_segments (t : pystr) (si : Z) (sn : pystr) (ai : Z) (an : pystr) :
  dest_dir_of t si sn ai an
  = Path [] (segments (joinpath DOWNLOAD_ROOT (safe_name t default_max_len))
             ++ [dir_name (str "Section") si sn; dir_name (str "Activity") ai an]).
Proof.
  unfold dest_dir_of.
  destruct (dir_name_segment (str "Section") si sn) as (S1 & S2 & S3).
  destruct (dir_name_segment (str "Activity") ai an) as (A1 & A2 & A3).
  rewrite !joinpath_segment by done. simpl. rewrite <- app_assoc. f_equal.
  destruct (safe_name_segment t) as [_ Hs].
  unfold joinpath. rewrite (parse_no_slash _ Hs). done.
Qed.

Lemma dest_dir_of_wf (t : pystr) (si : Z) (sn : pystr) (ai : Z) (an : pystr) :
  wf (dest_dir_of t si sn ai an).
Proof. unfold dest_dir_of. repeat apply joinpath_wf. apply parse_wf. Qed.

(** X10.  Activities at different positions never share a directory:
    when the section indices or the activity indices of two calls of
    [download_files_for_activity] differ, so do the directories they save
    into, whatever the titles and names are. *)
Theorem dest_dir_differs_with_index
    (t t' : pystr) (si sj : Z) (sn sn' : pystr) (ai aj : Z) (an an' : pystr) :
  si <> sj \/ ai <> aj ->
  dest_dir_of t si sn ai an <> dest_dir_of t' sj sn' aj an'.
Proof.
  rewrite !dest_dir_of_segments. intros Hne [= E].
  apply app_inj_2 in E as [_ [= Es Ea]]; [|done].
  apply dir_name_index in Es, Ea. tauto.
Qed.

Lemma dest_dir_differs_with_index_witness :
  dest_dir_of (str "Algebra") 1 (str "Week") 1 (str "Notes")
  <> dest_dir_of (str "Algebra") 1 (str "Week") 2 (str "Notes").
Proof. apply dest_dir_differs_with_index. right. lia. Defined.

(** ** Paths as strings *)

Lemma split_join (sep : N) (segs : list pystr) :
  segs <> [] -> Forall (fun x => sep ∉ x) segs -> split sep (join [sep] segs) = segs.
Proof.
  induction segs as [|s segs IH]; [done|]. intros _ Hf.
  apply Forall_cons in Hf as [Hs Hf]. destruct segs as [|s' segs].
  - simpl. by apply split_no_sep.
  - change (join [sep] (s :: s' :: segs)) with (s ++ sep :: join [sep] (s' :: segs)).
    rewrite split_app, (split_no_sep _ _ Hs), IH; done.
Qed.

Lemma filter_segments (segs : list pystr) :
  Forall (fun x => x <> [] /\ x <> [DOT] /\ SLASH ∉ x) segs ->
  filter (fun x => is_segment x = true) segs = segs.
Proof.
  induction 1 as [|x l (H1 & H2 & _) _ IH]; [done|].
  rewrite filter_cons_True; [by rewrite IH | by apply is_segment_spec].
Qed.

Lemma startswith_head_eq (a : N) (p s : pystr) :
  startswith (a :: p) (a :: s) = startswith p s.
Proof. cbn [startswith]. by rewrite N.eqb_refl. Qed.

Lemma split_sep_cons (sep : N) (s : pystr) : split sep (sep :: s) = [] :: split sep s.
Proof. simpl. by rewrite N.eqb_refl. Qed.

(** [Path(str(p)) == p]. *)
Lemma parse_path_str (p : path) : wf p -> parse (path_str p) = p.
Proof.
  destruct p as [r segs]. intros [Hr Hf]. simpl in Hr, Hf.
  destruct segs as [|s segs].
  { repeat (apply elem_of_cons in Hr as [->|Hr]); [done .. | by apply elem_of_nil in Hr]. }
  assert (Hsplit : split SLASH (join [SLASH] (s :: segs)) = s :: segs).
  { apply split_join; [done|]. eapply Forall_impl; [exact Hf|]. by intros x (_ & _ & ?). }
  assert (exists c t, join [SLASH] (s :: segs) = c :: t /\ SLASH <> c) as (c & t & Hj & Hc).
  { apply Forall_cons in Hf as [(H1 & _ & H3) _]. destruct s as [|c s]; [done|].
    assert (SLASH <> c) by set_solver. destruct segs; simpl; eauto. }
  unfold parse, path_str. cbn [root segments].
  assert (splitroot (r ++ join [SLASH] (s :: segs)) = r
                  /\ filter (fun x => is_segment x = true)
                       (split SLASH (r ++ join [SLASH] (s :: segs))) = s :: segs) as [E1 E2].
  { repeat (apply elem_of_cons in Hr as [->|Hr]); [| | |by apply elem_of_nil in Hr].
    - rewrite app_nil_l, Hsplit, (filter_segments _ Hf). split; [|done].
      rewrite Hj. unfold splitroot.
      change (str "///") with (SLASH :: str "//"). change (str "//") with (SLASH :: str "/").
      change (str "/") with (SLASH :: []). by rewrite !startswith_head_ne.
    - change (str "/" ++ ?x) with (SLASH :: x). rewrite split_sep_cons, Hsplit.
      rewrite filter_cons_False by (by cbv). rewrite (filter_segments _ Hf). split; [|done].
      rewrite Hj. unfold splitroot.
      change (str "///") with (SLASH :: str "//"). change (str "//") with (SLASH :: str "/").
      change (str "/") with (SLASH :: []).
      by rewrite !startswith_head_eq, !startswith_head_ne.
    - change (str "//" ++ ?x) with (SLASH :: SLASH :: x). rewrite !split_sep_cons, Hsplit.
      rewrite !filter_cons_False by (by cbv). rewrite (filter_segments _ Hf). split; [|done].
      rewrite Hj. unfold splitroot.
      change (str "///") with (SLASH :: str "//"). change (str "//") with (SLASH :: str "/").
      change (str "/") with (SLASH :: []).
      by rewrite !startswith_head_eq, !startswith_head_ne. }
  destruct r; by rewrite E1, E2.
Qed.

Lemma path_str_inj (p q : path) : wf p -> wf q -> path_str p = path_str q -> p = q.
Proof.
  intros Hp Hq E. by rewrite <- (parse_path_str p Hp), <- (parse_path_str q Hq), E.
Qed.

(** ** [download_file] and [download_files_for_activity] *)

Section DownloadFacts.
Context {FS : Type}.
Variable exists_ : FS -> path -> bool.
Variables mkdir open_wb : FS -> path -> outcome FS.
Variable url_path : pystr -> outcome pystr.
Implicit Types (fs : FS) (get : session).

Lemma keeps_refl fs : keeps exists_ fs fs.
Proof. by intros q. Qed.

Lemma keeps_trans fs1 fs2 fs3 :
  keeps exists_ fs1 fs2 -> keeps exists_ fs2 fs3 -> keeps exists_ fs1 fs3.
Proof. intros H1 H2 q Hq. by apply H2, H1. Qed.

Lemma keeps_absent fs fs' (p : path) :
  keeps exists_ fs fs' -> exists_ fs' p = false -> exists_ fs p = false.
Proof.
  intros Hk Hp. destruct (exists_ fs p) eqn:E; [|done]. by rewrite (Hk _ E) in Hp.
Qed.

(** Whatever [download_file] answers, it removes nothing. *)
Lemma download_file_keeps fuel fs get url dest_dir default_name res fs' :
  creates exists_ mkdir -> creates exists_ open_wb ->
  download_file exists_ mkdir open_wb fuel fs get url dest_dir default_name
    = Some (Ok (res, fs')) ->
  keeps exists_ fs fs'.
Proof.
  intros Hmk Hop. unfold download_file.
  destruct (mkdir fs dest_dir) as [fs1|e] eqn:Em; [|done].
  destruct (Hmk _ _ _ Em) as [_ K1].
  destruct (get url) as [r|e]; [|by intros [= _ <-]].
  destruct (negb (status_ok r)); [by intros [= _ <-]|].
  destruct (make_unique_path _ _ _) as [q|]; [|done].
  destruct (open_wb fs1 q) as [fs2|e] eqn:Eo; [|by intros [= _ <-]].
  destruct (Hop _ _ _ Eo) as [_ K2].
  destruct (body r); [| |done]; intros [= _ <-]; by eapply keeps_trans.
Qed.

Lemma download_file_saved
    fuel fs get url dest_dir default_name p fs' :
  creates exists_ mkdir -> creates exists_ open_wb -> wf dest_dir ->
  download_file exists_ mkdir open_wb fuel fs get url dest_dir default_name
    = Some (Ok (Some p, fs')) ->
  exists_ fs p = false /\ exists_ fs' p = true /\ keeps exists_ fs fs' /\ wf p
  /\ exists r, get url = Ok r /\ status_ok r = true /\ body_ok r = true
     /\ let filename := download_filename (content_disposition r) default_name in
        (filename <> [DOT] ->
         parent p = dest_dir
         /\ (name p = filename
             \/ exists i, name p = stem (joinpath dest_dir filename) ++ str "_" ++ str_int i
                                   ++ suffix (joinpath dest_dir filename)))
        /\ (filename = [DOT] ->
            parent p = parent dest_dir /\ exists i, name p = candidate_name dest_dir i).
Proof.
  intros Hmk Hop Hwf Hrun. pose proof (download_file_keeps _ _ _ _ _ _ _ _ Hmk Hop Hrun) as K.
  revert Hrun. unfold download_file.
  destruct (mkdir fs dest_dir) as [fs1|e] eqn:Em; [|done].
  destruct (Hmk _ _ _ Em) as [Hd K1].
  destruct (get url) as [r|e]; [|done].
  destruct (status_ok r) eqn:Es; [|done]. cbn [negb].
  set (filename := download_filename (content_disposition r) default_name).
  destruct (download_filename_segment (content_disposition r) default_name) as [F1 F2].
  fold filename in F1, F2.
  destruct (make_unique_path _ _ _) as [q|] eqn:Eq; [|done].
  destruct (open_wb fs1 q) as [fs2|e] eqn:Eo; [|done].
  destruct (Hop _ _ _ Eo) as [Hq K2].
  destruct (body r) eqn:Eb; [|done|done]. intros [= <- <-].
  assert (Eok : body_ok r = true) by (unfold body_ok; by rewrite Eb).
  pose proof (unique_path_first_free _ _ _ _ Eq) as (Hfree & H0 & H1).
  assert (W0 : wf (joinpath dest_dir filename)) by by apply joinpath_wf.
  assert (Wq : wf q).
  { destruct (exists_ fs1 (joinpath dest_dir filename)).
    - destruct (H1 eq_refl) as (i & _ & -> & _). rewrite (candidate_snoc _ _ W0).
      destruct (parent_wf _ W0) as [R S]. split; [done|]. simpl. apply Forall_app.
      split; [done|]. constructor; [|done].
      destruct (candidate_name_segment (joinpath dest_dir filename) i W0) as (? & ? & ?). done.
    - by rewrite (H0 eq_refl). }
  split; [by eapply keeps_absent|]. split; [done|]. split; [done|]. split; [done|].
  exists r. split; [done|]. split; [done|]. split; [done|]. cbv zeta. fold filename. split.
  - intros Hdot. rewrite (joinpath_segment dest_dir filename F2 F1 Hdot) in *.
    assert (Hseg : segments (Path (root dest_dir) (segments dest_dir ++ [filename])) <> []).
    { simpl. by destruct (segments dest_dir). }
    destruct (unique_path_keeps_place _ _ _ _ W0 Hseg Eq) as (Hpar & _ & Hname).
    rewrite parent_snoc in Hpar. split; [by destruct dest_dir|].
    destruct Hname as [->|Hname]; [left; apply name_snoc | by right].
  - intros Hdot. rewrite Hdot, joinpath_dot in *. rewrite Hd in H1.
    destruct (H1 eq_refl) as (i & _ & -> & _).
    rewrite (candidate_snoc _ _ Hwf), parent_snoc, name_snoc.
    split; [by destruct (parent dest_dir) | by exists i].
Qed.

(** X11.  A file that [download_file] reports as saved is new and is in
    place: the path did not exist before the call and exists after it, and
    nothing that existed is gone.  The file lies directly in the
    destination directory, under the sanitised name or that name with a
    counter, with one exception: a name that is a single dot denotes the
    directory itself, and the file is then saved beside the directory,
    under the directory's name with a counter. *)
Theorem download_file_saves_new_file
    fuel fs get url dest_dir default_name p fs' :
  creates exists_ mkdir -> creates exists_ open_wb -> wf dest_dir ->
  download_file exists_ mkdir open_wb fuel fs get url dest_dir default_name
    = Some (Ok (Some p, fs')) ->
  exists_ fs p = false /\ exists_ fs' p = true /\ keeps exists_ fs fs' /\ wf p
  /\ exists r, get url = Ok r /\ status_ok r = true /\ body_ok r = true
     /\ let filename := download_filename (content_disposition r) default_name in
        (filename <> [DOT] ->
         parent p = dest_dir
         /\ (name p = filename
             \/ exists i, name p = stem (joinpath dest_dir filename) ++ str "_" ++ str_int i
                                   ++ suffix (joinpath dest_dir filename)))
        /\ (filename = [DOT] ->
            parent p = parent dest_dir /\ exists i, name p = candidate_name dest_dir i).
Proof. apply download_file_saved. Qed.

Lemma download_file_mono fuel fuel' fs get url dest_dir default_name res :
  download_file exists_ mkdir open_wb fuel fs get url dest_dir default_name = Some res ->
  (fuel <= fuel')%nat ->
  download_file exists_ mkdir open_wb fuel' fs get url dest_dir default_name = Some res.
Proof.
  unfold download_file. intros H Hle.
  destruct (mkdir fs dest_dir) as [fs1|e]; [|done].
  destruct (get url) as [r|e]; [|done].
  destruct (negb (status_ok r)); [done|].
  destruct (make_unique_path (exists_ fs1) fuel _) as [q|] eqn:Eq; [|done].
  by rewrite (make_unique_path_mono _ _ _ _ _ Eq Hle).
Qed.

Lemma download_loop_mono fuel fuel' fs get urls dest_dir acc res :
  download_loop exists_ mkdir open_wb url_path fuel fs get urls dest_dir acc = Some res ->
  (fuel <= fuel')%nat ->
  download_loop exists_ mkdir open_wb url_path fuel' fs get urls dest_dir acc = Some res.
Proof.
  intros H Hle. revert fs acc H. induction urls as [|u urls IH]; intros fs acc; [done|].
  cbn [download_loop]. destruct (extract_filename_from_url url_path u) as [dn|e]; [|done].
  destruct (download_file exists_ mkdir open_wb fuel fs get u dest_dir dn) as [r|] eqn:E; [|done].
  rewrite (download_file_mono _ _ _ _ _ _ _ _ E Hle).
  destruct r as [[saved fs1]|e]; [|done]. apply IH.
Qed.

Lemma download_file_terminates fs get url dest_dir default_name :
  finite_directories exists_ -> bodies_end get -> wf dest_dir ->
  exists fuel res,
    download_file exists_ mkdir open_wb fuel fs get url dest_dir default_name = Some res.
Proof.
  intros Hfin Hend Hwf. unfold download_file.
  destruct (mkdir fs dest_dir) as [fs1|e]; [|by exists 0%nat; eexists].
  destruct (get url) as [r|e] eqn:Eg; [|by exists 0%nat; eexists].
  pose proof (Hend _ _ Eg) as Hr.
  destruct (negb (status_ok r)); [by exists 0%nat; eexists|].
  set (p0 := joinpath dest_dir _).
  destruct (Hfin fs1 (parent p0)) as [names Hnames].
  destruct (unique_path_loop_ends (exists_ fs1) p0 names) as [q Hq];
    [by apply joinpath_wf | done |].
  exists (S (length names)). rewrite Hq.
  destruct (open_wb fs1 q); [destruct (body r); [| |done]|]; by eexists.
Qed.

Lemma download_loop_terminates fs get urls dest_dir acc :
  finite_directories exists_ -> bodies_end get -> wf dest_dir ->
  exists fuel res,
    download_loop exists_ mkdir open_wb url_path fuel fs get urls dest_dir acc = Some res.
Proof.
  intros Hfin Hend Hwf. revert fs acc. induction urls as [|u urls IH]; intros fs acc.
  { exists 0%nat. by eexists. }
  cbn [download_loop]. destruct (extract_filename_from_url url_path u) as [dn|e];
    [|exists 0%nat; by eexists].
  destruct (download_file_terminates fs get u dest_dir dn Hfin Hend Hwf)
    as (f1 & r1 & E1).
  destruct r1 as [[saved fs1]|e].
  - destruct (IH fs1 (match saved with Some p => acc ++ [path_str p] | None => acc end))
      as (f2 & r2 & E2).
    exists (f1 `max` f2)%nat, r2.
    rewrite (download_file_mono _ _ _ _ _ _ _ _ E1 (Nat.le_max_l f1 f2)).
    apply (download_loop_mono _ _ _ _ _ _ _ _ E2 (Nat.le_max_r f1 f2)).
  - exists f1. rewrite E1. by eexists.
Qed.

Lemma download_loop_saved fuel fs get urls dest_dir acc paths fs' :
  creates exists_ mkdir -> creates exists_ open_wb -> wf dest_dir ->
  download_loop exists_ mkdir open_wb url_path fuel fs get urls dest_dir acc
    = Some (Ok (paths, fs')) ->
  keeps exists_ fs fs'
  /\ exists saved : list path,
       paths = acc ++ map path_str saved /\ NoDup saved
       /\ (length saved <= length urls)%nat
       /\ Forall (fun p => exists_ fs p = false /\ exists_ fs' p = true /\ wf p
                           /\ (parent p = dest_dir \/ parent p = parent dest_dir)) saved.
Proof.
  intros Hmk Hop Hwf. revert fs acc. induction urls as [|u urls IH]; intros fs acc.
  { intros [= <- <-]. split; [apply keeps_refl|]. exists []. rewrite app_nil_r.
    repeat split; [constructor | done | constructor]. }
  cbn [download_loop]. destruct (extract_filename_from_url url_path u) as [dn|e]; [|done].
  destruct (download_file exists_ mkdir open_wb fuel fs get u dest_dir dn)
    as [[[saved fs1]|e]|] eqn:E; [|done|done].
  pose proof (download_file_keeps _ _ _ _ _ _ _ _ Hmk Hop E) as K1.
  intros (K2 & rest & -> & Hnd & Hlen & Hall)%IH.
  split; [by eapply keeps_trans|].
  assert (Hrest : Forall (fun p => exists_ fs p = false /\ exists_ fs' p = true /\ wf p
                           /\ (parent p = dest_dir \/ parent p = parent dest_dir)) rest).
  { eapply Forall_impl; [exact Hall|]. intros p (H1 & H2 & H3 & H4).
    split; [by eapply keeps_absent | exact (conj H2 (conj H3 H4))]. }
  destruct saved as [p|].
  - destruct (download_file_saved _ _ _ _ _ _ _ _ Hmk Hop Hwf E)
      as (P1 & P2 & _ & P4 & r & _ & _ & _ & Hin & Hout).
    exists (p :: rest). rewrite <- app_assoc. split; [done|]. split.
    { constructor; [|done]. intros Hp. rewrite Forall_forall in Hall.
      destruct (Hall _ Hp) as (Habs & _). congruence. }
    split; [simpl; lia|]. constructor; [|done].
    split; [done|]. split; [by apply K2|]. split; [done|].
    destruct (decide (download_filename (content_disposition r) dn = [DOT])) as [Hd|Hd].
    + right. by destruct (Hout Hd).
    + left. by destruct (Hin Hd).
  - exists rest. split; [done|]. split; [done|]. split; [simpl; lia | done].
Qed.

(** X12.  The paths [download_files_for_activity] returns: no path occurs
    twice, there are at most as many as URLs, every one of them names a
    file that did not exist before the call and exists after it, in the
    directory of the activity or, for a name that is a single dot, beside
    it; and no file that existed before is gone. *)
Theorem download_files_for_activity_saves_new_files
    fuel fs get urls title si sn ai an paths fs' :
  creates exists_ mkdir -> creates exists_ open_wb ->
  download_files_for_activity exists_ mkdir open_wb url_path fuel fs get urls title si sn ai an
    = Some (Ok (paths, fs')) ->
  NoDup paths /\ (length paths <= length urls)%nat /\ keeps exists_ fs fs'
  /\ exists saved : list path,
       paths = map path_str saved
       /\ Forall (fun p => exists_ fs p = false /\ exists_ fs' p = true
                           /\ (parent p = dest_dir_of title si sn ai an
                               \/ parent p = parent (dest_dir_of title si sn ai an))) saved.
Proof.
  intros Hmk Hop Hrun. unfold download_files_for_activity in Hrun.
  apply (download_loop_saved _ _ _ _ _ _ _ _ Hmk Hop (dest_dir_of_wf _ _ _ _ _)) in Hrun
    as (K & saved & -> & Hnd & Hlen & Hall).
  cbn [app]. split.
  { apply NoDup_fmap_2_strong; [|done]. intros p q Hp Hq. rewrite Forall_forall in Hall.
    destruct (Hall _ Hp) as (_ & _ & Wp & _), (Hall _ Hq) as (_ & _ & Wq & _).
    by apply path_str_inj. }
  split; [by rewrite length_map|]. split; [done|]. exists saved. split; [done|].
  eapply Forall_impl; [exact Hall|]. intros p (? & ? & _ & ?). done.
Qed.

(** A body without end keeps [download_file] from returning: once the
    file is open, the loop over the chunks runs for ever, whatever the fuel
    of [make_unique_path] is. *)
Lemma download_file_endless_body fuel fs fs1 get url dest_dir default_name r :
  mkdir fs dest_dir = Ok fs1 -> (forall q, exists fs2, open_wb fs1 q = Ok fs2) ->
  get url = Ok r -> status_ok r = true -> body r = Endless ->
  download_file exists_ mkdir open_wb fuel fs get url dest_dir default_name = None.
Proof.
  intros Em Hopen Eg Es Eb. unfold download_file. rewrite Em, Eg, Es. cbn [negb].
  destruct (make_unique_path _ _ _) as [q|]; [|done].
  destruct (Hopen q) as [fs2 ->]. by rewrite Eb.
Qed.


End DownloadFacts.

(** ** The example file system *)

Lemma add_path_creates : creates listed add_path.
Proof.
  intros fs p fs' [= <-]. split.
  - apply bool_decide_eq_true. by left.
  - intros q Hq%bool_decide_eq_true. apply bool_decide_eq_true. by right.
Qed.

Lemma listed_names (fs : list path) (d : path) (s : pystr) :
  SLASH ∉ s -> listed fs (joinpath d s) = true -> s ∈ [] :: [DOT] :: map name fs.
Proof.
  intros Hs Hin%bool_decide_eq_true.
  destruct (decide (s = [])) as [->|H1]; [by left|].
  destruct (decide (s = [DOT])) as [->|H2]; [right; by left|].
  rewrite (joinpath_segment d s Hs H1 H2) in Hin. do 2 right.
  apply list_elem_of_fmap. eexists. split; [|exact Hin]. by rewrite name_snoc.
Qed.

Lemma listed_finite : finite_directories listed.
Proof. intros fs d. eexists. apply listed_names. Qed.

Lemma serve_bodies_end (cd : option pystr) : bodies_end (serve cd).
Proof. by intros u r [= <-]. Qed.

(** ** Worked examples *)

Lemma make_unique_path_first_free_witness :
  listed [parse (str "d/a.txt"); parse (str "d/a_2.txt")] (parse (str "d/a_3.txt")) = false.
Proof.
  exact (proj1 (make_unique_path_first_free
                  (listed [parse (str "d/a.txt"); parse (str "d/a_2.txt")]) 5
                  (parse (str "d/a.txt")) (parse (str "d/a_3.txt")) eq_refl)).
Defined.

Lemma make_unique_path_terminates_witness :
  exists q, make_unique_path (listed [parse (str "d/a.txt")]) 4 (parse (str "d/a.txt")) = Some q.
Proof.
  exact (make_unique_path_terminates (listed [parse (str "d/a.txt")]) (parse (str "d/a.txt"))
           ([] :: [DOT] :: map name [parse (str "d/a.txt")])
           (parse_wf _) (listed_names _ _)).
Defined.

Lemma make_unique_path_keeps_place_witness :
  parent (parse (str "d/x.tar_2.gz")) = parent (parse (str "d/x.tar.gz")).
Proof.
  assert (Hne : segments (parse (str "d/x.tar.gz")) <> []) by done.
  exact (proj1 (make_unique_path_keeps_place (listed [parse (str "d/x.tar.gz")]) 3
                  (parse (str "d/x.tar.gz")) (parse (str "d/x.tar_2.gz"))
                  (parse_wf _) Hne eq_refl)).
Defined.

Lemma download_file_saves_new_file_witness :
  let dest := dest_dir_of (str "Algebra") 1 (str "Week") 2 (str "Notes") in
  let p := joinpath dest (str "report.docx") in
  listed [] p = false /\ listed [p; dest] p = true.
Proof.
  intros dest p.
  assert (Hrun : download_file listed add_path add_path 1 [] (serve (Some CD_QUOTED))
                   (str "u") dest (str "x") = Some (Ok (Some p, [p; dest])))
    by (vm_compute; reflexivity).
  destruct (download_file_saves_new_file listed add_path add_path 1 [] (serve (Some CD_QUOTED))
              (str "u") dest (str "x") p [p; dest]
              add_path_creates add_path_creates (dest_dir_of_wf _ _ _ _ _) Hrun)
    as (H1 & H2 & _).
  by split.
Defined.

(** A header whose name is a single dot: the file lands beside the
    directory of the activity, named after it. *)
Lemma download_file_single_dot :
  let dest := dest_dir_of (str "Algebra") 1 (str "Week") 2 (str "Notes") in
  let p := parse (str "moodle_downloads/Algebra/01_Week/02_Notes_2") in
  download_file listed add_path add_path 1 []
    (serve (Some (str "attachment; filename=."))) (str "u") dest (str "x")
  = Some (Ok (Some p, [p; dest])).
Proof. vm_compute. reflexivity. Qed.

Lemma download_files_for_activity_saves_new_files_witness :
  NoDup (map path_str
           [parse (str "moodle_downloads/Algebra/01_Week/02_Notes/report.docx");
            parse (str "moodle_downloads/Algebra/01_Week/02_Notes/report_2.docx")]).
Proof.
  set (p1 := parse (str "moodle_downloads/Algebra/01_Week/02_Notes/report.docx")).
  set (p2 := parse (str "moodle_downloads/Algebra/01_Week/02_Notes/report_2.docx")).
  set (dest := dest_dir_of (str "Algebra") 1 (str "Week") 2 (str "Notes")).
  assert (Hrun : download_files_for_activity listed add_path add_path path_of_url 2 []
                   (serve (Some CD_QUOTED)) [str "u1"; str "u2"]
                   (str "Algebra") 1 (str "Week") 2 (str "Notes")
                 = Some (Ok (map path_str [p1; p2], [p2; dest; p1; dest])))
    by (vm_compute; reflexivity).
  exact (proj1 (download_files_for_activity_saves_new_files listed add_path add_path
                  path_of_url 2 [] (serve (Some CD_QUOTED)) [str "u1"; str "u2"]
                  (str "Algebra") 1 (str "Week") 2 (str "Notes")
                  (map path_str [p1; p2]) [p2; dest; p1; dest]
                  add_path_creates add_path_creates Hrun)).
Defined.


(** ** The shape of the assignment record *)

Ltac field_solver :=
  first [ done
        | cbv [field_ok META_FIELDS DATE_FIELDS STATUS_FIELDS app];
          first [ done | by repeat first [apply list_elem_of_here | apply list_elem_of_further] ] ].

Lemma shape_insert {F : Type} (meta : gmap string (pyval F)) (k : string) (v : pyval F) :
  record_shape meta -> k ∈ META_FIELDS -> field_ok k v -> record_shape (<[k := v]> meta).
Proof.
  intros [Hdom Hval] Hk Hv. split.
  - intros k'. destruct (decide (k = k')) as [<-|Hne].
    + rewrite lookup_insert_eq. split; [by eexists | done].
    + by rewrite lookup_insert_ne.
  - intros k' v'. destruct (decide (k = k')) as [<-|Hne].
    + rewrite lookup_insert_eq. by intros [= <-].
    + rewrite lookup_insert_ne by done. apply Hval.
Qed.

Lemma shape_fold {F : Type} (step : gmap string (pyval F) -> node -> gmap string (pyval F))
    (l : list node) (meta : gmap string (pyval F)) :
  (forall m n, record_shape m -> record_shape (step m n)) ->
  record_shape meta -> record_shape (fold_left step l meta).
Proof.
  intros Hs. revert meta. induction l as [|n l IH]; intros meta H; [done|].
  simpl. by apply IH, Hs.
Qed.

Lemma shape_META0 {F : Type} : record_shape (@META0 F).
Proof.
  split.
  - intros k. split.
    + intros Hk. unfold META_FIELDS, DATE_FIELDS, STATUS_FIELDS in Hk. simpl in Hk.
      repeat (apply elem_of_cons in Hk as [->|Hk]; [by eexists|]).
      by apply elem_of_nil in Hk.
    + intros [v Hv]. unfold META0 in Hv.
      repeat (apply lookup_insert_Some in Hv as [[<- _]|[_ Hv]]; [field_solver|]).
      by rewrite lookup_empty in Hv.
  - intros k v Hv. unfold META0 in Hv.
    repeat (apply lookup_insert_Some in Hv as [[<- <-]|[_ Hv]]; [field_solver|]).
    by rewrite lookup_empty in Hv.
Qed.

Lemma shape_activity_date_step {F : Type} (meta : gmap string (pyval F)) (d : node) :
  record_shape meta -> record_shape (activity_date_step meta d).
Proof.
  intros H. unfold activity_date_step. destruct (find "strong" d); [|done].
  destruct (negb _); [done|].
  destruct (_ && _); [apply shape_insert; [done | field_solver | field_solver]|].
  destruct (_ && _); [apply shape_insert; [done | field_solver | field_solver]|done].
Qed.

Lemma shape_date_row_step {F : Type} (meta : gmap string (pyval F)) (r : node) :
  record_shape meta -> record_shape (date_row_step meta r).
Proof.
  intros H. unfold date_row_step.
  repeat (match goal with
          | |- record_shape (if ?c then _ else _) => destruct c
          | |- record_shape (<[_ := _]> _) => apply shape_insert; [|field_solver|field_solver]
          end); done.
Qed.

Lemma shape_status_row_step {F : Type} (meta : gmap string (pyval F)) (r : node) :
  record_shape meta -> record_shape (status_row_step meta r).
Proof.
  intros H. unfold status_row_step.
  destruct (find "th" r); [|done]. destruct (find "td" r); [|done].
  repeat (match goal with
          | |- record_shape (if ?c then _ else _) => destruct c
          | |- record_shape (<[_ := _]> _) => apply shape_insert; [|field_solver|field_solver]
          end); done.
Qed.

Lemma shape_store_grade {F : Type} (pyfloat : pystr -> option F)
    (meta : gmap string (pyval F)) (g : pystr) :
  record_shape meta -> record_shape (store_grade pyfloat meta g).
Proof.
  intros H. unfold store_grade.
  assert (H1 : record_shape (<["grade_text" := VStr g]> meta))
    by (apply shape_insert; [done | field_solver | field_solver]).
  assert (Hf : forall x : option F, field_ok "grade_raw" (float_val x)
                                    /\ field_ok "grade_max" (float_val x))
    by (intros [x|]; split; field_solver).
  destruct (split 0x2F g) as [|a [|b [|c l]]]; try done.
  apply shape_insert; [|field_solver|apply Hf].
  apply shape_insert; [done|field_solver|apply Hf].
Qed.

Lemma shape_grade_loop {F : Type} (pyfloat : pystr -> option F) (rows : list node)
    (meta : gmap string (pyval F)) :
  record_shape meta -> record_shape (grade_loop pyfloat rows meta).
Proof.
  intros H. induction rows as [|r rows IH]; [done|]. simpl.
  destruct (find "th" r); [|done]. destruct (find "td" r); [|done].
  destruct (contains L_GRADE _); [by apply shape_store_grade | done].
Qed.

(** X14.  The record [parse_assign_page] returns.  It is the empty record
    when the navigation fails.  When the page has been opened and read, its
    keys are exactly the twelve fields: the list of attached files under
    [files], a number or [None] under [grade_raw] and [grade_max], a text
    or [None] under every other field. *)
Theorem parse_assign_page_record {F : Type} (pyfloat : pystr -> option F)
    (page : browser) (url : pystr) (meta : gmap string (pyval F)) :
  parse_assign_page pyfloat page url = Ok meta ->
  (meta = ∅ /\ exists e, page url = Raised e)
  \/ (exists soup, page url = Ok soup
         /\ record_shape meta
         /\ meta !! "files" = Some (VList (attached_files soup))).
Proof.
  unfold parse_assign_page. destruct (page url) as [soup|e]; intros [= <-].
  - right. exists soup. split; [done|]. split.
    + unfold assign_meta. apply shape_grade_loop.
      apply shape_insert; [|field_solver|field_solver].
      apply shape_fold; [apply shape_status_row_step|].
      apply shape_fold; [apply shape_date_row_step|].
      apply shape_fold; [apply shape_activity_date_step|].
      apply shape_META0.
    + unfold assign_meta. apply grade_loop_other; [set_solver|].
      apply lookup_insert_eq.
  - left. split; [done | by exists e].
Qed.

Lemma parse_assign_page_record_witness :
  exists soup, assign_browser assign_url = Ok soup
    /\ record_shape (assign_meta plain_float soup)
    /\ assign_meta plain_float soup !! "files" = Some (VList (attached_files soup)).
Proof.
  destruct (parse_assign_page_record plain_float assign_browser assign_url
              (assign_meta plain_float assign_page) eq_refl)
    as [[_ [e He]]|(soup & Hs & Hshape & Hfiles)]; [discriminate He|].
  injection Hs as <-. exists assign_page. by split.
Defined.

(** ** Names from the URL *)

(** X15.  The default name [extract_filename_from_url] takes from a URL
    is a file name: never empty, never a single dot, and without a slash.
    The function raises only when [urlparse] does. *)
Theorem extract_filename_from_url_is_name (url_path : pystr -> outcome pystr) (file_url : pystr) :
  match extract_filename_from_url url_path file_url with
  | Ok n => n <> [] /\ n <> [DOT] /\ SLASH ∉ n
  | Raised e => url_path file_url = Raised e
  end.
Proof.
  unfold extract_filename_from_url. destruct (url_path file_url) as [p|e]; [|done].
  set (q := parse (unquote p)). pose proof (parse_wf (unquote p)) as [_ Hq]. fold q in Hq.
  unfold name, last_part.
  destruct (segments q) as [|x l _] using rev_ind.
  - simpl. repeat split; [done | done | compute_done].
  - rewrite last_last. apply Forall_app in Hq as [_ Hx].
    apply Forall_cons in Hx as [(H1 & H2 & H3) _].
    by destruct x.
Qed.

(** ** The dashboard *)

Lemma course_of_link_usable (a : node) (c : course) :
  course_of_link a = Some c -> usable_url (url c).
Proof.
  unfold course_of_link. destruct (get "href" a) as [u|]; [|done].
  destruct u as [|x u]; [done|]. intros [= <-]. by apply absolutize_usable.
Qed.

(** X16.  The courses of the dashboard.  Every course returned has a URL
    that is non-empty and not host-relative.  There is none unless some
    [h2] or [h3] heading holds the phrase; the first such heading decides:
    the courses are looked for in the nearest [section] above it, and
    there is none when it has no [section] above it, whatever the later
    headings are. *)
Theorem parse_dashboard_courses_result (soup : node) :
  Forall (fun c => usable_url (url c)) (parse_dashboard_courses soup)
  /\ (Forall (fun '(_, h) => is_courses_heading h = false) (headings soup) ->
      parse_dashboard_courses soup = [])
  /\ (forall before anc h after,
        headings soup = before ++ (anc, h) :: after ->
        Forall (fun '(_, h') => is_courses_heading h' = false) before ->
        is_courses_heading h = true ->
        match find_parent "section" anc with
        | None => parse_dashboard_courses soup = []
        | Some (anc', section) =>
            parse_dashboard_courses soup
            = omap course_of_link (select_course_links anc' section)
        end).
Proof.
  split; [|split].
  - unfold parse_dashboard_courses. destruct (target_section soup) as [[anc sec]|]; [|done].
    apply Forall_forall. intros c (a & _ & Ha)%list_elem_of_omap.
    by eapply course_of_link_usable.
  - intros Hall. unfold parse_dashboard_courses, target_section.
    destruct (List.find _ (headings soup)) as [[anc h]|] eqn:E; [|done].
    apply find_some in E as [Hin Hh]. apply list_elem_of_In in Hin.
    rewrite Forall_forall in Hall. specialize (Hall _ Hin). simpl in Hall. congruence.
  - intros before anc h after Hh Hbefore Hmatch.
    unfold parse_dashboard_courses, target_section. rewrite Hh.
    assert (List.find (fun '(_, h0) => is_courses_heading h0) (before ++ (anc, h) :: after)
            = Some (anc, h)) as ->.
    { clear Hh. induction Hbefore as [|[a0 h0] l H0 _ IH]; simpl.
      - by rewrite Hmatch.
      - by rewrite H0. }
    by destruct (find_parent "section" anc) as [[anc' sec]|].
Qed.

Lemma parse_dashboard_courses_result_witness :
  Forall (fun c => usable_url (url c))
    [Course (str "Algebra") (str "https://moodle.elct.lnu.edu.ua/course/view.php?id=5")].
Proof. exact (proj1 (parse_dashboard_courses_result dashboard_page)). Defined.

(** ** Folders nested in folders *)

Lemma walk_anc_nonempty (anc : list node) (n : node) :
  Forall (fun x => fst x <> []) (walk anc n).
Proof.
  revert anc. induction n as [s|name cls attrs kids IH] using node_ind'; intros anc; [done|].
  simpl. set (a := Tag name cls attrs kids :: anc). assert (Ha : a <> []) by done.
  clearbody a. induction IH as [|k kids' Hk _ IHk]; simpl; [done|].
  constructor; [done|]. apply Forall_app. split; [apply Hk | apply IHk].
Qed.

(** What the child selector returns below a node does not depend on what
    lies above the node. *)
Lemma select_child_of_walk (pcls cls : string) (anc : list node) (n : node) :
  omap (fun '(anc, d) =>
          match anc with
          | parent :: _ => if has_class cls d && has_class pcls parent then Some d else None
          | [] => None
          end) (walk anc n)
  = select_child_of pcls cls n.
Proof.
  unfold select_child_of. rewrite (walk_shift anc n).
  pose proof (walk_anc_nonempty [] n) as Hne. revert Hne. generalize (walk [] n). intros l Hne.
  induction Hne as [|[a d] l Ha _ IH]; [done|].
  simpl in Ha. destruct a as [|p a]; [done|].
  rewrite map_cons. cbn [omap list_omap app]. cbn [omap] in IH. by rewrite IH.
Qed.

Lemma folder_chain_is_item (n : nat) : has_class "ygtvitem" (folder_chain n) = true.
Proof. by destruct n. Qed.

Lemma child_items_chain_step (n : nat) :
  child_items (folder_chain (S n)) = folder_chain n :: child_items (folder_chain n).
Proof.
  unfold child_items at 1. unfold select_child_of.
  cbn [folder_chain div walk flat_map app omap list_omap].
  rewrite !app_nil_r. cbn [omap list_omap].
  rewrite folder_chain_is_item.
  change (has_class "ygtvitem" (Tag "div" ["ygtvchildren"] [("id"%string, str "children")]
            [folder_chain n])) with false.
  change (has_class "ygtvchildren" (Tag "div" ["ygtvchildren"] [("id"%string, str "children")]
            [folder_chain n])) with true.
  cbn [andb]. f_equal. apply select_child_of_walk.
Qed.

Lemma child_items_chain (n : nat) :
  child_items (folder_chain n) = map folder_chain (rev (List.seq 0 n)).
Proof.
  induction n as [|n IH]; [reflexivity|].
  rewrite child_items_chain_step, IH, seq_S, rev_app_distr. done.
Qed.

Lemma visits_fold_chain (fuel : nat) (ks : list nat) (acc : list node) :
  Forall (fun k => exists vs, visits fuel (folder_chain k) = Some vs /\ length vs = (2 ^ k)%nat) ks ->
  exists vs,
    fold_left (fun acc child => vs ← acc; vs' ← visits fuel child; Some (vs ++ vs'))
              (map folder_chain ks) (Some acc) = Some vs
    /\ length vs = (length acc + sum_list (map (fun k => 2 ^ k)%nat ks))%nat.
Proof.
  intros H. revert acc. induction H as [|k ks (vk & Ek & Lk) _ IH]; intros acc.
  - exists acc. split; [done | simpl; lia].
  - simpl. rewrite Ek. simpl. destruct (IH (acc ++ vk)) as (vs & E & L).
    exists vs. split; [done|]. rewrite L, length_app, Lk. lia.
Qed.

Lemma sum_pow2 (n : nat) :
  (sum_list (map (fun k => 2 ^ k) (rev (List.seq 0 n))) + 1 = 2 ^ n)%nat.
Proof.
  induction n as [|n IH]; [done|].
  rewrite seq_S, rev_app_distr. cbn [rev app map sum_list Nat.add].
  rewrite Nat.pow_succ_r'. unfold id in *. lia.
Qed.

Lemma visits_chain (fuel n : nat) :
  (n < fuel)%nat ->
  exists vs, visits fuel (folder_chain n) = Some vs /\ length vs = (2 ^ n)%nat.
Proof.
  revert n. induction fuel as [|fuel IH]; intros n Hn; [lia|].
  cbn [visits]. rewrite child_items_chain.
  destruct (visits_fold_chain fuel (rev (List.seq 0 n)) [folder_chain n]) as (vs & E & L).
  { apply Forall_forall. intros k Hk. apply list_elem_of_In, in_rev, in_seq in Hk. apply IH. lia. }
  exists vs. split; [done|]. rewrite L. pose proof (sum_pow2 n). simpl. lia.
Qed.

Lemma items_of_chain (n : nat) : length (items_of (folder_chain n)) = S n.
Proof.
  unfold items_of. induction n as [|n IH]; [reflexivity|].
  rewrite filter_cons_True by apply folder_chain_is_item.
  cbn [folder_chain div descendants flat_map]. rewrite !app_nil_r.
  rewrite filter_cons_False by (by cbv).
  cbn [length]. by rewrite IH.
Qed.

(** X17.  The walk of [parse_folder_tree] doubles with every level of
    nesting.  On a chain of [n] folders nested one in the other, the
    child selector returns at each item all the items below it, not only
    the next one, so [recurse] is called [2 ^ n] times although the tree
    has [n + 1] items; the list of files is nonetheless the one of a
    single pass. *)
Theorem recurse_calls_double_with_depth (n : nat) (files : list pystr) :
  length (items_of (folder_chain n)) = S n
  /\ length (child_items (folder_chain n)) = n
  /\ (exists vs, visits (S n) (folder_chain n) = Some vs /\ length vs = (2 ^ n)%nat)
  /\ recurse (S (height (folder_chain n))) (folder_chain n) files
     = Some (fold_left append_new (targets_at (folder_chain n)) files).
Proof.
  split; [apply items_of_chain|]. split.
  { by rewrite child_items_chain, length_map, length_rev, length_seq. }
  split; [apply visits_chain; lia | apply recurse_closed; lia].
Qed.

(** ** The course page *)

Lemma enumerate_loop_inv {A S : Type} (body : Z -> A -> S -> option (outcome S))
    (Inv : S -> Prop) :
  (forall i x s s', Inv s -> body i x s = Some (Ok s') -> Inv s') ->
  forall i xs s s', Inv s -> enumerate_loop body i xs s = Some (Ok s') -> Inv s'.
Proof.
  intros Hstep i xs. revert i. induction xs as [|x xs IH]; intros i s s' Hs; simpl.
  - by intros [= <-].
  - destruct (body i x s) as [[s1|e]|] eqn:E; [|done|done].
    apply IH. by eapply Hstep.
Qed.

Section CoursePageFacts.
Context {F FS : Type}.
Variable pyfloat : pystr -> option F.
Variable exists_ : FS -> path -> bool.
Variables mkdir open_wb : FS -> path -> outcome FS.
Variable url_path : pystr -> outcome pystr.
Variable reparse : node -> node.
Hypothesis mkdir_creates : creates exists_ mkdir.
Hypothesis open_creates : creates exists_ open_wb.

Lemma fresh_paths_grow (fs0 fs1 fs2 : FS) (old new : list pystr) (saved : list path) :
  keeps exists_ fs0 fs1 -> keeps exists_ fs1 fs2 ->
  fresh_paths exists_ fs0 fs1 old ->
  new = map path_str saved -> NoDup saved ->
  Forall (fun p => exists_ fs1 p = false /\ exists_ fs2 p = true /\ wf p) saved ->
  fresh_paths exists_ fs0 fs2 (old ++ new).
Proof.
  intros K01 K12 (so & -> & Ndo & Fo) -> Nds Fs.
  exists (so ++ saved). split; [by rewrite map_app|]. split.
  - apply NoDup_app. split; [done|]. split; [|done].
    intros p Hp Hp'. rewrite Forall_forall in Fo, Fs.
    destruct (Fo _ Hp) as (_ & _ & E1), (Fs _ Hp') as (E2 & _). congruence.
  - apply Forall_app. split.
    + eapply Forall_impl; [exact Fo|]. intros p (W & A & E). split; [done|]. split; [done | by apply K12].
    + eapply Forall_impl; [exact Fs|]. intros p (A & E & W).
      split; [done|]. split; [|done]. destruct (exists_ fs0 p) eqn:E0; [|done].
      by rewrite (K01 _ E0) in A.
Qed.

Lemma activity_step_fresh (fs0 : FS) (pre : list pystr) fuel sess page ct sn w si ai act
    (objs objs' : list (activity_obj (F := F))) (ws ws' : list webinar) (fs fs' : FS) :
  activity_step pyfloat exists_ mkdir open_wb url_path reparse fuel sess page ct sn w si ai act
    (objs, ws, fs) = Some (Ok (objs', ws', fs')) ->
  keeps exists_ fs0 fs /\ fresh_paths exists_ fs0 fs (pre ++ downloaded_of_activities objs) ->
  keeps exists_ fs0 fs' /\ fresh_paths exists_ fs0 fs' (pre ++ downloaded_of_activities objs').
Proof.
  unfold activity_step. destruct (find "a" act) as [link|]; [|by intros [= <- <- <-]].
  destruct (planned _ _ _ _ _ _) as [[[meta files] urls]|e]; [|done].
  destruct urls as [|u urls].
  - intros [= <- <- <-] [K Hf]. split; [done|].
    unfold downloaded_of_activities. rewrite flat_map_app. simpl. by rewrite !app_nil_r.
  - destruct (download_files_for_activity _ _ _ _ _ _ _ _ _ _ _ _ _) as [[[paths fs1]|e]|] eqn:E;
      [|done|done].
    intros [= <- <- <-] [K Hf]. unfold download_files_for_activity in E.
    apply (download_loop_saved _ _ _ _ _ _ _ _ _ _ _ _ mkdir_creates open_creates
             (dest_dir_of_wf _ _ _ _ _)) in E as (K1 & saved & -> & Nd & _ & Hall).
    split; [by eapply keeps_trans|].
    unfold downloaded_of_activities. rewrite flat_map_app. simpl. rewrite app_nil_r, app_assoc.
    eapply (fresh_paths_grow fs0 fs fs1); [done | done | done | done | done |].
    eapply Forall_impl; [exact Hall|]. intros p (? & ? & ? & _). done.
Qed.

Lemma section_step_fresh (fs0 : FS) fuel sess page ct si sec
    (secs secs' : list (section_obj (F := F))) (ws ws' : list webinar) (fs fs' : FS) :
  section_step pyfloat exists_ mkdir open_wb url_path reparse fuel sess page ct si sec
    (secs, ws, fs) = Some (Ok (secs', ws', fs')) ->
  keeps exists_ fs0 fs
  /\ fresh_paths exists_ fs0 fs
       (flat_map (fun s => downloaded_of_activities (s_activities s)) secs) ->
  keeps exists_ fs0 fs'
  /\ fresh_paths exists_ fs0 fs'
       (flat_map (fun s => downloaded_of_activities (s_activities s)) secs').
Proof.
  unfold section_step.
  set (pre := flat_map (fun s => downloaded_of_activities (s_activities s)) secs).
  destruct (enumerate_loop _ _ _ _) as [[[[acts ws1] fs1]|e]|] eqn:E; [|done|done].
  intros [= <- <- <-] Hinv.
  assert (Hacts : keeps exists_ fs0 fs1
                  /\ fresh_paths exists_ fs0 fs1 (pre ++ downloaded_of_activities acts)).
  { revert E. apply (enumerate_loop_inv _
      (fun st : activities_state => keeps exists_ fs0 st.2
           /\ fresh_paths exists_ fs0 st.2 (pre ++ downloaded_of_activities st.1.1))).
    - intros i x [[o w0] f0] [[o' w0'] f0'] Hi Hs. simpl in *.
      by eapply activity_step_fresh.
    - simpl. by rewrite app_nil_r. }
  destruct Hacts as [K Hf]. split; [done|].
  destruct (truthy (section_name_of sec) || negb (bool_decide (acts = []))) eqn:Ec.
  - rewrite flat_map_app. simpl. by rewrite app_nil_r.
  - apply orb_false_iff in Ec as [_ Ec]. apply negb_false_iff, bool_decide_eq_true in Ec.
    subst acts. simpl in Hf. by rewrite app_nil_r in Hf.
Qed.

Lemma course_page_fresh fuel fs sess page soup url (data : course_data (F := F)) fs' :
  parse_course_page pyfloat exists_ mkdir open_wb url_path reparse fuel fs sess page soup url
    = Some (Ok (data, fs')) ->
  keeps exists_ fs fs' /\ fresh_paths exists_ fs fs' (downloaded_of data).
Proof.
  unfold parse_course_page.
  destruct (enumerate_loop _ _ _ _) as [[[[secs ws] fs1]|e]|] eqn:E; [|done|done].
  intros [= <- <-]. unfold downloaded_of. simpl.
  revert E. apply (enumerate_loop_inv _
    (fun st : sections_state => keeps exists_ fs st.2
         /\ fresh_paths exists_ fs st.2
              (flat_map (fun s => downloaded_of_activities (s_activities s)) st.1.1))).
  - intros i x [[o w0] f0] [[o' w0'] f0'] Hi Hs. simpl in *. by eapply section_step_fresh.
  - simpl. split; [apply keeps_refl|]. exists []. by repeat constructor.
Qed.

End CoursePageFacts.

(** X18.  No file is overwritten and none is reported twice.  Over the
    whole of a course page, the paths in the [downloaded_files] lists of
    the result are pairwise different; each names a file that did not
    exist when [parse_course_page] was called and exists when it returns;
    and no file that existed before is gone. *)
Theorem parse_course_page_saves_new_files {F FS : Type} (pyfloat : pystr -> option F)
    (exists_ : FS -> path -> bool) (mkdir open_wb : FS -> path -> outcome FS)
    (url_path : pystr -> outcome pystr) (reparse : node -> node)
    (fuel : nat) (fs : FS) (sess : session) (page : browser) (soup : node) (url : pystr)
    (data : course_data (F := F)) (fs' : FS) :
  creates exists_ mkdir -> creates exists_ open_wb ->
  parse_course_page pyfloat exists_ mkdir open_wb url_path reparse fuel fs sess page soup url
    = Some (Ok (data, fs')) ->
  NoDup (downloaded_of data)
  /\ keeps exists_ fs fs'
  /\ exists saved : list path,
       downloaded_of data = map path_str saved
       /\ Forall (fun p => exists_ fs p = false /\ exists_ fs' p = true) saved.
Proof.
  intros Hmk Hop Hrun.
  destruct (course_page_fresh pyfloat exists_ mkdir open_wb url_path reparse Hmk Hop
              _ _ _ _ _ _ _ _ Hrun) as (K & saved & E & Nd & Hall).
  split; [|split; [done|]].
  - rewrite E. apply NoDup_fmap_2_strong; [|done]. intros p q Hp Hq.
    rewrite Forall_forall in Hall.
    destruct (Hall _ Hp) as (Wp & _), (Hall _ Hq) as (Wq & _). by apply path_str_inj.
  - exists saved. split; [done|]. eapply Forall_impl; [exact Hall|]. by intros p (_ & ? & ?).
Qed.

Lemma parse_course_page_saves_new_files_witness :
  exists data fs',
    parse_course_page plain_float listed add_path add_path path_of_url (fun act => soup_of [act])
      2 [] (serve (Some CD_QUOTED)) offline course_page (str "https://moodle.elct.lnu.edu.ua/c")
    = Some (Ok (data, fs'))
    /\ NoDup (downloaded_of data).
Proof.
  eexists _, _.
  assert (Hrun : parse_course_page plain_float listed add_path add_path path_of_url
                   (fun act => soup_of [act]) 2 [] (serve (Some CD_QUOTED)) offline course_page
                   (str "https://moodle.elct.lnu.edu.ua/c") = Some (Ok (_, _)))
    by (vm_compute; reflexivity).
  split; [exact Hrun|].
  exact (proj1 (parse_course_page_saves_new_files plain_float listed add_path add_path
                  path_of_url (fun act => soup_of [act]) 2 [] (serve (Some CD_QUOTED)) offline
                  course_page (str "https://moodle.elct.lnu.edu.ua/c") _ _
                  add_path_creates add_path_creates Hrun)).
Defined.

Lemma assign_meta_shape {F : Type} (pyfloat : pystr -> option F) (soup : node) :
  record_shape (assign_meta pyfloat soup).
Proof.
  unfold assign_meta. apply shape_grade_loop.
  apply shape_insert; [|field_solver|field_solver].
  apply shape_fold; [apply shape_status_row_step|].
  apply shape_fold; [apply shape_date_row_step|].
  apply shape_fold; [apply shape_activity_date_step|].
  apply shape_META0.
Qed.

Lemma pystr_eqb_eq (a b : pystr) : pystr_eqb a b = true <-> a = b.
Proof. unfold pystr_eqb. apply bool_decide_eq_true. Qed.

Lemma pystr_eqb_ne (a b : pystr) : pystr_eqb a b = false <-> a <> b.
Proof. unfold pystr_eqb. apply bool_decide_eq_false. Qed.

Section CoursePageShape.
Context {F FS : Type}.
Variable pyfloat : pystr -> option F.
Variable exists_ : FS -> path -> bool.
Variables mkdir open_wb : FS -> path -> outcome FS.
Variable url_path : pystr -> outcome pystr.
Variable reparse : node -> node.
Hypothesis mkdir_creates : creates exists_ mkdir.
Hypothesis open_creates : creates exists_ open_wb.

Lemma planned_keys (page : browser) (act : node) (ty u : pystr)
    (meta : option (gmap string (pyval F))) (files : option (list pystr)) (urls : list pystr) :
  planned pyfloat reparse page act ty u = Ok (meta, files, urls) ->
  (is_Some meta <-> ty = str "assign")
  /\ (is_Some files <-> (ty = str "resource" \/ ty = str "folder"))
  /\ urls = match meta, files with
            | Some m, _ => files_to_download m
            | None, Some l => l
            | None, None => []
            end
  /\ (forall m, meta = Some m -> m = ∅ \/ record_shape m).
Proof.
  unfold planned.
  destruct (pystr_eqb ty (str "assign")) eqn:Ea.
  - apply pystr_eqb_eq in Ea as ->.
    unfold parse_assign_page. destruct (page u) as [soup|e]; intros [= <- <- <-].
    + split; [by split; [|eexists]|]. split; [split; [by intros [? ?] | by intros [?|?]]|].
      split; [done|]. intros m [= <-]. right. apply assign_meta_shape.
    + split; [by split; [|eexists]|]. split; [split; [by intros [? ?] | by intros [?|?]]|].
      split; [done|]. intros m [= <-]. by left.
  - apply pystr_eqb_ne in Ea.
    destruct (pystr_eqb ty (str "resource") || pystr_eqb ty (str "folder")) eqn:Er.
    + intros [= <- <- <-]. split; [split; [by intros [? ?] | done]|].
      split; [|done]. split; [intros _|by eexists].
      apply orb_true_iff in Er as [?%pystr_eqb_eq|?%pystr_eqb_eq]; auto.
    + intros [= <- <- <-]. apply orb_false_iff in Er as [?%pystr_eqb_ne ?%pystr_eqb_ne].
      split; [split; [by intros [? ?] | done]|].
      split; [|done]. split; [by intros [? ?] | by intros [?|?]].
Qed.

Lemma activity_step_shape fuel sess page ct sn w si ai act
    (objs objs' : list (activity_obj (F := F))) (ws ws' : list webinar) (fs fs' : FS) :
  activity_step pyfloat exists_ mkdir open_wb url_path reparse fuel sess page ct sn w si ai act
    (objs, ws, fs) = Some (Ok (objs', ws', fs')) ->
  Forall activity_keys_ok objs
  /\ Forall (fun x => w_platform x ∈ [str "bigbluebutton"; str "google_meet"]) ws ->
  Forall activity_keys_ok objs'
  /\ Forall (fun x => w_platform x ∈ [str "bigbluebutton"; str "google_meet"]) ws'.
Proof.
  unfold activity_step. destruct (find "a" act) as [link|]; [|by intros [= <- <- <-]].
  set (ws1 := match platform_of (activity_type act) with
              | Some platform => if w then ws ++ [_] else ws
              | None => ws
              end).
  assert (Hws : Forall (fun x => w_platform x ∈ [str "bigbluebutton"; str "google_meet"]) ws ->
                Forall (fun x => w_platform x ∈ [str "bigbluebutton"; str "google_meet"]) ws1).
  { intros H. subst ws1. unfold platform_of.
    destruct (pystr_eqb (activity_type act) (str "bigbluebuttonbn")).
    - destruct w; [|done]. apply Forall_app. split; [done|]. repeat constructor.
    - destruct (pystr_eqb (activity_type act) (str "googlemeet")); [|done].
      destruct w; [|done]. apply Forall_app. split; [done|].
      constructor; [|done]. right. by left. }
  destruct (planned _ _ _ _ _ _) as [[[meta files] urls]|e] eqn:Ep; [|done].
  apply planned_keys in Ep as (Km & Kf & Ku & Ks).
  destruct urls as [|u urls].
  - intros [= <- <- <-] [Ho Hw]. split; [|by apply Hws].
    apply Forall_app. split; [done|]. constructor; [|done].
    unfold activity_keys_ok, urls_of. simpl. rewrite <- Ku.
    split; [done|]. split; [done|]. split; [split; [by intros [? ?] | done]|].
    split; [done | done].
  - destruct (download_files_for_activity _ _ _ _ _ _ _ _ _ _ _ _ _) as [[[paths fs1]|e]|] eqn:E;
      [|done|done].
    intros [= <- <- <-] [Ho Hw]. split; [|by apply Hws].
    apply Forall_app. split; [done|]. constructor; [|done].
    unfold activity_keys_ok, urls_of. simpl. rewrite <- Ku.
    split; [done|]. split; [done|]. split; [split; [done | by eexists]|].
    split; [done|]. intros ps [= <-].
    unfold download_files_for_activity in E.
    apply (download_loop_saved _ _ _ _ _ _ _ _ _ _ _ _ mkdir_creates open_creates
             (dest_dir_of_wf _ _ _ _ _)) in E as (_ & saved & -> & _ & Hlen & _).
    cbn [app]. by rewrite length_map.
Qed.

Lemma section_step_shape fuel sess page ct si sec
    (secs secs' : list (section_obj (F := F))) (ws ws' : list webinar) (fs fs' : FS) :
  section_step pyfloat exists_ mkdir open_wb url_path reparse fuel sess page ct si sec
    (secs, ws, fs) = Some (Ok (secs', ws', fs')) ->
  Forall (fun s => (s_name s <> [] \/ s_activities s <> [])
                   /\ Forall activity_keys_ok (s_activities s)) secs
  /\ Forall (fun x => w_platform x ∈ [str "bigbluebutton"; str "google_meet"]) ws ->
  Forall (fun s => (s_name s <> [] \/ s_activities s <> [])
                   /\ Forall activity_keys_ok (s_activities s)) secs'
  /\ Forall (fun x => w_platform x ∈ [str "bigbluebutton"; str "google_meet"]) ws'.
Proof.
  unfold section_step.
  destruct (enumerate_loop _ _ _ _) as [[[[acts ws1] fs1]|e]|] eqn:E; [|done|done].
  intros [= <- <- <-] [Hs Hw].
  assert (Hacts : Forall activity_keys_ok acts
                  /\ Forall (fun x => w_platform x ∈ [str "bigbluebutton"; str "google_meet"]) ws1).
  { revert E. apply (enumerate_loop_inv _
      (fun st : activities_state => Forall activity_keys_ok st.1.1
           /\ Forall (fun x => w_platform x ∈ [str "bigbluebutton"; str "google_meet"]) st.1.2)).
    - intros i x [[o w0] f0] [[o' w0'] f0'] Hi Hstep. simpl in *.
      by eapply activity_step_shape.
    - by simpl. }
  destruct Hacts as [Ha Hw1]. split; [|done].
  destruct (truthy (section_name_of sec)) eqn:Et; simpl.
  - apply Forall_app. split; [done|]. constructor; [|done]. simpl.
    split; [left; by destruct (section_name_of sec) | done].
  - destruct (bool_decide (acts = [])) eqn:Eb; simpl; [done|].
    apply bool_decide_eq_false in Eb.
    apply Forall_app. split; [done|]. constructor; [|done]. simpl. by split; [right|].
Qed.

Lemma course_page_shape fuel fs sess page soup url (data : course_data (F := F)) fs' :
  parse_course_page pyfloat exists_ mkdir open_wb url_path reparse fuel fs sess page soup url
    = Some (Ok (data, fs')) ->
  c_url data = url
  /\ Forall (fun s => (s_name s <> [] \/ s_activities s <> [])
                      /\ Forall activity_keys_ok (s_activities s)) (c_sections data)
  /\ Forall (fun x => w_platform x ∈ [str "bigbluebutton"; str "google_meet"]) (c_webinars data).
Proof.
  unfold parse_course_page.
  destruct (enumerate_loop _ _ _ _) as [[[[secs ws] fs1]|e]|] eqn:E; [|done|done].
  intros [= <- <-]. simpl. split; [done|].
  revert E. apply (enumerate_loop_inv _
    (fun st : sections_state =>
       Forall (fun s => (s_name s <> [] \/ s_activities s <> [])
                        /\ Forall activity_keys_ok (s_activities s)) st.1.1
       /\ Forall (fun x => w_platform x ∈ [str "bigbluebutton"; str "google_meet"]) st.1.2)).
  - intros i x [[o w0] f0] [[o' w0'] f0'] Hi Hstep. simpl in *. by eapply section_step_shape.
  - by simpl.
Qed.

End CoursePageShape.

(** X19.  The keys of the result of [parse_course_page] follow the type of
    the activity.  An activity object has [meta] exactly when its type is
    [assign], and [files] exactly when its type is [resource] or [folder];
    it has [downloaded_files] exactly when the URLs these keys give are not
    none, with at most one path per URL; a [meta] record is empty or has
    the twelve fields.  So an activity of another type is never opened and
    never downloaded.  Every section of the result has a name or an
    activity, and every webinar is on one of the two platforms. *)
Theorem parse_course_page_keys {F FS : Type} (pyfloat : pystr -> option F)
    (exists_ : FS -> path -> bool) (mkdir open_wb : FS -> path -> outcome FS)
    (url_path : pystr -> outcome pystr) (reparse : node -> node)
    (fuel : nat) (fs : FS) (sess : session) (page : browser) (soup : node) (url : pystr)
    (data : course_data (F := F)) (fs' : FS) :
  creates exists_ mkdir -> creates exists_ open_wb ->
  parse_course_page pyfloat exists_ mkdir open_wb url_path reparse fuel fs sess page soup url
    = Some (Ok (data, fs')) ->
  c_url data = url
  /\ Forall (fun s => (s_name s <> [] \/ s_activities s <> [])
                      /\ Forall activity_keys_ok (s_activities s)) (c_sections data)
  /\ Forall (fun x => w_platform x ∈ [str "bigbluebutton"; str "google_meet"]) (c_webinars data).
Proof. intros Hmk Hop. by apply course_page_shape. Qed.

Lemma parse_course_page_keys_witness :
  exists data fs',
    parse_course_page plain_float listed add_path add_path path_of_url (fun act => soup_of [act])
      2 [] (serve (Some CD_QUOTED)) offline course_page (str "https://moodle.elct.lnu.edu.ua/c")
    = Some (Ok (data, fs'))
    /\ c_url data = str "https://moodle.elct.lnu.edu.ua/c".
Proof.
  eexists _, _.
  assert (Hrun : parse_course_page plain_float listed add_path add_path path_of_url
                   (fun act => soup_of [act]) 2 [] (serve (Some CD_QUOTED)) offline course_page
                   (str "https://moodle.elct.lnu.edu.ua/c") = Some (Ok (_, _)))
    by (vm_compute; reflexivity).
  split; [exact Hrun|].
  exact (proj1 (parse_course_page_keys plain_float listed add_path add_path
                  path_of_url (fun act => soup_of [act]) 2 [] (serve (Some CD_QUOTED)) offline
                  course_page (str "https://moodle.elct.lnu.edu.ua/c") _ _
                  add_path_creates add_path_creates Hrun)).
Defined.

Lemma enumerate_loop_mono {A S : Type} (body body' : Z -> A -> S -> option (outcome S)) :
  (forall i x s r, body i x s = Some r -> body' i x s = Some r) ->
  forall i xs s r, enumerate_loop body i xs s = Some r -> enumerate_loop body' i xs s = Some r.
Proof.
  intros Hb i xs. revert i. induction xs as [|x xs IH]; intros i s r; [done|]. simpl.
  destruct (body i x s) as [r1|] eqn:E; [|done]. rewrite (Hb _ _ _ _ E).
  destruct r1 as [s1|e]; [apply IH | done].
Qed.

Lemma enumerate_loop_terminates {A S : Type} (body : nat -> Z -> A -> S -> option (outcome S)) :
  (forall f f' i x s r, (f <= f')%nat -> body f i x s = Some r -> body f' i x s = Some r) ->
  (forall i x s, exists f r, body f i x s = Some r) ->
  forall i xs s, exists f r, enumerate_loop (body f) i xs s = Some r.
Proof.
  intros Hmono Hterm i xs. revert i. induction xs as [|x xs IH]; intros i s.
  { exists 0%nat. by eexists. }
  destruct (Hterm i x s) as (f1 & r1 & E1). destruct r1 as [s1|e].
  - destruct (IH (i + 1)%Z s1) as (f2 & r2 & E2).
    exists (f1 `max` f2)%nat, r2. simpl.
    rewrite (Hmono f1 _ _ _ _ _ (Nat.le_max_l f1 f2) E1).
    revert E2. apply enumerate_loop_mono. intros ? ? ? ?. apply Hmono, Nat.le_max_r.
  - exists f1. simpl. rewrite E1. by eexists.
Qed.

Section CoursePageEnds.
Context {F FS : Type}.
Variable pyfloat : pystr -> option F.
Variable exists_ : FS -> path -> bool.
Variables mkdir open_wb : FS -> path -> outcome FS.
Variable url_path : pystr -> outcome pystr.
Variable reparse : node -> node.
Hypothesis finite : finite_directories exists_.

Lemma activity_step_mono f f' sess page ct sn w si ai act
    (st : activities_state (F := F)) (r : outcome (activities_state (F := F))) :
  (f <= f')%nat ->
  activity_step pyfloat exists_ mkdir open_wb url_path reparse f sess page ct sn w si ai act st
    = Some r ->
  activity_step pyfloat exists_ mkdir open_wb url_path reparse f' sess page ct sn w si ai act st
    = Some r.
Proof.
  intros Hle. destruct st as [[objs ws] fs]. unfold activity_step.
  destruct (find "a" act) as [link|]; [|done].
  destruct (planned _ _ _ _ _ _) as [[[meta files] urls]|e]; [|done].
  destruct urls as [|u urls]; [done|].
  unfold download_files_for_activity.
  destruct (download_loop _ _ _ _ f _ _ _ _ _) as [res|] eqn:E; [|done].
  by rewrite (download_loop_mono _ _ _ _ _ _ _ _ _ _ _ _ E Hle).
Qed.

Lemma activity_step_terminates sess page ct sn w si ai act (st : activities_state (F := F)) :
  bodies_end sess ->
  exists f r,
    activity_step pyfloat exists_ mkdir open_wb url_path reparse f sess page ct sn w si ai act st
    = Some r.
Proof.
  intros Hend. destruct st as [[objs ws] fs]. unfold activity_step.
  destruct (find "a" act) as [link|]; [|exists 0%nat; by eexists].
  destruct (planned _ _ _ _ _ _) as [[[meta files] urls]|e]; [|exists 0%nat; by eexists].
  destruct urls as [|u urls]; [exists 0%nat; by eexists|].
  unfold download_files_for_activity.
  destruct (download_loop_terminates exists_ mkdir open_wb url_path fs sess (u :: urls)
              (dest_dir_of ct si sn ai (activity_name act link)) [] finite Hend
              (dest_dir_of_wf _ _ _ _ _)) as (f & res & E).
  exists f. rewrite E. destruct res as [[paths fs1]|e]; by eexists.
Qed.

Lemma section_step_mono f f' sess page ct si sec
    (st : sections_state (F := F)) (r : outcome (sections_state (F := F))) :
  (f <= f')%nat ->
  section_step pyfloat exists_ mkdir open_wb url_path reparse f sess page ct si sec st = Some r ->
  section_step pyfloat exists_ mkdir open_wb url_path reparse f' sess page ct si sec st = Some r.
Proof.
  intros Hle. destruct st as [[secs ws] fs]. unfold section_step.
  destruct (enumerate_loop (activity_step _ _ _ _ _ _ f _ _ _ _ _ _) _ _ _) as [res|] eqn:E;
    [|done].
  erewrite enumerate_loop_mono; [done | | exact E].
  intros i x s r0. by apply activity_step_mono.
Qed.

Lemma section_step_terminates sess page ct si sec (st : sections_state (F := F)) :
  bodies_end sess ->
  exists f r,
    section_step pyfloat exists_ mkdir open_wb url_path reparse f sess page ct si sec st = Some r.
Proof.
  intros Hend. destruct st as [[secs ws] fs]. unfold section_step.
  destruct (enumerate_loop_terminates
              (fun f => activity_step pyfloat exists_ mkdir open_wb url_path reparse f sess page
                          ct (section_name_of sec) (is_webinars_section sec) si)
              (fun f f' i x s r Hle => activity_step_mono f f' _ _ _ _ _ _ i x s r Hle)
              (fun i x s => activity_step_terminates _ _ _ _ _ _ i x s Hend)
              1%Z (select_activities sec) ([], ws, fs)) as (f & res & E).
  exists f. rewrite E. destruct res as [[[acts ws1] fs1]|e]; by eexists.
Qed.

Lemma course_page_terminates fs sess page soup url :
  bodies_end sess ->
  exists f r,
    parse_course_page pyfloat exists_ mkdir open_wb url_path reparse f fs sess page soup url
    = Some r.
Proof.
  intros Hend. unfold parse_course_page.
  set (ct := match find "h1" soup with Some t => get_text_strip t | None => url end).
  destruct (enumerate_loop_terminates
              (fun f => section_step pyfloat exists_ mkdir open_wb url_path reparse f sess page ct)
              (fun f f' i x s r Hle => section_step_mono f f' _ _ _ i x s r Hle)
              (fun i x s => section_step_terminates _ _ _ i x s Hend)
              1%Z (select_sections soup) ([], [], fs)) as (f & res & E).
  exists f. rewrite E. destruct res as [[[secs ws1] fs1]|e]; by eexists.
Qed.

End CoursePageEnds.



(** ** [safe_name] and path segments *)

Lemma ws_collapsed_all_space (t : pystr) :
  ws_collapsed t = true -> Forall (fun c => isspace c = true) t -> (length t <= 1)%nat.
Proof.
  destruct t as [|c1 [|c2 t]]; simpl; [lia | lia |].
  intros H Hall. apply Forall_cons in Hall as [H1 Hall]. apply Forall_cons in Hall as [H2 _].
  by rewrite H1, H2 in H.
Qed.

(** Where whitespace is collapsed, [rstrip] removes one character at most. *)
Lemma rstrip_collapsed_length (t : pystr) :
  ws_collapsed t = true -> (length t <= S (length (rstrip t)))%nat.
Proof.
  induction t as [|c t IH]; [simpl; lia|]. intros H.
  assert (Ht : ws_collapsed t = true).
  { destruct t as [|c2 t]; [done|]. simpl in H. by apply andb_true_iff in H as [_ ?]. }
  specialize (IH Ht). unfold rstrip in *. cbn [rstrip_by].
  destruct (rstrip_by isspace t) as [|r rs] eqn:E.
  - pose proof (ws_collapsed_all_space t Ht (rstrip_by_nil _ _ E)) as Hl.
    destruct (isspace c) eqn:Ec; [|simpl; lia].
    destruct t as [|c2 t]; [simpl; lia|].
    apply rstrip_by_nil in E. apply Forall_cons in E as [E2 _].
    simpl in H. by rewrite Ec, E2 in H.
  - simpl in *. lia.
Qed.

Lemma safe_name_dots (name : pystr) (max_len : Z) (d : pystr) :
  (4 <= max_len)%Z -> (0 < length d <= 2)%nat -> d <> str "untitled" ->
  safe_name name max_len = d <-> sanitize name = d.
Proof.
  intros Hm Hd Hu. unfold safe_name.
  pose proof (sanitize_clean name) as [_ W].
  destruct (sanitize name) as [|c s] eqn:Es; cbn [truthy].
  - change (length (str "untitled")) with 8%nat.
    destruct (Z.of_nat 8 >? max_len)%Z eqn:E8.
    + unfold slice_to. destruct (max_len <? 0)%Z eqn:E0; [apply Z.ltb_lt in E0; lia|].
      split; [|intros <-; simpl in Hd; lia]. intros <-.
      pose proof (rstrip_collapsed_length (take (Z.to_nat max_len) (str "untitled"))
                    (ws_collapsed_take (Z.to_nat max_len) (str "untitled") eq_refl)) as Hl.
      rewrite length_take in Hl. change (length (str "untitled")) with 8%nat in Hl.
      apply Z.gtb_lt in E8. lia.
    + split; [done | intros <-; simpl in Hd; lia].
  - destruct (Z.of_nat (length (c :: s)) >? max_len)%Z eqn:E; [|done].
    apply Z.gtb_lt in E.
    unfold slice_to. destruct (max_len <? 0)%Z eqn:E0; [apply Z.ltb_lt in E0; lia|].
    pose proof (rstrip_collapsed_length (take (Z.to_nat max_len) (c :: s))
                  (ws_collapsed_take _ _ W)) as Hl.
    rewrite length_take in Hl.
    split; intros <-; lia.
Qed.

Lemma clean_single_segment (r : pystr) :
  r <> [] -> Forall clean_char r -> r <> [DOT] -> r <> [DOT; DOT] ->
  single_segment r /\ forall p, joinpath p r = Path (root p) (segments p ++ [r]).
Proof.
  intros Hne Hc H1 H2.
  assert (Hs : SLASH ∉ r).
  { intros Hin. rewrite Forall_forall in Hc. by destruct (Hc _ Hin) as (Hsl & _). }
  split; [done|]. intros p. by apply joinpath_segment.
Qed.

Lemma dir_name_single_segment (kind : pystr) (index : Z) (name : pystr) :
  single_segment (dir_name kind index name).
Proof.
  destruct (dir_name_segment kind index name) as (H1 & H2 & H3).
  split; [done|]. split; [done|]. split; [done|].
  intros E. assert (H : 0x5F ∈ [DOT; DOT]).
  { rewrite <- E. unfold dir_name. rewrite !elem_of_app. right. left. by left. }
  apply elem_of_cons in H as [H|H]; [done|]. by apply list_elem_of_singleton in H.
Qed.



